(** * validate.py: the card-data validation pipeline

    A shallow embedding of [validate.py]: the canonical JSON formatter
    ([format_json]), the document loader ([load_json_file]), the schema
    self-check, the two cross-document checks and the three-stage
    orchestration ([load_cycles], [load_pack_index], [validate_cards],
    [main]) with its two process-wide defect counters.

    Conventions of the model.
    - The script is read with the semantics of Python 3: [str] and [bytes]
      are distinct, [IOError] is [OSError], and [UnicodeDecodeError],
      [UnicodeEncodeError] and [JSONDecodeError] are [ValueError]s.
    - A Python [str] is a list of Unicode code points ([pystr]); a file holds
      a list of bytes.
    - A parsed document is a [json] value; a Python [dict] is kept as an
      association list in insertion order whose keys are pairwise distinct
      ([wf_json]).
    - [json.dumps] and [json.loads] are embedded from the behaviour of the
      CPython [json] package for the options the script passes.
    - Floating point is kept behind the interface [PyFloat].  The schema
      engine ([jsonschema]) and the built-in [str()] are kept behind
      [Host]; the engine raises [SchemaError] from its self-check and
      [ValidationError] from a validation, and nothing else.
    - A computation maps a state (the two counters, the files, the trace of
      what was written and of the calls to the engine) to what it returns
      or raises and the state it leaves.
    - Interpreter resource limits (recursion depth, memory, the digit limit
      of [int]) are outside the model. *)

From Stdlib Require Import List ZArith NArith Lia Bool String Ascii Arith PeanoNat.
From Stdlib Require DecimalFacts DecimalPos DecimalN DecimalZ.
From Stdlib Require Import Permutation.
Import ListNotations.

Set Implicit Arguments.
Unset Strict Implicit.
Set Warnings "-register-all".

(* ------------------------------------------------------------------ *)
(** ** Text *)

Module Text.

(** A Python [str]: a sequence of code points. *)
Definition pystr := list N.

(** The code points of an ASCII literal. *)
Definition lit (s : string) : pystr :=
  map N_of_ascii (list_ascii_of_string s).

Definition QUOTE : N := 34.      (* the double quote *)
Definition BACKSLASH : N := 92.
Definition NL : N := 10.
Definition SPACE : N := 32.

Fixpoint str_eqb (a b : pystr) : bool :=
  match a, b with
  | [], [] => true
  | x :: a', y :: b' => N.eqb x y && str_eqb a' b'
  | _, _ => false
  end.

(** [a < b] on [str]: lexicographic on code points. *)
Fixpoint str_ltb (a b : pystr) : bool :=
  match a, b with
  | [], [] => false
  | [], _ :: _ => true
  | _ :: _, [] => false
  | x :: a', y :: b' =>
      if N.ltb x y then true
      else if N.eqb x y then str_ltb a' b' else false
  end.

(** [s.startswith(p)], returning what follows the prefix. *)
Fixpoint strip_prefix (p s : pystr) : option pystr :=
  match p, s with
  | [], _ => Some s
  | x :: p', y :: s' => if N.eqb x y then strip_prefix p' s' else None
  | _ :: _, [] => None
  end.

End Text.
Import Text.

(* ------------------------------------------------------------------ *)
(** ** Parsed documents *)

(** The part of Python's [float] the script relies on.  [floatstr] is the
    text [json.dumps] writes for a float ([float.__repr__], or [NaN],
    [Infinity], [-Infinity]); [py_float] is [float(text)], which
    [json.loads] applies to a number literal with a fraction or an exponent
    and to the three constants. *)
Class PyFloat := {
  pyfloat : Type;
  floatstr : pyfloat -> pystr;
  py_float : pystr -> pyfloat;
  float_eqb : pyfloat -> pyfloat -> bool;      (* f == g *)
  float_eq_int : pyfloat -> Z -> bool          (* f == n, n an int *)
}.

Section Json.
Context {PF : PyFloat}.

(** What [json.loads] returns.  [JNull] is Python's [None]: the value
    [load_json_file] returns for a file it could not parse is the same value
    it returns for a file that holds [null]. *)
Inductive json :=
| JNull
| JBool (b : bool)
| JInt (z : Z)
| JFloat (f : pyfloat)
| JStr (s : pystr)
| JList (items : list json)
| JObj (members : list (pystr * json)).

(** [d.get(k)] on the association list of a dict. *)
Fixpoint lookup (k : pystr) (d : list (pystr * json)) : option json :=
  match d with
  | [] => None
  | (k', v) :: d' => if str_eqb k k' then Some v else lookup k d'
  end.

(** [d[k] = v]: an existing key keeps its position. *)
Fixpoint dict_setitem (d : list (pystr * json)) (k : pystr) (v : json)
  : list (pystr * json) :=
  match d with
  | [] => [(k, v)]
  | (k', v') :: d' =>
      if str_eqb k k' then (k', v) :: d' else (k', v') :: dict_setitem d' k v
  end.

(** [dict(pairs)]. *)
Definition py_dict (pairs : list (pystr * json)) : list (pystr * json) :=
  fold_left (fun d kv => dict_setitem d (fst kv) (snd kv)) pairs [].

(** The keys of every dict are pairwise distinct. *)
Fixpoint wf_json (v : json) : Prop :=
  match v with
  | JList items => (fix all (l : list json) : Prop :=
                      match l with [] => True | x :: l' => wf_json x /\ all l' end) items
  | JObj members =>
      NoDup (map fst members) /\
      (fix all (l : list (pystr * json)) : Prop :=
         match l with [] => True | kv :: l' => wf_json (snd kv) /\ all l' end) members
  | _ => True
  end.

(** [a == b] on parsed documents.  [bool] is a subclass of [int], and ints
    compare with floats by value; dicts compare regardless of order. *)
Fixpoint py_eq (a b : json) {struct a} : bool :=
  match a, b with
  | JNull, JNull => true
  | JBool x, JBool y => Bool.eqb x y
  | JBool x, JInt z => Z.eqb (Z.b2z x) z
  | JBool x, JFloat f => float_eq_int f (Z.b2z x)
  | JInt z, JBool y => Z.eqb z (Z.b2z y)
  | JInt x, JInt y => Z.eqb x y
  | JInt z, JFloat f => float_eq_int f z
  | JFloat f, JBool y => float_eq_int f (Z.b2z y)
  | JFloat f, JInt z => float_eq_int f z
  | JFloat f, JFloat g => float_eqb f g
  | JStr s, JStr t => str_eqb s t
  | JList xs, JList ys =>
      (fix go (xs ys : list json) : bool :=
         match xs, ys with
         | [], [] => true
         | x :: xs', y :: ys' => py_eq x y && go xs' ys'
         | _, _ => false
         end) xs ys
  | JObj mx, JObj my =>
      Nat.eqb (List.length mx) (List.length my) &&
      (fix go (mx : list (pystr * json)) : bool :=
         match mx with
         | [] => true
         | kv :: mx' =>
             match lookup (fst kv) my with
             | Some w => py_eq (snd kv) w
             | None => false
             end && go mx'
         end) mx
  | _, _ => false
  end.

(** [bool(v)]. *)
Definition py_truthy (v : json) : bool :=
  match v with
  | JNull => false
  | JBool b => b
  | JInt z => negb (Z.eqb z 0)
  | JFloat f => negb (float_eq_int f 0)
  | JStr s => match s with [] => false | _ => true end
  | JList l => match l with [] => false | _ => true end
  | JObj m => match m with [] => false | _ => true end
  end.

(** [isinstance(v, list)]. *)
Definition is_list (v : json) : bool :=
  match v with JList _ => true | _ => false end.

Definition is_dict (v : json) : bool :=
  match v with JObj _ => true | _ => false end.

End Json.

(* ------------------------------------------------------------------ *)
(** ** [json.dumps(..., ensure_ascii=False, sort_keys=True, indent=4,
       separators=(',', ': '))] *)

Module Encoder.
Section Encoder.
Context {PF : PyFloat}.

Fixpoint uint_codes (d : Decimal.uint) : pystr :=
  match d with
  | Decimal.Nil => []
  | Decimal.D0 d => 48%N :: uint_codes d
  | Decimal.D1 d => 49%N :: uint_codes d
  | Decimal.D2 d => 50%N :: uint_codes d
  | Decimal.D3 d => 51%N :: uint_codes d
  | Decimal.D4 d => 52%N :: uint_codes d
  | Decimal.D5 d => 53%N :: uint_codes d
  | Decimal.D6 d => 54%N :: uint_codes d
  | Decimal.D7 d => 55%N :: uint_codes d
  | Decimal.D8 d => 56%N :: uint_codes d
  | Decimal.D9 d => 57%N :: uint_codes d
  end.

(** [int.__repr__]. *)
Definition int_repr (z : Z) : pystr :=
  match Z.to_int z with
  | Decimal.Pos d => uint_codes d
  | Decimal.Neg d => 45%N :: uint_codes d
  end.

(** One lower-case hexadecimal digit. *)
Definition hex_digit (n : N) : N :=
  if N.ltb n 10 then (48 + n)%N else (87 + n)%N.

(** [ESCAPE_DCT]: what replaces a character matched by [ESCAPE] (the
    double quote, the backslash and the characters below U+0020); any other
    character is copied. *)
Definition escape_char (c : N) : pystr :=
  if N.eqb c QUOTE then [BACKSLASH; QUOTE]
  else if N.eqb c BACKSLASH then [BACKSLASH; BACKSLASH]
  else if N.eqb c 10 then [BACKSLASH; 110%N]       (* \n *)
  else if N.eqb c 13 then [BACKSLASH; 114%N]       (* \r *)
  else if N.eqb c 9 then [BACKSLASH; 116%N]        (* \t *)
  else if N.eqb c 8 then [BACKSLASH; 98%N]         (* \b *)
  else if N.eqb c 12 then [BACKSLASH; 102%N]       (* \f *)
  else if N.ltb c 32 then
    [BACKSLASH; 117%N; 48%N; 48%N; hex_digit (N.div c 16); hex_digit (N.modulo c 16)]
  else [c].

(** [encode_basestring]: the quoted form of a [str], non-ASCII kept as is. *)
Definition encode_basestring (s : pystr) : pystr :=
  QUOTE :: flat_map escape_char s ++ [QUOTE].

(** ['\n' + ' ' * (4 * level)]. *)
Definition newline_indent (level : nat) : pystr :=
  NL :: repeat SPACE (4 * level).

(** Insertion of an item into a key-sorted list; [sorted(dct.items())]
    compares the keys only, for they are pairwise distinct. *)
Fixpoint insert_item {A} (kv : pystr * A) (l : list (pystr * A)) : list (pystr * A) :=
  match l with
  | [] => [kv]
  | kv' :: l' =>
      if str_ltb (fst kv') (fst kv) then kv' :: insert_item kv l'
      else kv :: l
  end.

Definition sort_items {A} (l : list (pystr * A)) : list (pystr * A) :=
  fold_right insert_item [] l.

(** [first, sep.join(rest)] of the chunks of a container. *)
Definition join_chunks (sep : pystr) (chunks : list pystr) : pystr :=
  match chunks with
  | [] => []
  | c :: cs => c ++ flat_map (fun x => sep ++ x) cs
  end.

(** [_iterencode] at nesting depth [level]. *)
Fixpoint encode (level : nat) (v : json) : pystr :=
  match v with
  | JNull => lit "null"
  | JBool true => lit "true"
  | JBool false => lit "false"
  | JInt z => int_repr z
  | JFloat f => floatstr f
  | JStr s => encode_basestring s
  | JList [] => lit "[]"
  | JList items =>
      lit "[" ++ newline_indent (S level)
        ++ join_chunks (lit "," ++ newline_indent (S level))
             (map (encode (S level)) items)
        ++ newline_indent level ++ lit "]"
  | JObj [] => lit "{}"
  | JObj members =>
      lit "{" ++ newline_indent (S level)
        ++ join_chunks (lit "," ++ newline_indent (S level))
             (map (fun kv => encode_basestring (fst kv) ++ lit ": " ++ snd kv)
                  (sort_items
                     (map (fun kv => (fst kv, encode (S level) (snd kv))) members)))
        ++ newline_indent level ++ lit "}"
  end.

Definition dumps (v : json) : pystr := encode 0 v.

End Encoder.
End Encoder.
Import Encoder.

Section Formatting.
Context {PF : PyFloat}.

(** [format_json]: the canonical text of a document. *)
Definition format_json (json_data : json) : pystr :=
  let formatted_data := dumps json_data in
  formatted_data ++ [NL].

End Formatting.

(* ------------------------------------------------------------------ *)
(** ** [json.loads] *)

Module Decoder.
Section Decoder.
Context {PF : PyFloat}.

(** The result of a scanning function: a value and the text after it, a
    [JSONDecodeError], or the recursion bound of the model reached. *)
Inductive presult (A : Type) :=
| Parsed (a : A) (rest : pystr)
| Invalid
| OutOfFuel.
Arguments Invalid {A}.
Arguments OutOfFuel {A}.

(** [WHITESPACE = [ \t\n\r]*]. *)
Definition is_ws (c : N) : bool :=
  N.eqb c 32 || N.eqb c 9 || N.eqb c 10 || N.eqb c 13.

Fixpoint skip_ws (s : pystr) : pystr :=
  match s with
  | c :: t => if is_ws c then skip_ws t else s
  | [] => []
  end.

Definition is_digit (c : N) : bool := N.leb 48 c && N.leb c 57.

Definition hex_value (c : N) : option N :=
  if is_digit c then Some (c - 48)%N
  else if N.leb 97 c && N.leb c 102 then Some (c - 87)%N
  else if N.leb 65 c && N.leb c 70 then Some (c - 55)%N
  else None.

(** [_decode_uXXXX]: four hexadecimal digits. *)
Definition decode_uXXXX (a b c d : N) : option N :=
  match hex_value a, hex_value b, hex_value c, hex_value d with
  | Some x, Some y, Some z, Some w => Some (((x * 16 + y) * 16 + z) * 16 + w)%N
  | _, _, _, _ => None
  end.

(** The table [BACKSLASH] of one-letter escapes. *)
Definition backslash_char (e : N) : option N :=
  if N.eqb e QUOTE then Some QUOTE
  else if N.eqb e BACKSLASH then Some BACKSLASH
  else if N.eqb e 47 then Some 47%N      (* / *)
  else if N.eqb e 98 then Some 8%N       (* b *)
  else if N.eqb e 102 then Some 12%N     (* f *)
  else if N.eqb e 110 then Some 10%N     (* n *)
  else if N.eqb e 114 then Some 13%N     (* r *)
  else if N.eqb e 116 then Some 9%N      (* t *)
  else None.

Definition is_high_surrogate (u : N) : bool := N.leb 55296 u && N.leb u 56319.
Definition is_low_surrogate (u : N) : bool := N.leb 56320 u && N.leb u 57343.

Definition join_surrogates (u u2 : N) : N :=
  (65536 + (N.lor (N.shiftl (u - 55296) 10) (u2 - 56320)))%N.

Definition cons_char (c : N) (r : option (pystr * pystr)) : option (pystr * pystr) :=
  match r with
  | Some (str, rest) => Some (c :: str, rest)
  | None => None
  end.

(** [scanstring(s, end, strict=True)], [s] starting after the opening
    quote: the decoded string and the text after the closing quote. *)
Fixpoint scanstring (s : pystr) : option (pystr * pystr) :=
  match s with
  | [] => None                                   (* unterminated string *)
  | c :: t =>
      if N.eqb c QUOTE then Some ([], t)
      else if N.eqb c BACKSLASH then
        match t with
        | [] => None
        | e :: t1 =>
            if N.eqb e 117 then                  (* \uXXXX *)
              match t1 with
              | h1 :: h2 :: h3 :: h4 :: t2 =>
                  match decode_uXXXX h1 h2 h3 h4 with
                  | None => None
                  | Some uni =>
                      if is_high_surrogate uni then
                        match t2 with
                        | b :: u :: t3 =>
                            if N.eqb b BACKSLASH && N.eqb u 117 then
                              match t3 with
                              | g1 :: g2 :: g3 :: g4 :: t4 =>
                                  match decode_uXXXX g1 g2 g3 g4 with
                                  | None => None
                                  | Some uni2 =>
                                      if is_low_surrogate uni2
                                      then cons_char (join_surrogates uni uni2) (scanstring t4)
                                      else cons_char uni (scanstring t2)
                                  end
                              | _ => None
                              end
                            else cons_char uni (scanstring t2)
                        | _ => cons_char uni (scanstring t2)
                        end
                      else cons_char uni (scanstring t2)
                  end
              | _ => None
              end
            else
              match backslash_char e with
              | Some ch => cons_char ch (scanstring t1)
              | None => None                     (* invalid \escape *)
              end
        end
      else if N.ltb c 32 then None               (* invalid control character *)
      else cons_char c (scanstring t)
  end.

(** The longest prefix of digits. *)
Fixpoint span_digits (s : pystr) : pystr * pystr :=
  match s with
  | c :: t =>
      if is_digit c then let (ds, r) := span_digits t in (c :: ds, r)
      else ([], s)
  | [] => ([], [])
  end.

(** The three groups of [NUMBER_RE]: an optional minus sign and either a
    single 0 or a digit 1-9 followed by digits; an optional dot followed by
    at least one digit; an optional e or E, an optional sign and at least
    one digit.  Each optional group is taken when it matches. *)
Definition match_integer (s : pystr) : option (pystr * pystr) :=
  let (sign, s1) :=
    match s with
    | c :: t => if N.eqb c 45 then ([45%N], t) else ([], s)
    | [] => ([], s)
    end in
  match s1 with
  | c :: t =>
      if N.eqb c 48 then Some (sign ++ [48%N], t)
      else if is_digit c then
        let (ds, r) := span_digits t in Some (sign ++ c :: ds, r)
      else None
  | [] => None
  end.

Definition match_frac (s : pystr) : pystr * pystr :=
  match s with
  | c :: t =>
      if N.eqb c 46 then
        match span_digits t with
        | ([], _) => ([], s)
        | (ds, r) => (c :: ds, r)
        end
      else ([], s)
  | [] => ([], s)
  end.

Definition match_exp (s : pystr) : pystr * pystr :=
  match s with
  | e :: t =>
      if N.eqb e 101 || N.eqb e 69 then
        let (sign, t1) :=
          match t with
          | c :: t' => if N.eqb c 43 || N.eqb c 45 then ([c], t') else ([], t)
          | [] => ([], t)
          end in
        match span_digits t1 with
        | ([], _) => ([], s)
        | (ds, r) => (e :: sign ++ ds, r)
        end
      else ([], s)
  | [] => ([], s)
  end.

Definition match_number (s : pystr) : option (pystr * pystr * pystr * pystr) :=
  match match_integer s with
  | None => None
  | Some (integer, r1) =>
      let (frac, r2) := match_frac r1 in
      let (exp, r3) := match_exp r2 in
      Some (integer, frac, exp, r3)
  end.

Fixpoint codes_uint (s : pystr) : Decimal.uint :=
  match s with
  | [] => Decimal.Nil
  | c :: t =>
      let d := codes_uint t in
      match (c - 48)%N with
      | 0%N => Decimal.D0 d
      | 1%N => Decimal.D1 d
      | 2%N => Decimal.D2 d
      | 3%N => Decimal.D3 d
      | 4%N => Decimal.D4 d
      | 5%N => Decimal.D5 d
      | 6%N => Decimal.D6 d
      | 7%N => Decimal.D7 d
      | 8%N => Decimal.D8 d
      | _ => Decimal.D9 d
      end
  end.

(** [int(text)] for a text matched by the first group of [NUMBER_RE]. *)
Definition py_int (text : pystr) : Z :=
  match text with
  | c :: t =>
      if N.eqb c 45 then Z.of_int (Decimal.Neg (codes_uint t))
      else Z.of_int (Decimal.Pos (codes_uint text))
  | [] => 0%Z
  end.

(** [JSONArray]: the elements of an array, [s] starting at the first
    element. *)
Fixpoint array_items (scan : pystr -> presult json) (fuel : nat) (s : pystr)
  : presult (list json) :=
  match fuel with
  | O => OutOfFuel
  | S fuel' =>
      match scan s with
      | Parsed v r =>
          match skip_ws r with
          | c :: r1 =>
              if N.eqb c 93 then Parsed [v] r1                 (* ] *)
              else if N.eqb c 44 then                          (* , *)
                match array_items scan fuel' (skip_ws r1) with
                | Parsed vs r2 => Parsed (v :: vs) r2
                | e => e
                end
              else Invalid
          | [] => Invalid
          end
      | Invalid => Invalid
      | OutOfFuel => OutOfFuel
      end
  end.

Definition JSONArray (scan : pystr -> presult json) (fuel : nat) (s : pystr)
  : presult json :=
  match skip_ws s with
  | c :: r =>
      if N.eqb c 93 then Parsed (JList []) r
      else
        match array_items scan fuel (skip_ws s) with
        | Parsed vs r' => Parsed (JList vs) r'
        | Invalid => Invalid
        | OutOfFuel => OutOfFuel
        end
  | [] => Invalid
  end.

(** [JSONObject]: the pairs of an object, [s] starting after the opening
    quote of a key. *)
Fixpoint object_pairs (scan : pystr -> presult json) (fuel : nat) (s : pystr)
  : presult (list (pystr * json)) :=
  match fuel with
  | O => OutOfFuel
  | S fuel' =>
      match scanstring s with
      | None => Invalid
      | Some (key, r) =>
          match skip_ws r with
          | c :: r1 =>
              if N.eqb c 58 then                               (* : *)
                match scan (skip_ws r1) with
                | Parsed v r2 =>
                    match skip_ws r2 with
                    | d :: r3 =>
                        if N.eqb d 125 then Parsed [(key, v)] r3      (* } *)
                        else if N.eqb d 44 then                       (* , *)
                          match skip_ws r3 with
                          | q :: r4 =>
                              if N.eqb q QUOTE then
                                match object_pairs scan fuel' r4 with
                                | Parsed ps r5 => Parsed ((key, v) :: ps) r5
                                | e => e
                                end
                              else Invalid
                          | [] => Invalid
                          end
                        else Invalid
                    | [] => Invalid
                    end
                | Invalid => Invalid
                | OutOfFuel => OutOfFuel
                end
              else Invalid
          | [] => Invalid
          end
      end
  end.

Definition JSONObject (scan : pystr -> presult json) (fuel : nat) (s : pystr)
  : presult json :=
  match skip_ws s with
  | c :: r =>
      if N.eqb c 125 then Parsed (JObj []) r
      else if N.eqb c QUOTE then
        match object_pairs scan fuel r with
        | Parsed ps r' => Parsed (JObj (py_dict ps)) r'
        | Invalid => Invalid
        | OutOfFuel => OutOfFuel
        end
      else Invalid
  | [] => Invalid
  end.

(** The scalar cases of [scan_once] that follow the string, object and
    array cases, in the order of the scanner. *)
Definition scan_scalar (s : pystr) : presult json :=
  match strip_prefix (lit "null") s with
  | Some r => Parsed JNull r
  | None =>
  match strip_prefix (lit "true") s with
  | Some r => Parsed (JBool true) r
  | None =>
  match strip_prefix (lit "false") s with
  | Some r => Parsed (JBool false) r
  | None =>
  match match_number s with
  | Some (integer, frac, exp, r) =>
      match frac, exp with
      | [], [] => Parsed (JInt (py_int integer)) r
      | _, _ => Parsed (JFloat (py_float (integer ++ frac ++ exp))) r
      end
  | None =>
  match strip_prefix (lit "NaN") s with
  | Some r => Parsed (JFloat (py_float (lit "nan"))) r
  | None =>
  match strip_prefix (lit "Infinity") s with
  | Some r => Parsed (JFloat (py_float (lit "inf"))) r
  | None =>
  match strip_prefix (lit "-Infinity") s with
  | Some r => Parsed (JFloat (py_float (lit "-inf"))) r
  | None => Invalid
  end end end end end end end.

(** [scan_once(string, idx)]; [fuel] bounds the nesting and the number of
    elements, and the length of the text is always enough
    (see [scan_once_fuel]). *)
Fixpoint scan_once (fuel : nat) (s : pystr) : presult json :=
  match fuel with
  | O => OutOfFuel
  | S fuel' =>
      match s with
      | [] => Invalid
      | c :: t =>
          if N.eqb c QUOTE then
            match scanstring t with
            | Some (str, r) => Parsed (JStr str) r
            | None => Invalid
            end
          else if N.eqb c 123 then JSONObject (scan_once fuel') fuel' t
          else if N.eqb c 91 then JSONArray (scan_once fuel') fuel' t
          else scan_scalar s
      end
  end.

(** [JSONDecoder.decode]: one value between optional whitespace. *)
Definition decode (s : pystr) : presult json :=
  match scan_once (S (List.length s)) (skip_ws s) with
  | Parsed v r =>
      match skip_ws r with
      | [] => Parsed v []
      | _ :: _ => Invalid                          (* extra data *)
      end
  | e => e
  end.

(** [json.loads(s)] for a [str]: the document, or [None] where Python
    raises [JSONDecodeError]. *)
Definition loads (s : pystr) : option json :=
  match strip_prefix [65279%N] s with
  | Some _ => None                                 (* unexpected UTF-8 BOM *)
  | None =>
      match decode s with
      | Parsed v _ => Some v
      | _ => None
      end
  end.

End Decoder.
Arguments Invalid {A}.
Arguments OutOfFuel {A}.
End Decoder.
Import Decoder.

(* ------------------------------------------------------------------ *)
(** ** The UTF-8 codec *)

Module Codec.

Definition is_cont (b : N) : bool := N.leb 128 b && N.leb b 191.

Definition is_surrogate (c : N) : bool := N.leb 55296 c && N.leb c 57343.

Definition push (c : N) (r : option pystr) : option pystr :=
  match r with
  | Some s => Some (c :: s)
  | None => None
  end.

(** Strict decoding of byte values: overlong forms, surrogates and code
    points above U+10FFFF are errors. *)
Fixpoint decode_codes (bs : list N) : option pystr :=
  match bs with
  | [] => Some []
  | b0 :: t =>
      if N.ltb b0 128 then push b0 (decode_codes t)
      else if N.leb 194 b0 && N.leb b0 223 then
        match t with
        | b1 :: t1 =>
            if is_cont b1
            then push ((b0 - 192) * 64 + (b1 - 128))%N (decode_codes t1)
            else None
        | _ => None
        end
      else if N.leb 224 b0 && N.leb b0 239 then
        match t with
        | b1 :: b2 :: t2 =>
            let c := ((b0 - 224) * 4096 + (b1 - 128) * 64 + (b2 - 128))%N in
            if is_cont b1 && is_cont b2 && N.leb 2048 c && negb (is_surrogate c)
            then push c (decode_codes t2)
            else None
        | _ => None
        end
      else if N.leb 240 b0 && N.leb b0 244 then
        match t with
        | b1 :: b2 :: b3 :: t3 =>
            let c := ((b0 - 240) * 262144 + (b1 - 128) * 4096
                      + (b2 - 128) * 64 + (b3 - 128))%N in
            if is_cont b1 && is_cont b2 && is_cont b3
               && N.leb 65536 c && N.leb c 1114111
            then push c (decode_codes t3)
            else None
        | _ => None
        end
      else None
  end.

(** [bin_data.decode('utf-8')]: [None] where Python raises
    [UnicodeDecodeError]. *)
Definition utf8_decode (bin_data : list Byte.byte) : option pystr :=
  decode_codes (map Byte.to_N bin_data).

Definition encode_code (c : N) : option (list N) :=
  if N.ltb c 128 then Some [c]
  else if N.ltb c 2048 then Some [192 + c / 64; 128 + c mod 64]%N
  else if is_surrogate c then None
  else if N.ltb c 65536 then
    Some [224 + c / 4096; 128 + (c / 64) mod 64; 128 + c mod 64]%N
  else if N.leb c 1114111 then
    Some [240 + c / 262144; 128 + (c / 4096) mod 64;
          128 + (c / 64) mod 64; 128 + c mod 64]%N
  else None.

Fixpoint bytes_of_codes (l : list N) : option (list Byte.byte) :=
  match l with
  | [] => Some []
  | n :: l' =>
      match Byte.of_N n, bytes_of_codes l' with
      | Some b, Some bs => Some (b :: bs)
      | _, _ => None
      end
  end.

(** [text.encode('utf-8')]: [None] where Python raises
    [UnicodeEncodeError] (a lone surrogate). *)
Fixpoint utf8_encode (text : pystr) : option (list Byte.byte) :=
  match text with
  | [] => Some []
  | c :: t =>
      match encode_code c, utf8_encode t with
      | Some l, Some bs =>
          match bytes_of_codes l with
          | Some b => Some (b ++ bs)
          | None => None
          end
      | _, _ => None
      end
  end.

End Codec.
Import Codec.

(* ------------------------------------------------------------------ *)
(** ** The process: exceptions, files, counters, output *)

Module Runtime.
Section Runtime.
Context {PF : PyFloat}.

(** The argument of [sys.exit]. *)
Inductive exit_arg :=
| ExitCode (n : Z)
| ExitMessage (m : pystr).

(** The exceptions the script can meet. *)
Inductive exn :=
| SystemExit (a : exit_arg)
| UnicodeDecodeError
| JSONDecodeError
| UnicodeEncodeError
| OSError
| KeyError (k : pystr)
| TypeError
| AttributeError
| ValidationError (message : pystr)
| SchemaError (message : pystr).

(** [isinstance(e, ValueError)]. *)
Definition is_ValueError (e : exn) : bool :=
  match e with
  | UnicodeDecodeError | JSONDecodeError | UnicodeEncodeError => true
  | _ => false
  end.

(** [isinstance(e, IOError)]; [IOError] is [OSError]. *)
Definition is_IOError (e : exn) : bool :=
  match e with OSError => true | _ => false end.

Definition is_ValidationError (e : exn) : bool :=
  match e with ValidationError _ => true | _ => false end.

Definition is_SchemaError (e : exn) : bool :=
  match e with SchemaError _ => true | _ => false end.

(** The status the process ends with when [e] reaches the top level. *)
Definition exit_status (e : exn) : Z :=
  match e with
  | SystemExit (ExitCode n) => n
  | _ => 1%Z
  end.

Inductive node :=
| RegularFile (readable writable : bool) (content : list Byte.byte)
| Directory (readable : bool).

Definition filesystem := pystr -> option node.

(** What the run leaves behind, oldest first: the standard output, and the
    calls made to the schema engine. *)
Inductive event :=
| Stdout (text : pystr)                      (* sys.stdout.write(text) *)
| StdoutExn (e : exn)                        (* print(e) *)
| SchemaCheck (schema : json)                (* Draft4Validator.check_schema(schema) *)
| Validate (instance schema : json).         (* jsonschema.validate(instance, schema) *)

Record state := mkState {
  formatting_errors : Z;
  validation_errors : Z;
  files : filesystem;
  trace : list event
}.

Inductive outcome (A : Type) :=
| Returns (a : A)
| Raises (e : exn).
Arguments Raises {A}.

(** A computation: from a state to what it returns or raises, and the
    state it leaves. *)
Definition M (A : Type) := state -> outcome A * state.

Definition ret {A} (a : A) : M A := fun st => (Returns a, st).

Definition bind {A B} (m : M A) (k : A -> M B) : M B :=
  fun st =>
    match m st with
    | (Returns a, st') => k a st'
    | (Raises e, st') => (Raises e, st')
    end.

Definition raise {A} (e : exn) : M A := fun st => (Raises e, st).

(** [try: body / except <class> as e: handler e]. *)
Definition try_except {A} (body : M A) (caught : exn -> bool) (handler : exn -> M A) : M A :=
  fun st =>
    match body st with
    | (Returns a, st') => (Returns a, st')
    | (Raises e, st') => if caught e then handler e st' else (Raises e, st')
    end.

Definition get : M state := fun st => (Returns st, st).

Definition emit (ev : event) : M unit :=
  fun st => (Returns tt,
             mkState (formatting_errors st) (validation_errors st) (files st)
                     (trace st ++ [ev])).

Definition stdout_write (text : pystr) : M unit := emit (Stdout text).

(** [print(e)]. *)
Definition print_exn (e : exn) : M unit := emit (StdoutExn e).

(** [formatting_errors += 1]. *)
Definition incr_formatting_errors : M unit :=
  fun st => (Returns tt,
             mkState (formatting_errors st + 1) (validation_errors st) (files st)
                     (trace st)).

(** [validation_errors += 1]. *)
Definition incr_validation_errors : M unit :=
  fun st => (Returns tt,
             mkState (formatting_errors st) (validation_errors st + 1) (files st)
                     (trace st)).

Definition reset_counters : M unit :=
  fun st => (Returns tt, mkState 0 0 (files st) (trace st)).

Definition set_file (fs : filesystem) (path : pystr) (n : node) : filesystem :=
  fun p => if str_eqb p path then Some n else fs p.

Definition put_files (fs : filesystem) : M unit :=
  fun st => (Returns tt,
             mkState (formatting_errors st) (validation_errors st) fs (trace st)).

(** [with open(path, 'rb') as f: f.read()]. *)
Definition read_file (path : pystr) : M (list Byte.byte) :=
  fun st =>
    match files st path with
    | Some (RegularFile true _ content) => (Returns content, st)
    | _ => (Raises OSError, st)
    end.

(** [open(path, 'wb')]: the file is truncated.  The script opens for
    writing only a path it has just read. *)
Definition open_wb (path : pystr) : M unit :=
  fun st =>
    match files st path with
    | Some (RegularFile r true _) =>
        put_files (set_file (files st) path (RegularFile r true [])) st
    | _ => (Raises OSError, st)
    end.

(** [json_file.write(data)] on the file just opened. *)
Definition file_write (path : pystr) (data : list Byte.byte) : M unit :=
  fun st =>
    match files st path with
    | Some (RegularFile r w _) =>
        put_files (set_file (files st) path (RegularFile r w data)) st
    | _ => (Raises OSError, st)
    end.

Definition isdir (fs : filesystem) (path : pystr) : bool :=
  match fs path with Some (Directory _) => true | _ => false end.

Definition isfile (fs : filesystem) (path : pystr) : bool :=
  match fs path with Some (RegularFile _ _ _) => true | _ => false end.

(** [os.access(path, os.R_OK)]. *)
Definition access_R_OK (fs : filesystem) (path : pystr) : bool :=
  match fs path with
  | Some (RegularFile r _ _) => r
  | Some (Directory r) => r
  | None => false
  end.

(** [os.path.join(a, b)]. *)
Definition path_join (a b : pystr) : pystr :=
  match b with
  | 47%N :: _ => b
  | _ =>
      match a with
      | [] => b
      | _ => if N.eqb (last a 0%N) 47 then a ++ b else a ++ 47%N :: b
      end
  end.

(** [v[key]] for a [str] key. *)
Definition py_getitem (v : json) (key : pystr) : M json :=
  match v with
  | JObj members =>
      match lookup key members with
      | Some x => ret x
      | None => raise (KeyError key)
      end
  | _ => raise TypeError
  end.

(** [v.get(key)]. *)
Definition py_get (v : json) (key : pystr) : M json :=
  match v with
  | JObj members =>
      match lookup key members with
      | Some x => ret x
      | None => ret JNull
      end
  | _ => raise AttributeError
  end.

(** The items a [for] loop over [v] visits. *)
Definition py_iter (v : json) : M (list json) :=
  match v with
  | JList items => ret items
  | JObj members => ret (map (fun kv => JStr (fst kv)) members)
  | JStr s => ret (map (fun c => JStr [c]) s)
  | _ => raise TypeError
  end.

Fixpoint for_each {A} (l : list A) (body : A -> M unit) : M unit :=
  match l with
  | [] => ret tt
  | x :: l' => bind (body x) (fun _ => for_each l' body)
  end.

(** A [for] loop that updates one local variable. *)
Fixpoint for_fold {A B} (l : list A) (acc : B) (body : B -> A -> M B) : M B :=
  match l with
  | [] => ret acc
  | x :: l' => bind (body acc x) (fun acc' => for_fold l' acc' body)
  end.

End Runtime.
Arguments Raises {A} e.
End Runtime.
Import Runtime.

Declare Scope py_scope.
Delimit Scope py_scope with py.
Notation "x <- m ;; k" := (bind m (fun x => k))
  (at level 61, m at next level, right associativity) : py_scope.
Notation "m ;; k" := (bind m (fun _ => k))
  (at level 61, right associativity) : py_scope.

(* ------------------------------------------------------------------ *)
(** ** validate.py *)

(** What the script takes from outside: the [jsonschema] engine, as the
    text of the error it raises ([None] when it raises nothing), and the
    built-in [str()], which [%s] and [str.format] apply to a document. *)
Class Host {PF : PyFloat} := {
  check_schema : json -> option pystr;       (* Draft4Validator.check_schema(schema) *)
  validate : json -> json -> option pystr;   (* jsonschema.validate(instance, schema) *)
  py_str : json -> pystr                     (* str(v) *)
}.

Module Script.
Section Script.
Context {PF : PyFloat} {H : Host}.
Local Open Scope py_scope.

(** The namespace [argparse] returns, and the one [parse_commandline]
    returns, where the two optional paths are set. *)
Record RawNamespace := {
  raw_fix_formatting : bool;
  raw_verbose : nat;
  raw_base_path : pystr;
  raw_pack_path : option pystr;
  raw_schema_path : option pystr
}.

Record Namespace := {
  fix_formatting : bool;
  verbose : nat;
  base_path : pystr;
  pack_path : pystr;
  schema_path : pystr
}.

Definition PACK_DIR : pystr := lit "pack".
Definition SCHEMA_DIR : pystr := lit "schema".

(** A text that ends with a newline. *)
Definition line (s : string) : pystr := lit s ++ [NL].

Definition sys_exit {A} (a : exit_arg) : M A := raise (SystemExit a).

Definition verbose_print (args : Namespace) (text : pystr) (minimum_verbosity : nat)
  : M unit :=
  if Nat.leb minimum_verbosity (verbose args) then stdout_write text else ret tt.

Definition check_dir_access (path : pystr) : M unit :=
  st <- get ;;
  if negb (isdir (files st) path) then
    sys_exit (ExitMessage (path ++ lit " is not a valid path"))
  else if access_R_OK (files st) path then ret tt
  else sys_exit (ExitMessage (lit "%s is not a readable directory")).

Definition check_file_access (path : pystr) : M unit :=
  st <- get ;;
  if negb (isfile (files st) path) then
    sys_exit (ExitMessage (path ++ lit " does not exist"))
  else if access_R_OK (files st) path then ret tt
  else sys_exit (ExitMessage (lit "%s is not a readable file")).

(** [jsonschema.Draft4Validator.check_schema(data)]. *)
Definition Draft4Validator_check_schema (data : json) : M unit :=
  emit (SchemaCheck data) ;;
  match check_schema data with
  | None => ret tt
  | Some m => raise (SchemaError m)
  end.

(** [jsonschema.validate(instance, schema)]. *)
Definition jsonschema_validate (instance schema : json) : M unit :=
  emit (Validate instance schema) ;;
  match validate instance schema with
  | None => ret tt
  | Some m => raise (ValidationError m)
  end.

Definition check_json_schema (args : Namespace) (data : json) (path : pystr) : M bool :=
  try_except
    (Draft4Validator_check_schema data ;;
     ret true)
    is_SchemaError
    (fun e =>
       verbose_print args
         (path ++ lit ": Schema file is not valid Draft 4 JSON schema." ++ [NL]) 0 ;;
       incr_validation_errors ;;
       print_exn e ;;
       ret false).

Definition py_ne (a b : json) : bool := negb (py_eq a b).

Definition custom_card_check (args : Namespace) (card pack_code : json) : M unit :=
  card_pack_code <- py_getitem card (lit "pack_code") ;;
  if py_ne card_pack_code pack_code then
    a <- py_getitem card (lit "pack_code") ;;
    b <- py_getitem card (lit "code") ;;
    raise (ValidationError
             (lit "Pack code '" ++ py_str a ++ lit "' of the card '" ++ py_str b
              ++ lit "' doesn't match the pack code '" ++ py_str pack_code
              ++ lit "' of the file it appears in."))
  else ret tt.

(** [[c['code'] for c in cycles_data]]. *)
Fixpoint codes_of (cycles : list json) : M (list json) :=
  match cycles with
  | [] => ret []
  | c :: cs =>
      x <- py_getitem c (lit "code") ;;
      xs <- codes_of cs ;;
      ret (x :: xs)
  end.

Definition custom_pack_check (args : Namespace) (pack cycles_data : json) : M unit :=
  cycle_code <- py_getitem pack (lit "cycle_code") ;;
  cycles <- py_iter cycles_data ;;
  codes <- codes_of cycles ;;
  if negb (existsb (py_eq cycle_code) codes) then
    a <- py_getitem pack (lit "cycle_code") ;;
    b <- py_getitem pack (lit "code") ;;
    raise (ValidationError
             (lit "Cycle code '" ++ py_str a ++ lit "' of the pack '" ++ py_str b
              ++ lit "' doesn't match any valid cycle code."))
  else ret tt.

(** [bin_data.decode('utf-8')] and [json.loads(raw_data)] as computations. *)
Definition decode_utf8 (bin_data : list Byte.byte) : M pystr :=
  match utf8_decode bin_data with
  | Some s => ret s
  | None => raise UnicodeDecodeError
  end.

Definition json_loads (raw_data : pystr) : M json :=
  match loads raw_data with
  | Some v => ret v
  | None => raise JSONDecodeError
  end.

Definition encode_utf8 (text : pystr) : M (list Byte.byte) :=
  match utf8_encode text with
  | Some b => ret b
  | None => raise UnicodeEncodeError
  end.

Definition load_json_file (args : Namespace) (path : pystr) : M json :=
  loaded <-
    try_except
      (bin_data <- read_file path ;;
       raw_data <- decode_utf8 bin_data ;;
       json_data <- json_loads raw_data ;;
       ret (Some (raw_data, json_data)))
      is_ValueError
      (fun e =>
         verbose_print args (path ++ lit ": File is not valid JSON." ++ [NL]) 0 ;;
         incr_validation_errors ;;
         print_exn e ;;
         ret None) ;;
  match loaded with
  | None => ret JNull
  | Some (raw_data, json_data) =>
      verbose_print args (path ++ lit ": Checking JSON formatting..." ++ [NL]) 1 ;;
      let formatted_raw_data := format_json json_data in
      (if negb (str_eqb formatted_raw_data raw_data) then
         verbose_print args
           (path ++ lit ": File is not correctly formatted JSON." ++ [NL]) 0 ;;
         incr_formatting_errors ;;
         if fix_formatting args && Nat.ltb 0 (List.length formatted_raw_data) then
           verbose_print args (path ++ lit ": Fixing JSON formatting..." ++ [NL]) 0 ;;
           try_except
             (open_wb path ;;
              bin_formatted_data <- encode_utf8 formatted_raw_data ;;
              file_write path bin_formatted_data)
             is_IOError
             (fun e =>
                verbose_print args (path ++ lit ": Cannot open file to write." ++ [NL]) 0 ;;
                print_exn e)
         else ret tt
       else ret tt) ;;
      ret json_data
  end.

Definition validate_card (args : Namespace) (card card_schema pack_code : json) : M unit :=
  try_except
    (name <- py_getitem card (lit "name") ;;
     verbose_print args (lit "Validating card " ++ py_str name ++ lit "... ") 2 ;;
     jsonschema_validate card card_schema ;;
     custom_card_check args card pack_code ;;
     verbose_print args (line "OK") 2)
    is_ValidationError
    (fun e =>
       verbose_print args (line "ERROR") 2 ;;
       code <- py_get card (lit "code") ;;
       name <- py_get card (lit "name") ;;
       verbose_print args
         (lit "Validation error in card: (pack code: '" ++ py_str pack_code
          ++ lit "' card code: '" ++ py_str code
          ++ lit "' name: '" ++ py_str name ++ lit "')" ++ [NL]) 0 ;;
       incr_validation_errors ;;
       print_exn e).

Definition validate_cards (args : Namespace) (packs_data : json) : M unit :=
  let card_schema_path := path_join (schema_path args) (lit "card_schema.json") in
  CARD_SCHEMA <- load_json_file args card_schema_path ;;
  if negb (py_truthy CARD_SCHEMA) then ret tt else
  ok <- check_json_schema args CARD_SCHEMA card_schema_path ;;
  if negb ok then ret tt else
  packs <- py_iter packs_data ;;
  for_each packs (fun p =>
    name <- py_getitem p (lit "name") ;;
    verbose_print args (lit "Validating cards from " ++ py_str name ++ lit "..." ++ [NL]) 1 ;;
    code <- py_getitem p (lit "code") ;;
    let pack_path := path_join (pack_path args) (py_str code ++ lit ".json") in
    pack_data <- load_json_file args pack_path ;;
    if negb (py_truthy pack_data) then ret tt else
    cards <- py_iter pack_data ;;
    for_each cards (fun card =>
      code <- py_getitem p (lit "code") ;;
      validate_card args card CARD_SCHEMA code)).

(** The body of the loop of [validate_cycles]; it returns the new value of
    [retval]. *)
Definition validate_cycle (args : Namespace) (CYCLE_SCHEMA : json) (retval : bool) (c : json)
  : M bool :=
  try_except
    (name <- py_get c (lit "name") ;;
     verbose_print args (lit "Validating cycle " ++ py_str name ++ lit "... ") 2 ;;
     jsonschema_validate c CYCLE_SCHEMA ;;
     verbose_print args (line "OK") 2 ;;
     ret retval)
    is_ValidationError
    (fun e =>
       verbose_print args (line "ERROR") 2 ;;
       code <- py_get c (lit "code") ;;
       name <- py_get c (lit "name") ;;
       verbose_print args
         (lit "Validation error in cycle: (code: '" ++ py_str code
          ++ lit "' name: '" ++ py_str name ++ lit "')" ++ [NL]) 0 ;;
       incr_validation_errors ;;
       print_exn e ;;
       ret false).

Definition validate_cycles (args : Namespace) (cycles_data : json) : M bool :=
  verbose_print args (line "Validating cycle index file...") 1 ;;
  let cycle_schema_path := path_join (schema_path args) (lit "cycle_schema.json") in
  CYCLE_SCHEMA <- load_json_file args cycle_schema_path ;;
  if negb (is_list cycles_data) then
    verbose_print args (line "Insides of cycle index file are not a list!") 0 ;;
    ret false
  else if negb (py_truthy CYCLE_SCHEMA) then ret false
  else
    ok <- check_json_schema args CYCLE_SCHEMA cycle_schema_path ;;
    if negb ok then ret false
    else
      cycles <- py_iter cycles_data ;;
      for_fold cycles true (validate_cycle args CYCLE_SCHEMA).

(** The body of the loop of [validate_packs]. *)
Definition validate_pack (args : Namespace) (PACK_SCHEMA cycles_data : json)
    (retval : bool) (p : json) : M bool :=
  try_except
    (name <- py_get p (lit "name") ;;
     verbose_print args (lit "Validating pack " ++ py_str name ++ lit "... ") 2 ;;
     jsonschema_validate p PACK_SCHEMA ;;
     custom_pack_check args p cycles_data ;;
     verbose_print args (line "OK") 2 ;;
     ret retval)
    is_ValidationError
    (fun e =>
       verbose_print args (line "ERROR") 2 ;;
       code <- py_get p (lit "code") ;;
       name <- py_get p (lit "name") ;;
       verbose_print args
         (lit "Validation error in pack: (code: '" ++ py_str code
          ++ lit "' name: '" ++ py_str name ++ lit "')" ++ [NL]) 0 ;;
       incr_validation_errors ;;
       print_exn e ;;
       ret false).

Definition validate_packs (args : Namespace) (packs_data cycles_data : json) : M bool :=
  verbose_print args (line "Validating pack index file...") 1 ;;
  let pack_schema_path := path_join (schema_path args) (lit "pack_schema.json") in
  PACK_SCHEMA <- load_json_file args pack_schema_path ;;
  if negb (is_list packs_data) then
    verbose_print args (line "Insides of pack index file are not a list!") 0 ;;
    ret false
  else if negb (py_truthy PACK_SCHEMA) then ret false
  else
    ok <- check_json_schema args PACK_SCHEMA pack_schema_path ;;
    if negb ok then ret false
    else
      packs <- py_iter packs_data ;;
      for_fold packs true (validate_pack args PACK_SCHEMA cycles_data).

Definition load_cycles (args : Namespace) : M json :=
  verbose_print args (line "Loading cycle index file...") 1 ;;
  let cycles_path := path_join (base_path args) (lit "cycles.json") in
  cycles_data <- load_json_file args cycles_path ;;
  ok <- validate_cycles args cycles_data ;;
  if negb ok then ret JNull
  else ret cycles_data.

Definition load_pack_index (args : Namespace) (cycles_data : json) : M json :=
  verbose_print args (line "Loading pack index file...") 1 ;;
  let packs_path := path_join (base_path args) (lit "packs.json") in
  packs_data <- load_json_file args packs_path ;;
  ok <- validate_packs args packs_data cycles_data ;;
  if negb ok then ret JNull
  else
    packs <- py_iter packs_data ;;
    for_each packs (fun p =>
      code <- py_getitem p (lit "code") ;;
      let pack_filename := py_str code ++ lit ".json" in
      let pack_path := path_join (pack_path args) pack_filename in
      check_file_access pack_path) ;;
    ret packs_data.

(** [parse_commandline], from the namespace [argparse] built. *)
Definition parse_commandline (raw : RawNamespace) : M Namespace :=
  let schema_path :=
    match raw_schema_path raw with
    | None => path_join (raw_base_path raw) SCHEMA_DIR
    | Some p => p
    end in
  let pack_path :=
    match raw_pack_path raw with
    | None => path_join (raw_base_path raw) PACK_DIR
    | Some p => p
    end in
  check_dir_access (raw_base_path raw) ;;
  check_dir_access schema_path ;;
  check_dir_access pack_path ;;
  ret (Build_Namespace (raw_fix_formatting raw) (raw_verbose raw)
         (raw_base_path raw) pack_path schema_path).

(** The summary line of [main]. *)
Definition summary (formatting validation : Z) : pystr :=
  lit "Found " ++ int_repr formatting ++ lit " formatting and "
    ++ int_repr validation ++ lit " validation errors" ++ [NL].

(** [main] up to the summary: the three stages. *)
Definition main_stages (raw : RawNamespace) : M unit :=
  reset_counters ;;
  args <- parse_commandline raw ;;
  cycles <- load_cycles args ;;
  packs <- load_pack_index args cycles ;;
  if py_truthy packs then validate_cards args packs
  else verbose_print args
         (line "Couldn't open packs file correctly, skipping card validation...") 0.

(** The end of [main]: the summary line, then [sys.exit]. *)
Definition main_report : M unit :=
  st <- get ;;
  stdout_write (summary (formatting_errors st) (validation_errors st)) ;;
  st <- get ;;
  if Z.eqb (formatting_errors st) 0 && Z.eqb (validation_errors st) 0
  then sys_exit (ExitCode 0)
  else sys_exit (ExitCode 1).

Definition main (raw : RawNamespace) : M unit :=
  main_stages raw ;;
  main_report.

End Script.
End Script.
Import Script.

(* ------------------------------------------------------------------ *)
(** ** What the formatter needs from [float] *)

Section FloatLaws.
Context {PF : PyFloat}.

(** [NUMBER_RE] matches the whole of [t], with a fraction or an exponent. *)
Definition is_float_literal (t : pystr) : bool :=
  match match_number t with
  | Some (_, frac, exp, []) =>
      match frac, exp with
      | [], [] => false
      | _, _ => true
      end
  | _ => false
  end.

Definition is_float_constant (t : pystr) : bool :=
  str_eqb t (lit "NaN") || str_eqb t (lit "Infinity") || str_eqb t (lit "-Infinity").

(** The text [json.dumps] writes for a float is one of the three constants
    or a number literal with a fraction or an exponent, and reading it with
    [float()] gives a float that is written the same way
    ([float(repr(x)) == x] in Python). *)
Record FloatRoundTrip : Prop := {
  floatstr_token : forall f,
    is_float_constant (floatstr f) || is_float_literal (floatstr f) = true;
  floatstr_literal : forall f,
    is_float_literal (floatstr f) = true ->
    floatstr (py_float (floatstr f)) = floatstr f;
  floatstr_nan : floatstr (py_float (lit "nan")) = lit "NaN";
  floatstr_inf : floatstr (py_float (lit "inf")) = lit "Infinity";
  floatstr_neginf : floatstr (py_float (lit "-inf")) = lit "-Infinity"
}.

End FloatLaws.

(* ------------------------------------------------------------------ *)
(** ** A sample host, for running the script on concrete inputs *)

Module Sample.
Local Open Scope string_scope.
Local Open Scope list_scope.

(** Four floats: nan, inf, -inf and 0.5. *)
Inductive float4 := FNaN | FInf | FNegInf | FHalf.

Definition float4_str (f : float4) : pystr :=
  match f with
  | FNaN => lit "NaN"
  | FInf => lit "Infinity"
  | FNegInf => lit "-Infinity"
  | FHalf => lit "0.5"
  end.

Definition float4_of (t : pystr) : float4 :=
  if str_eqb t (lit "nan") then FNaN
  else if str_eqb t (lit "inf") then FInf
  else if str_eqb t (lit "-inf") then FNegInf
  else FHalf.

Definition float4_eqb (f g : float4) : bool :=
  match f, g with
  | FInf, FInf | FNegInf, FNegInf | FHalf, FHalf => true
  | _, _ => false
  end.

#[export] Instance Float4 : PyFloat := {
  pyfloat := float4;
  floatstr := float4_str;
  py_float := float4_of;
  float_eqb := float4_eqb;
  float_eq_int := fun _ _ => false
}.

(** The names a schema lists under [required], when it is a list of
    strings. *)
Fixpoint required_names (l : list json) : option (list pystr) :=
  match l with
  | [] => Some []
  | JStr s :: l' =>
      match required_names l' with
      | Some names => Some (s :: names)
      | None => None
      end
  | _ :: _ => None
  end.

(** A fragment of Draft 4: a schema is an object whose [required], when
    present, is a list of strings. *)
Definition sample_check_schema (schema : json) : option pystr :=
  match schema with
  | JObj members =>
      match lookup (lit "required") members with
      | None => None
      | Some (JList l) =>
          match required_names l with
          | Some _ => None
          | None => Some (lit "required: not a list of strings")
          end
      | Some _ => Some (lit "required: not a list of strings")
      end
  | _ => Some (lit "schema: not an object")
  end.

(** An instance conforms when it is an object that has every required
    property. *)
Definition sample_validate (instance schema : json) : option pystr :=
  match instance with
  | JObj members =>
      match schema with
      | JObj smembers =>
          match lookup (lit "required") smembers with
          | Some (JList l) =>
              match required_names l with
              | Some names =>
                  match find (fun k => match lookup k members with
                                       | None => true
                                       | Some _ => false
                                       end) names with
                  | Some k => Some (lit "'" ++ k ++ lit "' is a required property")
                  | None => None
                  end
              | None => None
              end
          | _ => None
          end
      | _ => None
      end
  | _ => Some (lit "instance is not of type 'object'")
  end.

(** [str()] on the scalars that have a short form. *)
Definition sample_str (v : json) : pystr :=
  match v with
  | JStr s => s
  | JInt z => int_repr z
  | JNull => lit "None"
  | JBool true => lit "True"
  | JBool false => lit "False"
  | JFloat f => float4_str f
  | JList _ => lit "[...]"
  | JObj _ => lit "{...}"
  end.

#[export] Instance SampleHost : Host := {
  check_schema := sample_check_schema;
  validate := sample_validate;
  py_str := sample_str
}.

(** The bytes of a text that has no lone surrogate. *)
Definition bytes_of (text : pystr) : list Byte.byte :=
  match utf8_encode text with
  | Some b => b
  | None => []
  end.

(** A file tree given as a list of paths and nodes. *)
Fixpoint tree (l : list (pystr * node)) : filesystem :=
  match l with
  | [] => fun _ => None
  | (p, n) :: l' => set_file (tree l') p n
  end.

Definition file (text : pystr) : node := RegularFile true true (bytes_of text).

Definition obj (l : list (string * json)) : json :=
  JObj (map (fun kv => (lit (fst kv), snd kv)) l).

Definition str (s : string) : json := JStr (lit s).

Definition schema_of (names : list string) : json :=
  obj [("required", JList (map str names))].

Definition cycle_schema := schema_of ["code"; "name"].
Definition pack_schema := schema_of ["code"; "cycle_code"; "name"].
Definition card_schema := schema_of ["code"; "name"; "pack_code"].

Definition core_cycle := obj [("code", str "core"); ("name", str "Core Set")].
Definition core_pack :=
  obj [("code", str "core"); ("cycle_code", str "core"); ("name", str "Core Set")].
Definition core_card :=
  obj [("code", str "01001"); ("name", str "Eddard Stark"); ("pack_code", str "core")].

(** A repository tree, from the texts of the three schema files and of
    the three data files. *)
Definition repo_with (cycle_s pack_s card_s cycles packs cards : pystr) : filesystem :=
  tree [ (lit "repo", Directory true);
         (lit "repo/schema", Directory true);
         (lit "repo/pack", Directory true);
         (lit "repo/schema/cycle_schema.json", file cycle_s);
         (lit "repo/schema/pack_schema.json", file pack_s);
         (lit "repo/schema/card_schema.json", file card_s);
         (lit "repo/cycles.json", file cycles);
         (lit "repo/packs.json", file packs);
         (lit "repo/pack/core.json", file cards) ].

(** The tree of the end-to-end scenario, with given texts for the three
    data files. *)
Definition repo (cycles packs cards : pystr) : filesystem :=
  repo_with (format_json cycle_schema) (format_json pack_schema)
            (format_json card_schema) cycles packs cards.

Definition raw_args (fix_mode : bool) (verbosity : nat) : RawNamespace :=
  Build_RawNamespace fix_mode verbosity (lit "repo") None None.

Definition args (fix_mode : bool) (verbosity : nat) : Namespace :=
  Build_Namespace fix_mode verbosity (lit "repo") (lit "repo/pack") (lit "repo/schema").

Definition start (fs : filesystem) : state := mkState 0 0 fs [].

(** The standard output of a trace. *)
Definition stdout_of (tr : list event) : list pystr :=
  flat_map (fun ev => match ev with Stdout t => [t] | _ => [] end) tr.

(** The same text with every indentation halved: what
    [json.dumps(..., indent=2)] writes. *)
Fixpoint halve_indent (at_start : bool) (s : pystr) : pystr :=
  match s with
  | [] => []
  | c :: t =>
      if at_start && N.eqb c SPACE then
        match t with
        | c' :: t' =>
            if N.eqb c' SPACE then SPACE :: halve_indent true t'
            else c :: halve_indent false t
        | [] => [c]
        end
      else c :: halve_indent (N.eqb c NL) t
  end.

Definition cycles_text := format_json (JList [core_cycle]).
Definition packs_text := format_json (JList [core_pack]).
Definition cards_text := format_json (JList [core_card]).



(** A pack schema that is an object, hence truthy, and not a valid schema:
    [required] is not a list. *)
Definition broken_schema := obj [("required", str "code")].

Definition broken_pack_schema_repo : filesystem :=
  repo_with (format_json cycle_schema) (format_json broken_schema)
            (format_json card_schema) cycles_text packs_text cards_text.



Definition empty_schema_text : pystr := lit "{}" ++ [NL].

Definition sample_document : json :=
  obj [("name", str "Eddard Stark");
       ("cost", JInt 7);
       ("strength", JFloat FHalf);
       ("traits", JList [str "Lord"; JNull; JBool true; JInt (-3)]);
       ("a", obj [("z", JList []); ("b", JObj [])])].

Definition core_pack_members : list (pystr * json) :=
  [(lit "code", str "core"); (lit "cycle_code", str "core");
   (lit "name", str "Core Set")].


(** A second pack of the core cycle, for which the samples hold no file. *)
Definition second_pack_members : list (pystr * json) :=
  [(lit "code", str "wotn"); (lit "cycle_code", str "core");
   (lit "name", str "Wolves of the North")].

Definition two_packs_text : pystr :=
  format_json (JList [JObj core_pack_members; JObj second_pack_members]).





(** The three directories, and no file. *)
Definition bare_repo : filesystem :=
  tree [ (lit "repo", Directory true);
         (lit "repo/schema", Directory true);
         (lit "repo/pack", Directory true) ].

End Sample.

(* ------------------------------------------------------------------ *)
(** ** Vocabulary of the statements *)

Section Vocabulary.
Context {PF : PyFloat} {H : Host}.

(** What a run adds to the trace is standard output only: no call to the
    schema engine. *)
Definition only_stdout (evs : list event) : Prop :=
  Forall (fun ev => match ev with
                    | Stdout _ | StdoutExn _ => True
                    | _ => False
                    end) evs.

(** What [verbose_print] writes. *)
Definition printed (args : Namespace) (text : pystr) (level : nat) : list event :=
  if Nat.leb level (verbose args) then [Stdout text] else [].

(** The rewrite of a badly formatted file cannot raise: the fix mode is
    off, or the file cannot be opened for writing (an [IOError], which the
    loader reports), or the canonical text has a UTF-8 encoding. *)
Definition rewrite_ok (args : Namespace) (writable : bool) (v : json) : Prop :=
  fix_formatting args = false \/ writable = false
  \/ utf8_encode (format_json v) <> None.

(** A stage that only loads its schema, from a file that holds the text
    [raw] of the document [schema], and returns [result]: a formatting
    defect when the text is not canonical, no validation defect, and no
    call to the engine. *)
Definition returns_at_once {A} (stage : M A) (result : A)
    (schema : json) (raw : pystr) (st : state) : Prop :=
  exists fs evs,
    stage st
    = (Returns result,
       mkState (formatting_errors st
                + (if str_eqb (format_json schema) raw then 0 else 1))
               (validation_errors st) fs (trace st ++ evs))
    /\ only_stdout evs.

(** [d.get(key)] on the members of an object. *)
Definition field (members : list (pystr * json)) (key : pystr) : json :=
  match lookup key members with
  | Some x => x
  | None => JNull
  end.



(** What follows a value in a canonical text: a comma or a newline. *)
Definition closes (rest : pystr) : Prop :=
  match rest with
  | [] => True
  | c :: _ => c = 44%N \/ c = 10%N
  end.

(** The first character of a number: a minus sign or a digit. *)
Definition number_start (c : N) : Prop := c = 45%N \/ is_digit c = true.

(** The first character of a value in a canonical text: no whitespace, no
    closing bracket, no byte order mark. *)
Definition value_head (s : pystr) : Prop :=
  exists c t, s = c :: t
    /\ is_ws c = false /\ N.eqb c 93 = false /\ N.eqb c 65279 = false.

(** Keys in non-decreasing order. *)
Inductive key_sorted {A : Type} : list (pystr * A) -> Prop :=
| key_sorted_nil : key_sorted []
| key_sorted_one kv : key_sorted [kv]
| key_sorted_cons kv kv' l :
    str_ltb (fst kv') (fst kv) = false ->
    key_sorted (kv' :: l) ->
    key_sorted (kv :: kv' :: l).

(** The float [json.loads] builds from the text [json.dumps] wrote for
    [f]. *)
Definition refloat (f : pyfloat) : pyfloat :=
  let t := floatstr f in
  if is_float_literal t then py_float t
  else if str_eqb t (lit "NaN") then py_float (lit "nan")
  else if str_eqb t (lit "Infinity") then py_float (lit "inf")
  else py_float (lit "-inf").

(** The document [json.loads] builds from the canonical text of [v]: the
    items of every dict come in the order of their keys. *)
Fixpoint norm (v : json) : json :=
  match v with
  | JFloat f => JFloat (refloat f)
  | JList items => JList (map norm items)
  | JObj members =>
      JObj (sort_items (map (fun kv => (fst kv, norm (snd kv))) members))
  | _ => v
  end.

(** The number of values in a document. *)
Fixpoint json_size (v : json) : nat :=
  match v with
  | JList items => S (list_sum (map json_size items))
  | JObj members => S (list_sum (map (fun kv => json_size (snd kv)) members))
  | _ => 1
  end.

(** The chunks of a container after the first one, up to the closing
    text. *)
Fixpoint chunks_tail (sep : pystr) (chunks : list pystr) (close : pystr) : pystr :=
  match chunks with
  | [] => close
  | c :: cs => sep ++ c ++ chunks_tail sep cs close
  end.

(** The text of one item of a dict: the key, a colon and a space, the
    value. *)
Definition item_text (level : nat) (kv : pystr * json) : pystr :=
  encode_basestring (fst kv) ++ lit ": " ++ encode (S level) (snd kv).

(** The text of a container, from the texts of its elements. *)
Definition list_text (level : nat) (chunks : list pystr) : pystr :=
  match chunks with
  | [] => lit "[]"
  | _ =>
      lit "[" ++ newline_indent (S level)
        ++ join_chunks (lit "," ++ newline_indent (S level)) chunks
        ++ newline_indent level ++ lit "]"
  end.

Definition obj_text (level : nat) (items : list (pystr * pystr)) : pystr :=
  match items with
  | [] => lit "{}"
  | _ =>
      lit "{" ++ newline_indent (S level)
        ++ join_chunks (lit "," ++ newline_indent (S level))
             (map (fun kv => encode_basestring (fst kv) ++ lit ": " ++ snd kv) items)
        ++ newline_indent level ++ lit "}"
  end.

End Vocabulary.

(* ------------------------------------------------------------------ *)
(** ** Vocabulary of the statements about whole stages and runs *)

Section RunVocabulary.
Context {PF : PyFloat} {H : Host}.
Local Open Scope Z_scope.

(** A file as the rest of the system sees it when the content of a
    writable file is left out. *)
Definition frozen (n : option node) : option node :=
  match n with
  | Some (RegularFile r true _) => Some (RegularFile r true [])
  | _ => n
  end.

(** What a step of the script may do to the process: the counters do not
    decrease, the output is only appended to, no file or directory is
    created, removed or has its permissions changed, only writable files
    change their content, and none does when the fix mode is off. *)
Definition extends (fm : bool) (st st' : state) : Prop :=
  formatting_errors st <= formatting_errors st'
  /\ validation_errors st <= validation_errors st'
  /\ (exists evs, trace st' = trace st ++ evs)
  /\ (forall p, frozen (files st' p) = frozen (files st p))
  /\ (fm = false -> files st' = files st).

(** An outcome other than [sys.exit(n)] with a status number. *)
Definition no_status {A} (o : outcome A) : Prop :=
  match o with
  | Raises (SystemExit (ExitCode _)) => False
  | _ => True
  end.

Definition steady {A} (fm : bool) (m : M A) : Prop :=
  forall st, extends fm st (snd (m st)) /\ no_status (fst (m st)).

(** A directory, or a regular file, that the process may read. *)
Definition readable_dir (fs : filesystem) (path : pystr) : bool :=
  isdir fs path && access_R_OK fs path.

Definition readable_file (fs : filesystem) (path : pystr) : bool :=
  isfile fs path && access_R_OK fs path.

(** The two optional paths of the command line, with their defaults. *)
Definition schema_dir (raw : RawNamespace) : pystr :=
  match raw_schema_path raw with
  | None => path_join (raw_base_path raw) SCHEMA_DIR
  | Some p => p
  end.

Definition pack_dir (raw : RawNamespace) : pystr :=
  match raw_pack_path raw with
  | None => path_join (raw_base_path raw) PACK_DIR
  | Some p => p
  end.



(** An object that has the key. *)
Definition has_key (members : list (pystr * json)) (key : pystr) : Prop :=
  lookup key members <> None.









(** The file of a pack, in the pack directory. *)
Definition pack_file (args : Namespace) (pack : list (pystr * json)) : pystr :=
  path_join (pack_path args) (py_str (field pack (lit "code")) ++ lit ".json").




(** The calls to the schema engine in a trace. *)
Definition engine_calls (tr : list event) : list event :=
  filter (fun ev => match ev with
                    | SchemaCheck _ | Validate _ _ => true
                    | _ => false
                    end) tr.

(** Two states that differ in what was written to the output only. *)
Definition agree (st st' : state) : Prop :=
  formatting_errors st = formatting_errors st'
  /\ validation_errors st = validation_errors st'
  /\ files st = files st'
  /\ engine_calls (trace st) = engine_calls (trace st').

(** Two computations that, from such states, end the same way and leave
    such states. *)
Definition alike {A} (m m' : M A) : Prop :=
  forall st st',
    agree st st' ->
    fst (m st) = fst (m' st') /\ agree (snd (m st)) (snd (m' st')).



End RunVocabulary.

(* ------------------------------------------------------------------ *)
(** * Properties *)

#[global] Arguments lit : simpl never.
#[global] Arguments line : simpl never.
#[global] Arguments verbose_print : simpl never.
#[global] Arguments format_json : simpl never.
#[global] Arguments path_join : simpl never.
#[global] Arguments Nat.ltb : simpl never.
#[global] Arguments Nat.leb : simpl never.

(** ** Text *)

Module TextFacts.

Lemma str_eqb_spec a b : str_eqb a b = true <-> a = b.
Proof.
  revert b; induction a as [|x a IH]; intros [|y b]; simpl; split;
    try congruence; try reflexivity.
  - intros H. apply andb_true_iff in H as [Hx Hab].
    apply N.eqb_eq in Hx. apply IH in Hab. congruence.
  - intros H. injection H as -> ->. rewrite N.eqb_refl. simpl. now apply IH.
Qed.

Lemma str_eqb_refl a : str_eqb a a = true.
Proof. now apply str_eqb_spec. Qed.


Lemma str_ltb_irrefl a : str_ltb a a = false.
Proof.
  induction a as [|x a IH]; simpl; [reflexivity|].
  rewrite N.ltb_irrefl, N.eqb_refl. exact IH.
Qed.

Lemma str_ltb_trans a b c :
  str_ltb a b = true -> str_ltb b c = true -> str_ltb a c = true.
Proof.
  revert b c; induction a as [|x a IH]; intros [|y b] [|z c]; simpl;
    try congruence.
  destruct (N.ltb_spec x y) as [Hxy|Hxy].
  - intros _. destruct (N.ltb_spec y z) as [Hyz|Hyz].
    + intros _. destruct (N.ltb_spec x z); [reflexivity|lia].
    + destruct (N.eqb_spec y z) as [->|]; [|congruence].
      intros _. destruct (N.ltb_spec x z); [reflexivity|lia].
  - destruct (N.eqb_spec x y) as [->|]; [|congruence].
    intros Hab. destruct (N.ltb_spec y z) as [Hyz|Hyz]; [reflexivity|].
    destruct (N.eqb_spec y z) as [->|]; [|congruence].
    intros Hbc. eapply IH; eassumption.
Qed.

Lemma str_ltb_total a b :
  str_ltb a b = false -> str_ltb b a = false -> a = b.
Proof.
  revert b; induction a as [|x a IH]; intros [|y b]; simpl;
    try congruence.
  destruct (N.ltb_spec x y) as [Hxy|Hxy]; [congruence|].
  destruct (N.ltb_spec y x) as [Hyx|Hyx].
  - destruct (N.eqb_spec x y) as [->|]; [lia|]. congruence.
  - assert (x = y) as -> by lia. rewrite N.eqb_refl.
    intros H1 H2. f_equal. now apply IH.
Qed.

End TextFacts.
Import TextFacts.

(** ** The loader *)

Section Loader.
Context {PF : PyFloat} {H : Host}.

Lemma verbose_print_eq (args : Namespace) text level st :
  verbose_print args text level st
  = (Returns tt, mkState (formatting_errors st) (validation_errors st)
                         (files st) (trace st ++ printed args text level)).
Proof.
  unfold verbose_print, printed.
  destruct (Nat.leb level (verbose args)); [reflexivity|].
  rewrite List.app_nil_r. destruct st; reflexivity.
Qed.

Lemma printed_only_stdout (args : Namespace) text level :
  only_stdout (printed args text level).
Proof.
  unfold printed. destruct (Nat.leb level (verbose args)); repeat constructor.
Qed.

Lemma verbose_print_run (args : Namespace) text level st :
  exists evs,
    verbose_print args text level st
    = (Returns tt, mkState (formatting_errors st) (validation_errors st)
                           (files st) (trace st ++ evs))
    /\ only_stdout evs.
Proof.
  unfold verbose_print.
  destruct (Nat.leb level (verbose args)).
  - exists [Stdout text]. split; [reflexivity|].
    constructor; [exact I|constructor].
  - exists []. rewrite app_nil_r. destruct st; split; [reflexivity|constructor].
Qed.

(** Verbosity is a count, so a message of level 0 is always written. *)
Lemma verbose_print_0 (args : Namespace) text st :
  verbose_print args text 0 st
  = (Returns tt, mkState (formatting_errors st) (validation_errors st)
                         (files st) (trace st ++ [Stdout text])).
Proof. reflexivity. Qed.


Lemma format_json_length v : Nat.ltb 0 (List.length (format_json v)) = true.
Proof.
  unfold format_json. rewrite length_app, Nat.add_comm. reflexivity.
Qed.

Lemma set_file_same fs path n : set_file fs path n path = Some n.
Proof. unfold set_file. now rewrite str_eqb_refl. Qed.

(** The loader on a file that parses: the document is returned, no
    validation defect is recorded, and one formatting defect is recorded
    exactly when the text is not the canonical one. *)
Lemma load_json_file_parsed (args : Namespace) path st w content raw v :
  files st path = Some (RegularFile true w content) ->
  utf8_decode content = Some raw ->
  loads raw = Some v ->
  rewrite_ok args w v ->
  exists fs evs,
    load_json_file args path st
    = (Returns v,
       mkState (formatting_errors st
                + (if str_eqb (format_json v) raw then 0 else 1))
               (validation_errors st) fs (trace st ++ evs))
    /\ only_stdout evs.
Proof.
  intros Hfile Hdec Hparse Hok.
  unfold load_json_file, bind, try_except, read_file, decode_utf8, json_loads.
  rewrite Hfile, Hdec. cbn. rewrite Hparse. cbn.
  destruct (verbose_print_run args
              (path ++ lit ": Checking JSON formatting..." ++ [NL]) 1 st)
    as (evs1 & -> & Hevs1).
  destruct (str_eqb (format_json v) raw) eqn:Hcanon; cbn.
  - exists (files st), evs1. rewrite Z.add_0_r. split; [reflexivity|assumption].
  - rewrite format_json_length, !verbose_print_0.
    destruct (fix_formatting args) eqn:Hfix; cbn.
    + rewrite !verbose_print_0. unfold open_wb, encode_utf8, file_write, put_files. cbn. rewrite Hfile.
      destruct w; cbn.
      * destruct (utf8_encode (format_json v)) as [bin|] eqn:Henc.
        -- cbn. rewrite set_file_same. cbn.
           eexists _, (evs1 ++ [_; _]).
           rewrite <- !app_assoc. split; [reflexivity|].
           apply Forall_app. split; [assumption|].
           repeat constructor.
        -- destruct Hok as [Hok | [Hok | Hok]]; congruence.
      * rewrite verbose_print_0. cbn.
        eexists _, (evs1 ++ [_; _; _; _]).
        rewrite <- !app_assoc. split; [reflexivity|].
        apply Forall_app. split; [assumption|].
        repeat constructor.
    + eexists _, (evs1 ++ [_]).
      rewrite <- !app_assoc. split; [reflexivity|].
      apply Forall_app. split; [assumption|].
      repeat constructor.
Qed.

End Loader.

#[global] Arguments load_json_file : simpl never.
#[global] Arguments py_get : simpl never.
#[global] Arguments py_getitem : simpl never.

(** ** The schema self-check and the loops over cycles and packs *)

Section Checks.
Context {PF : PyFloat} {H : Host}.

Lemma py_get_obj members key st :
  py_get (JObj members) key st
  = (Returns (match lookup key members with Some x => x | None => JNull end), st).
Proof. unfold py_get. destruct (lookup key members); reflexivity. Qed.

Lemma py_getitem_obj members key x st :
  lookup key members = Some x ->
  py_getitem (JObj members) key st = (Returns x, st).
Proof. intros Hk. unfold py_getitem. rewrite Hk. reflexivity. Qed.


Lemma check_json_schema_run (args : Namespace) data path st :
  check_json_schema args data path st
  = match check_schema data with
    | None =>
        (Returns true,
         mkState (formatting_errors st) (validation_errors st) (files st)
                 (trace st ++ [SchemaCheck data]))
    | Some m =>
        (Returns false,
         mkState (formatting_errors st) (validation_errors st + 1) (files st)
                 (trace st ++
                  [SchemaCheck data;
                   Stdout (path ++ lit ": Schema file is not valid Draft 4 JSON schema."
                           ++ [NL]);
                   StdoutExn (SchemaError m)]))
    end.
Proof.
  unfold check_json_schema, try_except, bind, Draft4Validator_check_schema, bind.
  cbn. destruct (check_schema data); cbn.
  - rewrite verbose_print_0. cbn. rewrite <- !app_assoc. reflexivity.
  - reflexivity.
Qed.


End Checks.

(** ** The stages *)

Section Stages.
Context {PF : PyFloat} {H : Host}.

(** With absent cycle data the cross-check never reports a violation: it
    raises an exception that no handler of the script catches. *)
Lemma custom_pack_check_absent_cycles (args : Namespace) pack st :
  exists e,
    custom_pack_check args pack JNull st = (Raises e, st)
    /\ is_ValidationError e = false.
Proof.
  unfold custom_pack_check, bind, py_getitem.
  destruct pack; try (exists TypeError; split; reflexivity).
  destruct (lookup (lit "cycle_code") members).
  - exists TypeError. split; reflexivity.
  - eexists (KeyError _). split; reflexivity.
Qed.

(** One turn of the loop of [validate_packs] on a pack the engine accepts,
    with absent cycle data: the exception leaves the loop. *)
Lemma validate_pack_absent_cycles (args : Namespace) schema retval members st :
  validate (JObj members) schema = None ->
  exists e st',
    validate_pack args schema JNull retval (JObj members) st = (Raises e, st')
    /\ is_ValidationError e = false
    /\ validation_errors st' = validation_errors st.
Proof.
  intros Hv.
  unfold validate_pack, try_except, bind, jsonschema_validate, bind, emit.
  rewrite py_get_obj, verbose_print_eq. cbn. rewrite Hv. cbn.
  match goal with |- context [custom_pack_check args ?p JNull ?s] =>
    destruct (custom_pack_check_absent_cycles args p s) as (e & -> & He)
  end.
  rewrite He. exists e. eexists. repeat split. exact He.
Qed.



Ltac load_parsed Hfile Hdec Hparse Hok :=
  match goal with
  | |- context [load_json_file ?a ?p ?s] =>
      let fs := fresh "fs" in
      let evs := fresh "evs" in
      let Hevs := fresh "Hevs" in
      destruct (load_json_file_parsed (args:=a) (path:=p) (st:=s) Hfile Hdec Hparse Hok)
        as (fs & evs & -> & Hevs)
  end.

Lemma only_stdout_app evs evs' :
  only_stdout evs -> only_stdout evs' -> only_stdout (evs ++ evs').
Proof. intros ? ?. apply Forall_app. now split. Qed.

Lemma only_stdout_no_validate evs instance schema :
  only_stdout evs -> ~ In (Validate instance schema) evs.
Proof.
  intros Hall Hin. unfold only_stdout in Hall. rewrite Forall_forall in Hall.
  exact (Hall _ Hin).
Qed.

Create HintDb stdout.
#[local] Hint Resolve printed_only_stdout only_stdout_app : stdout.

(** C7, as the code has it: when the pack index is a list and the pack
    schema document parses to a truthy value that is not a valid Draft-4
    schema, [validate_packs] records exactly one validation defect, for the
    schema, writes the diagnostic, calls the engine on no pack and returns
    [False] (the packs are not accepted). *)
Theorem invalid_pack_schema_one_defect
    (args : Namespace) st w content raw PACK_SCHEMA m packs cycles_data :
  files st (path_join (schema_path args) (lit "pack_schema.json"))
    = Some (RegularFile true w content) ->
  utf8_decode content = Some raw ->
  loads raw = Some PACK_SCHEMA ->
  rewrite_ok args w PACK_SCHEMA ->
  py_truthy PACK_SCHEMA = true ->
  check_schema PACK_SCHEMA = Some m ->
  exists fs evs,
    validate_packs args (JList packs) cycles_data st
    = (Returns false,
       mkState (formatting_errors st
                + (if str_eqb (format_json PACK_SCHEMA) raw then 0 else 1))
               (validation_errors st + 1) fs (trace st ++ evs))
    /\ (forall p s, ~ In (Validate p s) evs)
    /\ In (Stdout (path_join (schema_path args) (lit "pack_schema.json")
                   ++ lit ": Schema file is not valid Draft 4 JSON schema." ++ [NL]))
          evs
    /\ In (StdoutExn (SchemaError m)) evs.
Proof.
  intros Hfile Hdec Hparse Hok Htruthy Hbad.
  unfold validate_packs, bind.
  rewrite verbose_print_eq.
  load_parsed Hfile Hdec Hparse Hok.
  cbn. rewrite Htruthy. cbn.
  rewrite check_json_schema_run, Hbad. cbn.
  eexists _, _. rewrite <- !app_assoc. split; [reflexivity|].
  split; [|split].
  - intros p s Hin. rewrite !in_app_iff in Hin.
    destruct Hin as [Hin | [Hin | Hin]].
    + exact (only_stdout_no_validate (printed_only_stdout _ _ _) Hin).
    + exact (only_stdout_no_validate Hevs Hin).
    + cbn in Hin. intuition discriminate.
  - rewrite !in_app_iff. right. right. right. now left.
  - rewrite !in_app_iff. right. right. right. right. now left.
Qed.


(** C10: a schema document that parses to a falsy value is handled like a
    document that failed to load, in each of the three stages: the stage
    returns at once ([None] for the cards, [False] for the packs and the
    cycles), the engine is not called (neither the self-check nor any item
    validation), and no validation defect is recorded. *)
Theorem falsy_schema_skips_stage
    (args : Namespace) st w content raw schema data cycles_data :
  utf8_decode content = Some raw ->
  loads raw = Some schema ->
  rewrite_ok args w schema ->
  py_truthy schema = false ->
  (files st (path_join (schema_path args) (lit "card_schema.json"))
     = Some (RegularFile true w content) ->
   returns_at_once (validate_cards args data) tt schema raw st)
  /\ (files st (path_join (schema_path args) (lit "pack_schema.json"))
        = Some (RegularFile true w content) ->
      returns_at_once (validate_packs args data cycles_data) false schema raw st)
  /\ (files st (path_join (schema_path args) (lit "cycle_schema.json"))
        = Some (RegularFile true w content) ->
      returns_at_once (validate_cycles args data) false schema raw st).
Proof.
  intros Hdec Hparse Hok Hfalsy. unfold returns_at_once.
  split; [|split]; intros Hfile.
  - unfold validate_cards, bind.
    load_parsed Hfile Hdec Hparse Hok.
    rewrite Hfalsy. cbn. eexists _, _. split; [reflexivity|assumption].
  - unfold validate_packs, bind.
    rewrite verbose_print_eq.
    load_parsed Hfile Hdec Hparse Hok.
    cbn. destruct (is_list data); cbn.
    + rewrite Hfalsy. cbn. eexists _, _. rewrite <- !app_assoc.
      split; [reflexivity|]. auto with stdout.
    + rewrite verbose_print_0. cbn. eexists _, _. rewrite <- !app_assoc.
      split; [reflexivity|].
      apply only_stdout_app; [auto with stdout|].
      apply only_stdout_app; [assumption|repeat constructor].
  - unfold validate_cycles, bind.
    rewrite verbose_print_eq.
    load_parsed Hfile Hdec Hparse Hok.
    cbn. destruct (is_list data); cbn.
    + rewrite Hfalsy. cbn. eexists _, _. rewrite <- !app_assoc.
      split; [reflexivity|]. auto with stdout.
    + rewrite verbose_print_0. cbn. eexists _, _. rewrite <- !app_assoc.
      split; [reflexivity|].
      apply only_stdout_app; [auto with stdout|].
      apply only_stdout_app; [assumption|repeat constructor].
Qed.

(** Stage 2 with absent cycle data: when the pack schema is usable and the
    engine accepts the first pack, [validate_packs] does not return; the
    exception of the cross-check leaves it, and no defect is recorded. *)
Lemma validate_packs_absent_cycles
    (args : Namespace) st w content raw PACK_SCHEMA members packs :
  files st (path_join (schema_path args) (lit "pack_schema.json"))
    = Some (RegularFile true w content) ->
  utf8_decode content = Some raw ->
  loads raw = Some PACK_SCHEMA ->
  rewrite_ok args w PACK_SCHEMA ->
  py_truthy PACK_SCHEMA = true ->
  check_schema PACK_SCHEMA = None ->
  validate (JObj members) PACK_SCHEMA = None ->
  exists e st',
    validate_packs args (JList (JObj members :: packs)) JNull st = (Raises e, st')
    /\ is_ValidationError e = false
    /\ validation_errors st' = validation_errors st.
Proof.
  intros Hfile Hdec Hparse Hok Htruthy Hgood Hvalid.
  unfold validate_packs, bind.
  rewrite verbose_print_eq.
  load_parsed Hfile Hdec Hparse Hok.
  cbn. rewrite Htruthy. cbn.
  rewrite check_json_schema_run, Hgood. cbn. unfold bind.
  match goal with |- context [validate_pack args ?s JNull ?r (JObj members) ?st0] =>
    destruct (validate_pack_absent_cycles args r st0 Hvalid)
      as (e & st' & -> & He & Hve)
  end.
  exists e, st'. repeat split; assumption.
Qed.


End Stages.

(** ** The loader on unparsable and on canonical files *)

Section LoaderClaims.
Context {PF : PyFloat} {H : Host}.


(** A file whose text is the canonical text of the document it holds: the
    document is returned, and neither counter nor any file changes. *)
Lemma load_json_file_canonical (args : Namespace) path st w content raw v :
  files st path = Some (RegularFile true w content) ->
  utf8_decode content = Some raw ->
  loads raw = Some v ->
  format_json v = raw ->
  load_json_file args path st
  = (Returns v,
     mkState (formatting_errors st) (validation_errors st) (files st)
             (trace st
              ++ printed args (path ++ lit ": Checking JSON formatting..." ++ [NL]) 1)).
Proof.
  intros Hfile Hdec Hparse Hcanon.
  unfold load_json_file, bind, try_except, read_file, decode_utf8, json_loads.
  rewrite Hfile, Hdec. cbn. rewrite Hparse. cbn.
  rewrite verbose_print_eq, Hcanon, str_eqb_refl. reflexivity.
Qed.

End LoaderClaims.


(* ------------------------------------------------------------------ *)
(** ** The scanner *)

Module ScannerFacts.

Lemma skip_ws_length s : List.length (skip_ws s) <= List.length s.
Proof.
  induction s as [|c s IH]; simpl; [lia|].
  destruct (is_ws c); simpl; lia.
Qed.

Lemma strip_prefix_app p s r :
  strip_prefix p s = Some r -> s = p ++ r.
Proof.
  revert s; induction p as [|x p IH]; intros [|y s]; simpl; try congruence.
  destruct (N.eqb_spec x y) as [->|]; [|discriminate].
  intros Hs. f_equal. now apply IH.
Qed.

Lemma strip_prefix_refl p r : strip_prefix p (p ++ r) = Some r.
Proof.
  induction p as [|x p IH]; simpl; [now destruct r|].
  now rewrite N.eqb_refl.
Qed.

Lemma span_digits_concat s :
  s = fst (span_digits s) ++ snd (span_digits s).
Proof.
  induction s as [|c s IH]; simpl; [reflexivity|].
  destruct (is_digit c); [|reflexivity].
  destruct (span_digits s) as [ds r]. simpl in *. now f_equal.
Qed.

Lemma span_digits_closes rest : closes rest -> span_digits rest = ([], rest).
Proof.
  destruct rest as [|c rest]; simpl; [reflexivity|].
  intros [-> | ->]; reflexivity.
Qed.

Lemma span_digits_app s rest :
  closes rest ->
  span_digits (s ++ rest) = (fst (span_digits s), snd (span_digits s) ++ rest).
Proof.
  intros Hrest. induction s as [|c s IH]; simpl.
  - now apply span_digits_closes.
  - destruct (is_digit c); [|reflexivity].
    rewrite IH. destruct (span_digits s). reflexivity.
Qed.

Lemma match_integer_concat s i r :
  match_integer s = Some (i, r) -> s = i ++ r /\ i <> [].
Proof.
  unfold match_integer.
  assert (Hunsigned : forall sign s1,
    match s1 with
    | c :: t =>
        if N.eqb c 48 then Some (sign ++ [48%N], t)
        else if is_digit c then
          let (ds, r) := span_digits t in Some (sign ++ c :: ds, r)
        else None
    | [] => None
    end = Some (i, r) -> sign ++ s1 = i ++ r /\ i <> []).
  { intros sign [|c t]; [discriminate|].
    destruct (N.eqb_spec c 48) as [->|_].
    - intros [= <- <-]. rewrite <- app_assoc. split; [reflexivity|].
      now destruct sign.
    - destruct (is_digit c); [|discriminate].
      pose proof (span_digits_concat t) as Ht.
      destruct (span_digits t) as [ds r']. simpl in Ht.
      intros [= <- <-]. rewrite <- app_assoc. simpl. split; [now rewrite Ht at 1|].
      now destruct sign. }
  destruct s as [|c t].
  - discriminate.
  - destruct (N.eqb_spec c 45) as [->|_].
    + intros Hm. apply (Hunsigned [45%N] t) in Hm. exact Hm.
    + intros Hm. apply (Hunsigned [] (c :: t)) in Hm. exact Hm.
Qed.

Lemma match_integer_app s i r rest :
  match_integer s = Some (i, r) -> closes rest ->
  match_integer (s ++ rest) = Some (i, r ++ rest).
Proof.
  intros Hm Hrest. unfold match_integer in *.
  assert (Hunsigned : forall sign s1,
    match s1 with
    | c :: t =>
        if N.eqb c 48 then Some (sign ++ [48%N], t)
        else if is_digit c then
          let (ds, r) := span_digits t in Some (sign ++ c :: ds, r)
        else None
    | [] => None
    end = Some (i, r) ->
    match s1 ++ rest with
    | c :: t =>
        if N.eqb c 48 then Some (sign ++ [48%N], t)
        else if is_digit c then
          let (ds, r) := span_digits t in Some (sign ++ c :: ds, r)
        else None
    | [] => None
    end = Some (i, r ++ rest)).
  { intros sign [|c t]; [discriminate|]. simpl.
    destruct (N.eqb c 48); [now intros [= <- <-]|].
    destruct (is_digit c); [|discriminate].
    rewrite (span_digits_app t Hrest).
    destruct (span_digits t) as [ds r']. simpl. now intros [= <- <-]. }
  destruct s as [|c t]; [discriminate|]. simpl.
  destruct (N.eqb c 45).
  - exact (Hunsigned [45%N] t Hm).
  - exact (Hunsigned [] (c :: t) Hm).
Qed.

Lemma match_frac_concat s : s = fst (match_frac s) ++ snd (match_frac s).
Proof.
  unfold match_frac. destruct s as [|c t]; [reflexivity|].
  destruct (N.eqb c 46); [|reflexivity].
  pose proof (span_digits_concat t) as Ht.
  destruct (span_digits t) as [[|d ds] r]; simpl in *; [reflexivity|].
  now f_equal.
Qed.

Lemma match_frac_app s rest :
  closes rest ->
  match_frac (s ++ rest) = (fst (match_frac s), snd (match_frac s) ++ rest).
Proof.
  intros Hrest. unfold match_frac. destruct s as [|c t]; simpl.
  - destruct rest as [|c rest]; [reflexivity|].
    destruct Hrest as [-> | ->]; reflexivity.
  - destruct (N.eqb c 46); [|reflexivity].
    rewrite (span_digits_app t Hrest).
    destruct (span_digits t) as [[|d ds] r]; reflexivity.
Qed.

Lemma match_exp_concat s : s = fst (match_exp s) ++ snd (match_exp s).
Proof.
  unfold match_exp. destruct s as [|e t]; [reflexivity|].
  destruct (N.eqb e 101 || N.eqb e 69); [|reflexivity].
  destruct t as [|c t'].
  - reflexivity.
  - destruct (N.eqb c 43 || N.eqb c 45).
    + pose proof (span_digits_concat t') as Ht.
      destruct (span_digits t') as [[|d ds] r]; simpl in *; [reflexivity|].
      now rewrite Ht at 1.
    + pose proof (span_digits_concat (c :: t')) as Ht.
      destruct (span_digits (c :: t')) as [[|d ds] r]; simpl in *; [reflexivity|].
      now rewrite Ht at 1.
Qed.

Lemma match_exp_app s rest :
  closes rest ->
  match_exp (s ++ rest) = (fst (match_exp s), snd (match_exp s) ++ rest).
Proof.
  intros Hrest. unfold match_exp. destruct s as [|e t]; simpl.
  - destruct rest as [|c rest]; [reflexivity|].
    destruct Hrest as [-> | ->]; reflexivity.
  - destruct (N.eqb e 101 || N.eqb e 69); [|reflexivity].
    destruct t as [|c t']; simpl.
    + destruct rest as [|c rest]; [reflexivity|].
      destruct Hrest as [-> | ->]; reflexivity.
    + destruct (N.eqb c 43 || N.eqb c 45).
      * rewrite (span_digits_app t' Hrest).
        destruct (span_digits t') as [[|d ds] r]; reflexivity.
      * change (c :: t' ++ rest) with ((c :: t') ++ rest).
        rewrite (span_digits_app (c :: t') Hrest).
        destruct (span_digits (c :: t')) as [[|d ds] r]; reflexivity.
Qed.

Lemma match_number_concat s i frac exp r :
  match_number s = Some (i, frac, exp, r) ->
  s = i ++ frac ++ exp ++ r /\ i <> [].
Proof.
  unfold match_number.
  destruct (match_integer s) as [[i' r1]|] eqn:Hi; [|discriminate].
  apply match_integer_concat in Hi as [-> Hne].
  pose proof (match_frac_concat r1) as Hf.
  destruct (match_frac r1) as [fr r2]. simpl in Hf.
  pose proof (match_exp_concat r2) as He.
  destruct (match_exp r2) as [ex r3]. simpl in He.
  intros [= <- <- <- <-]. subst. split; [reflexivity|assumption].
Qed.

Lemma match_number_app s i frac exp r rest :
  match_number s = Some (i, frac, exp, r) -> closes rest ->
  match_number (s ++ rest) = Some (i, frac, exp, r ++ rest).
Proof.
  unfold match_number. intros Hm Hrest.
  destruct (match_integer s) as [[i' r1]|] eqn:Hi; [|discriminate].
  rewrite (match_integer_app Hi Hrest).
  rewrite (match_frac_app r1 Hrest).
  destruct (match_frac r1) as [fr r2]. simpl.
  rewrite (match_exp_app r2 Hrest).
  destruct (match_exp r2) as [ex r3]. simpl.
  now injection Hm as <- <- <- <-.
Qed.

End ScannerFacts.
Import ScannerFacts.

(** ** Integers: [int(repr(z)) == z] through the scanner *)

Module IntFacts.

Lemma codes_uint_codes d : codes_uint (uint_codes d) = d.
Proof. induction d; simpl; now f_equal. Qed.

Lemma span_digits_uint d : span_digits (uint_codes d) = (uint_codes d, []).
Proof. induction d; simpl; try reflexivity; now rewrite IHd. Qed.

(** The decimal digits of a positive number do not start with a zero. *)
Lemma to_uint_head p :
  Pos.to_uint p <> Decimal.Nil /\ forall d, Pos.to_uint p <> Decimal.D0 d.
Proof.
  split; [apply DecimalPos.Unsigned.to_uint_nonnil|].
  intros d Hd.
  assert (Hnorm : Decimal.unorm (Pos.to_uint p) = Pos.to_uint p).
  { rewrite <- DecimalPos.Unsigned.to_of, DecimalPos.Unsigned.of_to. reflexivity. }
  rewrite Hd in Hnorm. unfold Decimal.unorm in Hnorm. simpl in Hnorm.
  destruct (Decimal.nzhead d) eqn:Hz; try discriminate.
  - injection Hnorm as <-.
    exact (DecimalPos.Unsigned.to_uint_nonzero p Hd).
  - exact (DecimalFacts.nzhead_nonzero d _ Hz).
Qed.

(** The text of a number without a leading zero: a digit 1-9, then
    digits. *)
Lemma uint_codes_head d :
  d <> Decimal.Nil -> (forall d', d <> Decimal.D0 d') ->
  exists c t,
    uint_codes d = c :: t /\ is_digit c = true /\ N.eqb c 48 = false
    /\ N.eqb c 45 = false /\ span_digits t = (t, []).
Proof.
  intros Hnil Hzero.
  destruct d;
    try (eexists _, _; repeat split; apply span_digits_uint).
  - congruence.
  - exfalso. exact (Hzero d eq_refl).
Qed.

Lemma match_integer_positive p :
  match_integer (uint_codes (Pos.to_uint p)) = Some (uint_codes (Pos.to_uint p), [])
  /\ match_integer (45%N :: uint_codes (Pos.to_uint p))
     = Some (45%N :: uint_codes (Pos.to_uint p), []).
Proof.
  destruct (to_uint_head p) as [Hnil Hzero].
  destruct (uint_codes_head Hnil Hzero) as (c & t & -> & Hd & H48 & H45 & Hspan).
  unfold match_integer. simpl. rewrite H45, H48, Hd, Hspan. split; reflexivity.
Qed.

Lemma match_integer_repr z : match_integer (int_repr z) = Some (int_repr z, []).
Proof.
  unfold int_repr. destruct z as [|p|p]; simpl.
  - reflexivity.
  - apply match_integer_positive.
  - apply match_integer_positive.
Qed.

Lemma match_number_repr z rest :
  closes rest ->
  match_number (int_repr z ++ rest) = Some (int_repr z, [], [], rest).
Proof.
  intros Hrest.
  apply (match_number_app (s:=int_repr z) (r:=[])); [|assumption].
  unfold match_number. rewrite match_integer_repr. reflexivity.
Qed.

Lemma py_int_repr z : py_int (int_repr z) = z.
Proof.
  rewrite <- (DecimalZ.of_to z) at 2.
  unfold int_repr, py_int. destruct z as [|p|p]; simpl Z.to_int; cbv iota beta.
  - reflexivity.
  - destruct (to_uint_head p) as [Hnil Hzero].
    destruct (uint_codes_head Hnil Hzero) as (c & t & Hc & _ & _ & H45 & _).
    rewrite <- (codes_uint_codes (Pos.to_uint p)) at 2.
    rewrite Hc, H45. reflexivity.
  - simpl. now rewrite codes_uint_codes.
Qed.

(** The first character of [repr(z)] is a digit or a minus sign. *)
Lemma int_repr_head z :
  exists c t, int_repr z = c :: t /\ (is_digit c = true \/ c = 45%N).
Proof.
  unfold int_repr. destruct z as [|p|p]; simpl.
  - exists 48%N, []. split; [reflexivity|now left].
  - destruct (to_uint_head p) as [Hnil Hzero].
    destruct (uint_codes_head Hnil Hzero) as (c & t & -> & Hd & _).
    exists c, t. split; [reflexivity|now left].
  - eexists _, _. split; [reflexivity|now right].
Qed.

End IntFacts.
Import IntFacts.

(** ** Strings: [scanstring] reads back what [encode_basestring] writes *)

Module StringFacts.

Lemma below_32 c : (c < 32)%N -> In c (map N.of_nat (seq 0 32)).
Proof.
  intros Hc. rewrite <- (N2Nat.id c). apply in_map. apply in_seq. lia.
Qed.

Lemma control_escape c :
  (c < 32)%N ->
  decode_uXXXX 48 48 (hex_digit (c / 16)) (hex_digit (c mod 16)) = Some c
  /\ is_high_surrogate c = false.
Proof.
  intros Hc. apply below_32 in Hc.
  assert (Hall : forallb
            (fun c =>
               match decode_uXXXX 48 48 (hex_digit (c / 16)) (hex_digit (c mod 16)) with
               | Some u => N.eqb u c
               | None => false
               end && negb (is_high_surrogate c))
            (map N.of_nat (seq 0 32)) = true) by (vm_compute; reflexivity).
  rewrite forallb_forall in Hall. specialize (Hall c Hc).
  apply andb_true_iff in Hall as [Hdec Hsur].
  destruct (decode_uXXXX _ _ _ _) as [u|]; [|discriminate].
  apply N.eqb_eq in Hdec as ->. split; [reflexivity|].
  now destruct (is_high_surrogate c).
Qed.

Lemma scanstring_literal c t :
  N.eqb c QUOTE = false -> N.eqb c BACKSLASH = false -> N.ltb c 32 = false ->
  scanstring (c :: t) = cons_char c (scanstring t).
Proof. intros H1 H2 H3. simpl. now rewrite H1, H2, H3. Qed.

Lemma scanstring_short e ch t :
  N.eqb e 117 = false -> backslash_char e = Some ch ->
  scanstring (BACKSLASH :: e :: t) = cons_char ch (scanstring t).
Proof. intros H1 H2. simpl. now rewrite H1, H2. Qed.

Lemma scanstring_u a b c d u t :
  decode_uXXXX a b c d = Some u -> is_high_surrogate u = false ->
  scanstring (BACKSLASH :: 117%N :: a :: b :: c :: d :: t)
  = cons_char u (scanstring t).
Proof. intros H1 H2. simpl. now rewrite H1, H2. Qed.

Lemma scanstring_escape c t :
  scanstring (escape_char c ++ t) = cons_char c (scanstring t).
Proof.
  unfold escape_char.
  destruct (N.eqb_spec c QUOTE) as [->|Hq]; [reflexivity|].
  destruct (N.eqb_spec c BACKSLASH) as [->|Hb]; [reflexivity|].
  destruct (N.eqb_spec c 10) as [->|]; [reflexivity|].
  destruct (N.eqb_spec c 13) as [->|]; [reflexivity|].
  destruct (N.eqb_spec c 9) as [->|]; [reflexivity|].
  destruct (N.eqb_spec c 8) as [->|]; [reflexivity|].
  destruct (N.eqb_spec c 12) as [->|]; [reflexivity|].
  destruct (N.ltb_spec c 32) as [Hlt|Hge].
  - destruct (control_escape Hlt) as [Hdec Hsur].
    exact (scanstring_u t Hdec Hsur).
  - apply scanstring_literal.
    + now apply N.eqb_neq.
    + now apply N.eqb_neq.
    + now apply N.ltb_ge.
Qed.

Lemma scanstring_encode s rest :
  scanstring (flat_map escape_char s ++ QUOTE :: rest) = Some (s, rest).
Proof.
  induction s as [|c s IH]; [reflexivity|].
  simpl flat_map. rewrite <- app_assoc, scanstring_escape, IH. reflexivity.
Qed.

End StringFacts.
Import StringFacts.

(** ** Sorting the items of a dict, and building a dict from pairs *)

Module ItemFacts.
Section ItemFacts.
Context {A : Type}.
Implicit Types (l : list (pystr * A)) (kv : pystr * A).

Lemma str_ltb_asym a b : str_ltb a b = true -> str_ltb b a = false.
Proof.
  intros Hab. destruct (str_ltb b a) eqn:Hba; [|reflexivity].
  pose proof (str_ltb_trans Hab Hba) as Haa.
  now rewrite str_ltb_irrefl in Haa.
Qed.

Lemma insert_item_sorted kv l : key_sorted l -> key_sorted (insert_item kv l).
Proof.
  induction 1 as [|kv0|kv0 kv1 l Hle Hs IH]; simpl.
  - constructor.
  - destruct (str_ltb (fst kv0) (fst kv)) eqn:Hlt.
    + constructor; [now apply str_ltb_asym|constructor].
    + constructor; [assumption|constructor].
  - destruct (str_ltb (fst kv0) (fst kv)) eqn:Hlt.
    + simpl in IH. destruct (str_ltb (fst kv1) (fst kv)) eqn:Hlt1.
      * constructor; assumption.
      * constructor; [now apply str_ltb_asym|assumption].
    + constructor; [assumption|]. constructor; assumption.
Qed.

Lemma sort_items_sorted l : key_sorted (sort_items l).
Proof.
  induction l as [|kv l IH]; simpl; [constructor|].
  now apply insert_item_sorted.
Qed.

Lemma sort_items_of_sorted l : key_sorted l -> sort_items l = l.
Proof.
  induction 1 as [|kv0|kv0 kv1 l Hle Hs IH]; try reflexivity.
  change (sort_items (kv0 :: kv1 :: l))
    with (insert_item kv0 (sort_items (kv1 :: l))).
  rewrite IH. simpl. now rewrite Hle.
Qed.

Lemma sort_items_idempotent l : sort_items (sort_items l) = sort_items l.
Proof. apply sort_items_of_sorted, sort_items_sorted. Qed.

Lemma insert_item_perm kv l : Permutation (insert_item kv l) (kv :: l).
Proof.
  induction l as [|kv' l IH]; simpl; [reflexivity|].
  destruct (str_ltb (fst kv') (fst kv)); [|reflexivity].
  rewrite IH. apply perm_swap.
Qed.

Lemma sort_items_perm l : Permutation (sort_items l) l.
Proof.
  induction l as [|kv l IH]; simpl; [reflexivity|].
  rewrite insert_item_perm. now constructor.
Qed.

Lemma sort_items_in kv l : In kv (sort_items l) -> In kv l.
Proof. apply Permutation_in, sort_items_perm. Qed.

Lemma sort_items_nodup l :
  NoDup (map fst l) -> NoDup (map fst (sort_items l)).
Proof.
  apply Permutation_NoDup, Permutation_map, Permutation_sym, sort_items_perm.
Qed.

Lemma sort_items_nil l : sort_items l = [] -> l = [].
Proof.
  intros Hs. apply Permutation_nil. rewrite <- Hs.
  apply sort_items_perm.
Qed.

End ItemFacts.

(** Sorting looks at the keys only: it commutes with a map on the values. *)
Lemma insert_item_map {A B} (f : A -> B) (kv : pystr * A) l :
  insert_item (fst kv, f (snd kv)) (map (fun x => (fst x, f (snd x))) l)
  = map (fun x => (fst x, f (snd x))) (insert_item kv l).
Proof.
  induction l as [|kv' l IH]; simpl; [reflexivity|].
  destruct (str_ltb (fst kv') (fst kv)); simpl; [now rewrite IH|reflexivity].
Qed.

Lemma sort_items_map {A B} (f : A -> B) (l : list (pystr * A)) :
  sort_items (map (fun x => (fst x, f (snd x))) l)
  = map (fun x => (fst x, f (snd x))) (sort_items l).
Proof.
  induction l as [|kv l IH]; simpl; [reflexivity|].
  rewrite IH. apply insert_item_map.
Qed.

Section DictFacts.
Context {PF : PyFloat}.

Lemma dict_setitem_fresh (d : list (pystr * json)) k v :
  ~ In k (map fst d) -> dict_setitem d k v = d ++ [(k, v)].
Proof.
  induction d as [|[k' v'] d IH]; simpl; [reflexivity|].
  intros Hk. destruct (str_eqb k k') eqn:Hkk.
  - apply str_eqb_spec in Hkk. subst. tauto.
  - rewrite IH; tauto.
Qed.

Lemma fold_setitem (pairs d : list (pystr * json)) :
  NoDup (map fst (d ++ pairs)) ->
  fold_left (fun d kv => dict_setitem d (fst kv) (snd kv)) pairs d = d ++ pairs.
Proof.
  revert d; induction pairs as [|[k v] pairs IH]; intros d Hnd; simpl.
  - now rewrite List.app_nil_r.
  - rewrite dict_setitem_fresh.
    + rewrite IH; rewrite <- app_assoc; [reflexivity|exact Hnd].
    + rewrite map_app in Hnd. simpl in Hnd.
      apply NoDup_remove_2 in Hnd. rewrite in_app_iff in Hnd.
      tauto.
Qed.

(** [dict(pairs)] keeps pairs whose keys are pairwise distinct. *)
Lemma py_dict_nodup (pairs : list (pystr * json)) :
  NoDup (map fst pairs) -> py_dict pairs = pairs.
Proof. intros Hnd. unfold py_dict. now rewrite fold_setitem. Qed.

End DictFacts.
End ItemFacts.
Import ItemFacts.

(* ------------------------------------------------------------------ *)
(** ** Reading back the canonical text *)

Section RoundTrip.
Context {PF : PyFloat}.

Lemma json_induction (P : json -> Prop) :
  P JNull ->
  (forall b, P (JBool b)) ->
  (forall z, P (JInt z)) ->
  (forall f, P (JFloat f)) ->
  (forall s, P (JStr s)) ->
  (forall items, Forall P items -> P (JList items)) ->
  (forall members, Forall (fun kv => P (snd kv)) members -> P (JObj members)) ->
  forall v, P v.
Proof.
  intros Hnull Hbool Hint Hfloat Hstr Hlist Hobj.
  fix IH 1. intros [| b | z | f | s | items | members].
  - exact Hnull.
  - apply Hbool.
  - apply Hint.
  - apply Hfloat.
  - apply Hstr.
  - apply Hlist. induction items as [|x items IHitems]; constructor.
    + apply IH.
    + exact IHitems.
  - apply Hobj. induction members as [|kv members IHmembers]; constructor.
    + apply IH.
    + exact IHmembers.
Qed.

Lemma wf_list items : wf_json (JList items) <-> Forall wf_json items.
Proof.
  simpl. induction items as [|x items IH]; simpl.
  - split; constructor.
  - rewrite IH. split.
    + intros [? ?]. now constructor.
    + intros Hall. inversion Hall. now split.
Qed.

Lemma wf_obj members :
  wf_json (JObj members)
  <-> NoDup (map fst members) /\ Forall (fun kv => wf_json (snd kv)) members.
Proof.
  simpl. apply and_iff_compat_l.
  induction members as [|x members IH]; simpl.
  - split; constructor.
  - rewrite IH. split.
    + intros [? ?]. now constructor.
    + intros Hall. inversion Hall. now split.
Qed.

Lemma skip_ws_start c t : is_ws c = false -> skip_ws (c :: t) = c :: t.
Proof. intros Hc. simpl. now rewrite Hc. Qed.

Lemma skip_ws_newline_indent level s :
  skip_ws (newline_indent level ++ s) = skip_ws s.
Proof.
  unfold newline_indent. generalize (4 * level). intros n.
  change (skip_ws (repeat SPACE n ++ s) = skip_ws s).
  induction n as [|n IH]; simpl; [reflexivity|exact IH].
Qed.

Lemma closes_newline_indent level s : closes (newline_indent level ++ s).
Proof. simpl. now right. Qed.

Lemma number_start_other c x :
  number_start c -> is_digit x = false -> x <> 45%N -> N.eqb c x = false.
Proof.
  unfold number_start.
  intros [-> | Hd] Hx H45; apply N.eqb_neq; intros Heq; subst; congruence.
Qed.

Lemma match_integer_head s i r :
  match_integer s = Some (i, r) -> exists c t, s = c :: t /\ number_start c.
Proof.
  unfold match_integer, number_start. destruct s as [|c t]; [discriminate|].
  destruct (N.eqb_spec c 45) as [->|_]; [eauto|].
  destruct (N.eqb_spec c 48) as [->|_]; [eauto|].
  destruct (is_digit c) eqn:Hd; [eauto|discriminate].
Qed.

Lemma number_start_value_head c t : number_start c -> value_head (c :: t).
Proof.
  intros Hc. exists c, t. split; [reflexivity|].
  assert (Hne : forall x, is_digit x = false -> x <> 45%N -> N.eqb c x = false)
    by (intros x; apply number_start_other; exact Hc).
  unfold is_ws.
  rewrite (Hne 32%N), (Hne 9%N), (Hne 10%N), (Hne 13%N), (Hne 93%N), (Hne 65279%N)
    by (reflexivity || discriminate).
  repeat split.
Qed.

(** A text that starts with a number is none of the scanner's other
    cases. *)
Lemma scan_once_number n s i frac exp r :
  match_number s = Some (i, frac, exp, r) ->
  scan_once (S n) s
  = match frac, exp with
    | [], [] => Parsed (JInt (py_int i)) r
    | _, _ => Parsed (JFloat (py_float (i ++ frac ++ exp))) r
    end.
Proof.
  intros Hm.
  assert (Hhead : exists c t, s = c :: t /\ number_start c).
  { unfold match_number in Hm.
    destruct (match_integer s) as [[i' r1]|] eqn:Hi; [|discriminate].
    exact (match_integer_head Hi). }
  destruct Hhead as (c & t & -> & Hc).
  simpl scan_once. unfold QUOTE.
  assert (Hne : forall x, is_digit x = false -> x <> 45%N -> N.eqb c x = false)
    by (intros x; apply number_start_other; exact Hc).
  rewrite (Hne 34%N), (Hne 123%N), (Hne 91%N) by (reflexivity || discriminate).
  unfold scan_scalar.
  assert (Hstrip : forall x p, is_digit x = false -> x <> 45%N ->
            strip_prefix (x :: p) (c :: t) = None).
  { intros x p Hx H45. simpl.
    rewrite N.eqb_sym, (number_start_other Hc Hx H45). reflexivity. }
  unfold lit. simpl list_ascii_of_string. simpl map.
  rewrite !Hstrip by (reflexivity || discriminate).
  rewrite Hm. reflexivity.
Qed.

Hypothesis laws : FloatRoundTrip.

(** The three ways a float is written that are no number literal. *)
Lemma float_constant f :
  is_float_literal (floatstr f) = false ->
  floatstr f = lit "NaN" \/ floatstr f = lit "Infinity"
  \/ floatstr f = lit "-Infinity".
Proof.
  intros Hl. pose proof (floatstr_token laws f) as Ht.
  rewrite Hl, orb_false_r in Ht. unfold is_float_constant in Ht.
  apply orb_true_iff in Ht as [Ht | Ht]; [apply orb_true_iff in Ht as [Ht | Ht]|];
    apply str_eqb_spec in Ht; auto.
Qed.

Lemma scan_float n f rest :
  closes rest ->
  scan_once (S n) (floatstr f ++ rest) = Parsed (JFloat (refloat f)) rest.
Proof.
  intros Hrest. unfold refloat.
  destruct (is_float_literal (floatstr f)) eqn:Hl.
  - unfold is_float_literal in Hl.
    destruct (match_number (floatstr f)) as [[[[i fr] ex] r]|] eqn:Hm;
      [|discriminate].
    destruct r; [|discriminate].
    destruct (match_number_concat Hm) as [Ht _].
    rewrite (scan_once_number n (match_number_app Hm Hrest)).
    rewrite !List.app_nil_r in Ht. rewrite <- Ht.
    destruct fr, ex; try discriminate; reflexivity.
  - destruct (float_constant Hl) as [Hf | [Hf | Hf]]; rewrite Hf; reflexivity.
Qed.

Lemma floatstr_refloat f : floatstr (refloat f) = floatstr f.
Proof.
  unfold refloat. destruct (is_float_literal (floatstr f)) eqn:Hl.
  - now apply (floatstr_literal laws).
  - destruct (float_constant Hl) as [Hf | [Hf | Hf]]; rewrite Hf; cbn.
    + apply (floatstr_nan laws).
    + apply (floatstr_inf laws).
    + apply (floatstr_neginf laws).
Qed.

Lemma float_head f : value_head (floatstr f).
Proof.
  destruct (is_float_literal (floatstr f)) eqn:Hl.
  - unfold is_float_literal, match_number in Hl.
    destruct (match_integer (floatstr f)) as [[i r1]|] eqn:Hi; [|discriminate].
    destruct (match_integer_head Hi) as (c & t & -> & Hc).
    now apply number_start_value_head.
  - destruct (float_constant Hl) as [Hf | [Hf | Hf]]; rewrite Hf;
      eexists _, _; repeat split.
Qed.

Lemma encode_head level v : value_head (encode level v).
Proof.
  destruct v as [| [|] | z | f | s | [|x items] | [|kv members]];
    try (eexists _, _; repeat split; fail).
  - destruct (int_repr_head z) as (c & t & Hz & Hc). simpl. rewrite Hz.
    apply number_start_value_head. unfold number_start. tauto.
  - apply float_head.
Qed.

Lemma join_chunks_tail sep c cs close :
  join_chunks sep (c :: cs) ++ close = c ++ chunks_tail sep cs close.
Proof.
  simpl. rewrite <- app_assoc. f_equal.
  induction cs as [|c' cs IH]; simpl; [reflexivity|].
  rewrite <- !app_assoc. now rewrite IH.
Qed.

Lemma closes_chunks_tail level chunks close :
  closes close ->
  closes (chunks_tail (44%N :: newline_indent (S level)) chunks close).
Proof. destruct chunks; simpl; [tauto|]. intros _. now left. Qed.

Lemma encode_list_app level x xs rest :
  encode level (JList (x :: xs)) ++ rest
  = 91%N :: newline_indent (S level) ++ encode (S level) x
      ++ chunks_tail (44%N :: newline_indent (S level))
           (map (encode (S level)) xs) (newline_indent level ++ 93%N :: rest).
Proof.
  change (encode level (JList (x :: xs)))
    with (lit "[" ++ newline_indent (S level)
          ++ join_chunks (lit "," ++ newline_indent (S level))
               (map (encode (S level)) (x :: xs))
          ++ newline_indent level ++ lit "]").
  rewrite <- !app_assoc. change (lit "[" ++ ?t) with (91%N :: t).
  f_equal. f_equal. apply (join_chunks_tail (44%N :: newline_indent (S level))).
Qed.

Lemma encode_obj_app level kv0 ms0 rest :
  exists kv ms,
    sort_items (kv0 :: ms0) = kv :: ms
    /\ encode level (JObj (kv0 :: ms0)) ++ rest
       = 123%N :: newline_indent (S level) ++ item_text level kv
           ++ chunks_tail (44%N :: newline_indent (S level))
                (map (item_text level) ms) (newline_indent level ++ 125%N :: rest).
Proof.
  destruct (sort_items (kv0 :: ms0)) as [|kv ms] eqn:Hs.
  - apply sort_items_nil in Hs. discriminate.
  - exists kv, ms. split; [reflexivity|].
    change (encode level (JObj (kv0 :: ms0)))
      with (lit "{" ++ newline_indent (S level)
            ++ join_chunks (lit "," ++ newline_indent (S level))
                 (map (fun kv => encode_basestring (fst kv) ++ lit ": " ++ snd kv)
                    (sort_items
                       (map (fun kv => (fst kv, encode (S level) (snd kv)))
                          (kv0 :: ms0))))
            ++ newline_indent level ++ lit "}").
    rewrite (sort_items_map (encode (S level)) (kv0 :: ms0)), Hs, map_map.
    rewrite <- !app_assoc. change (lit "{" ++ ?t) with (123%N :: t).
    f_equal. f_equal.
    apply (join_chunks_tail (44%N :: newline_indent (S level))).
Qed.

Lemma skip_ws_value s rest : value_head s -> skip_ws (s ++ rest) = s ++ rest.
Proof. intros (c & t & -> & Hws & _). now apply skip_ws_start. Qed.

Lemma array_items_encode scan level rest xs :
  forall x k,
    (forall y, In y (x :: xs) -> forall rest', closes rest' ->
       scan (encode (S level) y ++ rest') = Parsed (norm y) rest') ->
    List.length (x :: xs) <= k ->
    array_items scan k
      (encode (S level) x
       ++ chunks_tail (44%N :: newline_indent (S level))
            (map (encode (S level)) xs) (newline_indent level ++ 93%N :: rest))
    = Parsed (map norm (x :: xs)) rest.
Proof.
  induction xs as [|y ys IH]; intros x k Hscan Hk;
    (destruct k as [|k]; [simpl in Hk; lia|]); cbn [array_items].
  - cbn [chunks_tail map].
    rewrite (Hscan x (or_introl eq_refl)) by apply closes_newline_indent.
    rewrite skip_ws_newline_indent. reflexivity.
  - cbn [chunks_tail map]. rewrite <- app_comm_cons.
    rewrite (Hscan x (or_introl eq_refl)) by (now left).
    rewrite skip_ws_start by reflexivity. cbv iota beta.
    change (N.eqb 44 93) with false. change (N.eqb 44 44) with true. cbv iota beta.
    rewrite skip_ws_newline_indent, skip_ws_value by apply encode_head.
    rewrite IH.
    + reflexivity.
    + intros z Hz. apply Hscan. now right.
    + simpl in *. lia.
Qed.

Lemma object_pairs_encode scan level rest ms :
  forall kv k,
    (forall kv', In kv' (kv :: ms) -> forall rest', closes rest' ->
       scan (encode (S level) (snd kv') ++ rest') = Parsed (norm (snd kv')) rest') ->
    List.length (kv :: ms) <= k ->
    object_pairs scan k
      (flat_map escape_char (fst kv) ++ QUOTE :: lit ": "
       ++ encode (S level) (snd kv)
       ++ chunks_tail (44%N :: newline_indent (S level))
            (map (item_text level) ms) (newline_indent level ++ 125%N :: rest))
    = Parsed (map (fun kv => (fst kv, norm (snd kv))) (kv :: ms)) rest.
Proof.
  induction ms as [|kv1 ms IH]; intros kv k Hscan Hk;
    (destruct k as [|k]; [simpl in Hk; lia|]); cbn [object_pairs];
    rewrite scanstring_encode; change (lit ": " ++ ?t) with (58%N :: 32%N :: t);
    rewrite skip_ws_start by reflexivity; cbv iota beta;
    change (N.eqb 58 58) with true; cbv iota beta;
    change (skip_ws (32%N :: ?t)) with (skip_ws t);
    rewrite skip_ws_value by apply encode_head.
  - cbn [chunks_tail map].
    rewrite (Hscan kv (or_introl eq_refl)) by apply closes_newline_indent.
    rewrite skip_ws_newline_indent. reflexivity.
  - cbn [chunks_tail map]. rewrite <- app_comm_cons.
    rewrite (Hscan kv (or_introl eq_refl)) by (now left).
    rewrite skip_ws_start by reflexivity. cbv iota beta.
    change (N.eqb 44 125) with false. change (N.eqb 44 44) with true. cbv iota beta.
    rewrite skip_ws_newline_indent.
    unfold item_text at 1, encode_basestring. rewrite <- !app_assoc.
    change ((QUOTE :: ?a) ++ ?b) with (QUOTE :: a ++ b).
    rewrite skip_ws_start by reflexivity. cbv iota beta.
    rewrite N.eqb_refl. rewrite <- !app_assoc.
    change ([QUOTE] ++ ?t) with (QUOTE :: t).
    rewrite IH.
    + reflexivity.
    + intros z Hz. apply Hscan. now right.
    + simpl in *. lia.
Qed.

Lemma json_size_pos v : 1 <= json_size v.
Proof. destruct v; simpl; lia. Qed.

Lemma list_sum_in {A} (f : A -> nat) l x :
  In x l -> f x <= list_sum (map f l).
Proof.
  induction l as [|y l IH]; simpl; [tauto|].
  intros [-> | Hin]; [lia|]. specialize (IH Hin). lia.
Qed.

Lemma list_sum_length {A} (f : A -> nat) l :
  (forall x, 1 <= f x) -> List.length l <= list_sum (map f l).
Proof.
  intros Hpos. induction l as [|y l IH]; simpl; [lia|].
  specialize (Hpos y). lia.
Qed.

Lemma JSONArray_items scan n s c t :
  skip_ws s = c :: t -> N.eqb c 93 = false ->
  JSONArray scan n s
  = match array_items scan n (skip_ws s) with
    | Parsed vs r => Parsed (JList vs) r
    | Invalid => Invalid
    | OutOfFuel => OutOfFuel
    end.
Proof. intros Hs Hc. unfold JSONArray. rewrite Hs, Hc. reflexivity. Qed.

Lemma JSONObject_pairs scan n s t :
  skip_ws s = QUOTE :: t ->
  JSONObject scan n s
  = match object_pairs scan n t with
    | Parsed ps r => Parsed (JObj (py_dict ps)) r
    | Invalid => Invalid
    | OutOfFuel => OutOfFuel
    end.
Proof. intros Hs. unfold JSONObject. rewrite Hs. reflexivity. Qed.

(** The scanner reads the canonical text of [v] back as [norm v]. *)
Lemma scan_encode v :
  wf_json v ->
  forall level rest fuel,
    closes rest -> json_size v <= fuel ->
    scan_once fuel (encode level v ++ rest) = Parsed (norm v) rest.
Proof.
  induction v as [| b | z | f | s | items IH | members IH] using json_induction;
    intros Hwf level rest fuel Hrest Hfuel;
    (destruct fuel as [|n]; [simpl in Hfuel; lia|]).
  - reflexivity.
  - destruct b; reflexivity.
  - cbn [encode].
    rewrite (scan_once_number n (match_number_repr z Hrest)), py_int_repr.
    reflexivity.
  - now apply scan_float.
  - cbn [encode]. unfold encode_basestring.
    rewrite <- app_comm_cons, <- app_assoc.
    change ([QUOTE] ++ rest) with (QUOTE :: rest).
    cbn [scan_once]. rewrite N.eqb_refl, scanstring_encode. reflexivity.
  - destruct items as [|x xs]; [reflexivity|].
    rewrite encode_list_app.
    change (scan_once (S n) (91%N :: ?t)) with (JSONArray (scan_once n) n t).
    destruct (encode_head (S level) x) as (c & t & Hx & Hws & H93 & _).
    assert (Hskip : forall T,
              skip_ws (newline_indent (S level) ++ encode (S level) x ++ T)
              = encode (S level) x ++ T).
    { intros T. rewrite skip_ws_newline_indent. apply skip_ws_value, encode_head. }
    assert (Hhead : forall T,
              skip_ws (newline_indent (S level) ++ encode (S level) x ++ T)
              = c :: t ++ T).
    { intros T. rewrite Hskip, Hx. reflexivity. }
    rewrite (JSONArray_items _ _ (Hhead _) H93), Hskip.
    apply wf_list in Hwf. simpl in Hfuel.
    rewrite array_items_encode; [reflexivity| |].
    + intros y Hy rest' Hrest'.
      rewrite Forall_forall in IH, Hwf.
      apply IH; auto.
      pose proof (@list_sum_in _ json_size (x :: xs) y Hy). simpl in *. lia.
    + pose proof (@list_sum_length _ json_size (x :: xs) json_size_pos).
      simpl in *. lia.
  - destruct members as [|kv0 ms0]; [reflexivity|].
    destruct (encode_obj_app level kv0 ms0 rest) as (kv & ms & Hs & ->).
    change (scan_once (S n) (123%N :: ?t)) with (JSONObject (scan_once n) n t).
    assert (Hskip : forall T,
              skip_ws (newline_indent (S level) ++ item_text level kv ++ T)
              = QUOTE :: flat_map escape_char (fst kv) ++ QUOTE :: lit ": "
                  ++ encode (S level) (snd kv) ++ T).
    { intros T. rewrite skip_ws_newline_indent.
      unfold item_text, encode_basestring.
      rewrite <- ?app_assoc, <- ?app_comm_cons, <- ?app_assoc.
      rewrite skip_ws_start by reflexivity.
      reflexivity. }
    rewrite (JSONObject_pairs _ _ (Hskip _)).
    apply wf_obj in Hwf as [Hnd Hwf].
    change (S (list_sum (map (fun kv => json_size (snd kv)) (kv0 :: ms0))) <= S n)
      in Hfuel.
    assert (Hperm : Permutation (kv :: ms) (kv0 :: ms0))
      by (rewrite <- Hs; apply sort_items_perm).
    rewrite object_pairs_encode.
    + cbn [norm]. rewrite (sort_items_map norm (kv0 :: ms0)), Hs.
      rewrite py_dict_nodup; [reflexivity|].
      rewrite map_map. cbn [fst].
      apply (Permutation_NoDup
               (Permutation_map fst (Permutation_sym Hperm)) Hnd).
    + intros kv' Hkv' rest' Hrest'.
      rewrite Forall_forall in IH, Hwf.
      assert (Hin : In kv' (kv0 :: ms0)) by (eapply Permutation_in; eassumption).
      apply IH; auto.
      pose proof (@list_sum_in _ (fun kv => json_size (snd kv)) (kv0 :: ms0) kv' Hin).
      cbv beta in *. lia.
    + pose proof (Permutation_length Hperm) as Hlen.
      pose proof (@list_sum_length _ (fun kv => json_size (snd kv)) (kv0 :: ms0)
                    (fun kv => json_size_pos (snd kv))) as Hsum.
      apply le_S_n in Hfuel.
      eapply Nat.le_trans; [|exact Hfuel].
      eapply Nat.le_trans; [|exact Hsum].
      apply Nat.eq_le_incl. exact Hlen.
Qed.

Lemma encode_list_text level items :
  encode level (JList items) = list_text level (map (encode (S level)) items).
Proof. destruct items; reflexivity. Qed.

Lemma encode_obj_text level members :
  encode level (JObj members)
  = obj_text level
      (sort_items (map (fun kv => (fst kv, encode (S level) (snd kv))) members)).
Proof.
  destruct members as [|kv ms]; [reflexivity|].
  change (encode level (JObj (kv :: ms)))
    with (lit "{" ++ newline_indent (S level)
          ++ join_chunks (lit "," ++ newline_indent (S level))
               (map (fun kv => encode_basestring (fst kv) ++ lit ": " ++ snd kv)
                  (sort_items
                     (map (fun kv => (fst kv, encode (S level) (snd kv)))
                        (kv :: ms))))
          ++ newline_indent level ++ lit "}").
  destruct (sort_items (map _ (kv :: ms))) eqn:Hs; [|reflexivity].
  apply sort_items_nil in Hs. discriminate.
Qed.

(** The document read back has the same canonical text. *)
Lemma encode_norm v : forall level, encode level (norm v) = encode level v.
Proof.
  induction v as [| b | z | f | s | items IH | members IH] using json_induction;
    intros level; try reflexivity.
  - apply floatstr_refloat.
  - cbn [norm]. rewrite !encode_list_text, map_map. f_equal.
    apply map_ext_in. intros x Hx. rewrite Forall_forall in IH. now apply IH.
  - cbn [norm]. rewrite !encode_obj_text. f_equal.
    rewrite (sort_items_map (encode (S level))), sort_items_idempotent.
    rewrite <- (sort_items_map (encode (S level))), map_map. f_equal.
    apply map_ext_in. intros kv Hkv. rewrite Forall_forall in IH. cbn [fst snd].
    f_equal. now apply IH.
Qed.

End RoundTrip.

(* ------------------------------------------------------------------ *)
(** ** The recursion bound of the scanner is never reached *)

Section ScannerTotal.
Context {PF : PyFloat}.

Lemma cons_char_some c x str r :
  cons_char c x = Some (str, r) -> exists str', x = Some (str', r).
Proof.
  destruct x as [[str' r']|]; simpl; [|discriminate].
  intros [= _ <-]. eauto.
Qed.

Lemma scanstring_length_le n :
  forall s str r,
    List.length s <= n -> scanstring s = Some (str, r) ->
    List.length r < List.length s.
Proof.
  induction n as [|n IH]; intros s str r Hlen Hs.
  - destruct s; [discriminate|simpl in Hlen; lia].
  - assert (Hrec : forall c t, List.length t <= n ->
              cons_char c (scanstring t) = Some (str, r) ->
              List.length r < List.length t).
    { intros c t Ht Hc. apply cons_char_some in Hc as (str' & Hc).
      exact (IH _ _ _ Ht Hc). }
    destruct s as [|c t]; [discriminate|].
    simpl in Hs, Hlen.
    repeat match type of Hs with
           | Some _ = Some _ => injection Hs as <- <-
           | None = Some _ => discriminate
           | cons_char _ (scanstring ?t') = Some _ =>
               apply (Hrec _ t') in Hs; [|simpl in *; lia]
           | context [if ?b then _ else _] => destruct b
           | context [match ?x with _ => _ end] => destruct x
           end; simpl in *; lia.
Qed.

Lemma scanstring_length s str r :
  scanstring s = Some (str, r) -> List.length r < List.length s.
Proof. apply (scanstring_length_le (n:=List.length s)). lia. Qed.

Lemma strip_prefix_length p s r :
  strip_prefix p s = Some r -> List.length s = List.length p + List.length r.
Proof.
  intros Hs. apply strip_prefix_app in Hs. subst. apply length_app.
Qed.

Lemma scan_scalar_progress s :
  scan_scalar s <> OutOfFuel
  /\ forall v r, scan_scalar s = Parsed v r -> List.length r < List.length s.
Proof.
  unfold scan_scalar.
  repeat match goal with
         | |- context [strip_prefix ?p s] =>
             let Hp := fresh "Hp" in
             destruct (strip_prefix p s) eqn:Hp;
             [apply strip_prefix_length in Hp; simpl in Hp;
              split; [discriminate|intros ? ? [= _ <-]; lia]|]
         end.
  - destruct (match_number s) as [[[[i fr] ex] r0]|] eqn:Hm.
    + apply match_number_concat in Hm as [-> Hi].
      assert (List.length r0 < List.length (i ++ fr ++ ex ++ r0)).
      { rewrite !length_app. destruct i; [congruence|simpl; lia]. }
      destruct fr, ex; (split; [discriminate|intros ? ? [= _ <-]; assumption]).
    + repeat match goal with
             | |- context [strip_prefix ?p s] =>
                 let Hp := fresh "Hp" in
                 destruct (strip_prefix p s) eqn:Hp;
                 [apply strip_prefix_length in Hp; simpl in Hp;
                  split; [discriminate|intros ? ? [= _ <-]; lia]|]
             end.
      split; [discriminate|discriminate].
Qed.

Section Loops.
Variable scan : pystr -> presult json.
Variable bound : nat.
Hypothesis scan_progress :
  forall s, List.length s < bound ->
    scan s <> OutOfFuel
    /\ forall v r, scan s = Parsed v r -> List.length r < List.length s.

Lemma array_items_progress k :
  forall s, List.length s < k -> List.length s < bound ->
    array_items scan k s <> OutOfFuel
    /\ forall vs r, array_items scan k s = Parsed vs r ->
         List.length r < List.length s.
Proof.
  induction k as [|k IH]; intros s Hk Hb; [lia|].
  destruct (scan_progress Hb) as [Hfuel Hless].
  simpl. destruct (scan s) as [v r| |]; [|split; discriminate|congruence].
  specialize (Hless v r eq_refl).
  pose proof (skip_ws_length r) as Hr.
  destruct (skip_ws r) as [|c r1]; [split; discriminate|].
  simpl in Hr.
  destruct (N.eqb c 93); [split; [discriminate|intros ? ? [= _ <-]; lia]|].
  destruct (N.eqb c 44); [|split; discriminate].
  pose proof (skip_ws_length r1) as Hr1.
  destruct (IH (skip_ws r1)) as [Hfuel' Hless']; [lia|lia|].
  destruct (array_items scan k (skip_ws r1)) as [vs r2| |];
    [|split; discriminate|congruence].
  specialize (Hless' vs r2 eq_refl).
  split; [discriminate|intros ? ? [= _ <-]; lia].
Qed.

Lemma object_pairs_progress k :
  forall s, List.length s < k -> List.length s < bound ->
    object_pairs scan k s <> OutOfFuel
    /\ forall ps r, object_pairs scan k s = Parsed ps r ->
         List.length r < List.length s.
Proof.
  induction k as [|k IH]; intros s Hk Hb; [lia|].
  simpl. destruct (scanstring s) as [[key r]|] eqn:Hkey; [|split; discriminate].
  apply scanstring_length in Hkey.
  pose proof (skip_ws_length r) as Hr.
  destruct (skip_ws r) as [|c r1]; [split; discriminate|].
  simpl in Hr.
  destruct (N.eqb c 58); [|split; discriminate].
  pose proof (skip_ws_length r1) as Hr1.
  destruct (@scan_progress (skip_ws r1)) as [Hfuel Hless]; [lia|].
  destruct (scan (skip_ws r1)) as [v r2| |]; [|split; discriminate|congruence].
  specialize (Hless v r2 eq_refl).
  pose proof (skip_ws_length r2) as Hr2.
  destruct (skip_ws r2) as [|d r3]; [split; discriminate|].
  simpl in Hr2.
  destruct (N.eqb d 125); [split; [discriminate|intros ? ? [= _ <-]; lia]|].
  destruct (N.eqb d 44); [|split; discriminate].
  pose proof (skip_ws_length r3) as Hr3.
  destruct (skip_ws r3) as [|q r4]; [split; discriminate|].
  simpl in Hr3.
  destruct (N.eqb q QUOTE); [|split; discriminate].
  destruct (IH r4) as [Hfuel' Hless']; [lia|lia|].
  destruct (object_pairs scan k r4) as [ps r5| |];
    [|split; discriminate|congruence].
  specialize (Hless' ps r5 eq_refl).
  split; [discriminate|intros ? ? [= _ <-]; lia].
Qed.

End Loops.

(** With more fuel than characters, [scan_once] does not run out of fuel,
    and it consumes at least one character when it succeeds. *)
Lemma scan_once_progress n :
  forall s, List.length s < n ->
    scan_once n s <> OutOfFuel
    /\ forall v r, scan_once n s = Parsed v r -> List.length r < List.length s.
Proof.
  induction n as [|n IH]; intros s Hn; [lia|].
  destruct s as [|c t]; [split; discriminate|].
  simpl in Hn. cbn [scan_once].
  destruct (N.eqb c QUOTE).
  { destruct (scanstring t) as [[str r]|] eqn:Hs; [|split; discriminate].
    apply scanstring_length in Hs.
    split; [discriminate|intros ? ? [= _ <-]; simpl; lia]. }
  destruct (N.eqb c 123).
  { unfold JSONObject. pose proof (skip_ws_length t) as Ht.
    destruct (skip_ws t) as [|d r]; [split; discriminate|]. simpl in Ht.
    destruct (N.eqb d 125);
      [split; [discriminate|intros ? ? [= _ <-]; simpl; lia]|].
    destruct (N.eqb d QUOTE); [|split; discriminate].
    destruct (@object_pairs_progress (scan_once n) n IH n r) as [Hfuel Hless];
      [lia|lia|].
    destruct (object_pairs (scan_once n) n r) as [ps r'| |];
      [|split; discriminate|congruence].
    specialize (Hless ps r' eq_refl).
    split; [discriminate|intros ? ? [= _ <-]; simpl; lia]. }
  destruct (N.eqb c 91).
  { unfold JSONArray. pose proof (skip_ws_length t) as Ht.
    destruct (skip_ws t) as [|d r] eqn:Hskip; [split; discriminate|]. simpl in Ht.
    destruct (N.eqb d 93);
      [split; [discriminate|intros ? ? [= _ <-]; simpl; lia]|].
    destruct (@array_items_progress (scan_once n) n IH n (d :: r)) as [Hfuel Hless];
      [simpl; lia|simpl; lia|].
    destruct (array_items (scan_once n) n (d :: r)) as [vs r'| |];
      [|split; discriminate|congruence].
    specialize (Hless vs r' eq_refl). simpl in Hless.
    split; [discriminate|intros ? ? [= _ <-]; simpl; lia]. }
  exact (scan_scalar_progress (c :: t)).
Qed.

(** [json.loads] is total in the model: [None] stands for a
    [JSONDecodeError] only. *)
Theorem decode_total s : decode s <> OutOfFuel.
Proof.
  unfold decode.
  pose proof (skip_ws_length s) as Hs.
  destruct (@scan_once_progress (S (List.length s)) (skip_ws s)) as [Hfuel _];
    [lia|].
  destruct (scan_once (S (List.length s)) (skip_ws s)) as [v r| |];
    [|discriminate|congruence].
  destruct (skip_ws r); discriminate.
Qed.

End ScannerTotal.

(** ** More fuel does not change a result *)

Section ScannerMono.
Context {PF : PyFloat}.

Section Loops.
Variables scan scan' : pystr -> presult json.
Hypothesis scan_mono : forall s, scan s <> OutOfFuel -> scan' s = scan s.

Lemma array_items_mono k :
  forall k' s, k <= k' ->
    array_items scan k s <> OutOfFuel ->
    array_items scan' k' s = array_items scan k s.
Proof.
  induction k as [|k IH]; intros k' s Hk Hfuel; [now elim Hfuel|].
  destruct k' as [|k']; [lia|].
  cbn [array_items] in *.
  destruct (scan s) as [v r| |] eqn:Hs; [| |now elim Hfuel];
    rewrite (scan_mono (s:=s)), Hs by (rewrite Hs; discriminate);
    [|reflexivity].
  destruct (skip_ws r) as [|c r1]; [reflexivity|].
  destruct (N.eqb c 93); [reflexivity|].
  destruct (N.eqb c 44); [|reflexivity].
  rewrite (IH k' (skip_ws r1)); [reflexivity|lia|].
  intros Hout. rewrite Hout in Hfuel. now elim Hfuel.
Qed.

Lemma object_pairs_mono k :
  forall k' s, k <= k' ->
    object_pairs scan k s <> OutOfFuel ->
    object_pairs scan' k' s = object_pairs scan k s.
Proof.
  induction k as [|k IH]; intros k' s Hk Hfuel; [now elim Hfuel|].
  destruct k' as [|k']; [lia|].
  cbn [object_pairs] in *.
  destruct (scanstring s) as [[key r]|]; [|reflexivity].
  destruct (skip_ws r) as [|c r1]; [reflexivity|].
  destruct (N.eqb c 58); [|reflexivity].
  destruct (scan (skip_ws r1)) as [v r2| |] eqn:Hs; [| |now elim Hfuel];
    rewrite (scan_mono (s:=skip_ws r1)), Hs by (rewrite Hs; discriminate);
    [|reflexivity].
  destruct (skip_ws r2) as [|d r3]; [reflexivity|].
  destruct (N.eqb d 125); [reflexivity|].
  destruct (N.eqb d 44); [|reflexivity].
  destruct (skip_ws r3) as [|q r4]; [reflexivity|].
  destruct (N.eqb q QUOTE); [|reflexivity].
  rewrite (IH k' r4); [reflexivity|lia|].
  intros Hout. rewrite Hout in Hfuel. now elim Hfuel.
Qed.

End Loops.

Lemma scan_once_mono n :
  forall m s, n <= m ->
    scan_once n s <> OutOfFuel -> scan_once m s = scan_once n s.
Proof.
  induction n as [|n IH]; intros m s Hm Hfuel; [now elim Hfuel|].
  destruct m as [|m]; [lia|].
  assert (Hscan : forall s', scan_once n s' <> OutOfFuel ->
                    scan_once m s' = scan_once n s')
    by (intros s'; apply IH; lia).
  cbn [scan_once] in *.
  destruct s as [|c t]; [reflexivity|].
  destruct (N.eqb c QUOTE); [reflexivity|].
  destruct (N.eqb c 123).
  { unfold JSONObject in *.
    destruct (skip_ws t) as [|d r]; [reflexivity|].
    destruct (N.eqb d 125); [reflexivity|].
    destruct (N.eqb d QUOTE); [|reflexivity].
    rewrite (@object_pairs_mono (scan_once n) (scan_once m) Hscan n m r);
      [reflexivity|lia|].
    intros Hout. rewrite Hout in Hfuel. now elim Hfuel. }
  destruct (N.eqb c 91).
  { unfold JSONArray in *.
    destruct (skip_ws t) as [|d r]; [reflexivity|].
    destruct (N.eqb d 93); [reflexivity|].
    rewrite (@array_items_mono (scan_once n) (scan_once m) Hscan n m (d :: r));
      [reflexivity|lia|].
    intros Hout. rewrite Hout in Hfuel. now elim Hfuel. }
  reflexivity.
Qed.

End ScannerMono.

(* ------------------------------------------------------------------ *)
(** ** Canonical formatting is idempotent *)

Section Idempotence.
Context {PF : PyFloat}.
Hypothesis laws : FloatRoundTrip.

(** [json.loads] reads the canonical text of [v] back as [norm v]. *)
Lemma loads_format_json v :
  wf_json v -> loads (format_json v) = Some (norm v).
Proof.
  intros Hwf. unfold format_json, dumps.
  destruct (encode_head laws 0 v) as (c & t & Hv & Hws & _ & Hbom).
  set (s := encode 0 v ++ [NL]).
  assert (Hs : s = c :: t ++ [NL]) by (unfold s; rewrite Hv; reflexivity).
  assert (Hscan : scan_once (S (List.length s)) s = Parsed (norm v) [NL]).
  { destruct (@scan_once_progress _ (S (List.length s)) s) as [Hfuel _]; [lia|].
    rewrite <- (scan_once_mono (m:=Nat.max (S (List.length s)) (json_size v)))
      by (assumption || lia).
    apply (scan_encode laws); [assumption|simpl; tauto|lia]. }
  assert (Hdecode : decode s = Parsed (norm v) []).
  { unfold decode. rewrite Hs at 2. rewrite skip_ws_start by assumption.
    rewrite <- Hs, Hscan. reflexivity. }
  unfold loads. rewrite Hdecode, Hs. cbn [strip_prefix].
  rewrite N.eqb_sym, Hbom. reflexivity.
Qed.

(** C2: for every document (a JSON value whose dicts have pairwise
    distinct keys), parsing its canonical text and formatting the result
    gives the same text again. *)
Theorem format_json_idempotent v :
  wf_json v ->
  exists v',
    loads (format_json v) = Some v' /\ format_json v' = format_json v.
Proof.
  intros Hwf. exists (norm v). split.
  - now apply loads_format_json.
  - unfold format_json, dumps. now rewrite (encode_norm laws).
Qed.

End Idempotence.

(* ------------------------------------------------------------------ *)
(** ** Every document [json.loads] returns is well formed *)

Section ParsedDocuments.
Context {PF : PyFloat}.

Lemma dict_setitem_keys (d : list (pystr * json)) k v x :
  In x (map fst (dict_setitem d k v)) -> In x (map fst d) \/ x = k.
Proof.
  induction d as [|[k' v'] d IH]; simpl.
  - intros [<- | []]. now right.
  - destruct (str_eqb k k'); simpl; [tauto|].
    intros [<- | Hin]; [tauto|]. apply IH in Hin. tauto.
Qed.

Lemma dict_setitem_nodup (d : list (pystr * json)) k v :
  NoDup (map fst d) -> NoDup (map fst (dict_setitem d k v)).
Proof.
  induction d as [|[k' v'] d IH]; simpl; intros Hnd.
  - repeat constructor. simpl. tauto.
  - inversion Hnd as [|? ? Hnotin Hnd']. subst.
    destruct (str_eqb k k') eqn:Hk; simpl.
    + now constructor.
    + constructor; [|now apply IH].
      intros Hin. apply dict_setitem_keys in Hin as [Hin | ->]; [tauto|].
      now rewrite str_eqb_refl in Hk.
Qed.

Lemma dict_setitem_values (d : list (pystr * json)) k v :
  Forall (fun kv => wf_json (snd kv)) d -> wf_json v ->
  Forall (fun kv => wf_json (snd kv)) (dict_setitem d k v).
Proof.
  induction d as [|[k' v'] d IH]; simpl; intros Hall Hv.
  - now repeat constructor.
  - inversion Hall. subst.
    destruct (str_eqb k k'); constructor; auto.
Qed.

Lemma py_dict_wf (pairs : list (pystr * json)) :
  Forall (fun kv => wf_json (snd kv)) pairs -> wf_json (JObj (py_dict pairs)).
Proof.
  intros Hpairs. apply wf_obj. unfold py_dict.
  assert (Hgen : forall d,
            NoDup (map fst d) -> Forall (fun kv => wf_json (snd kv)) d ->
            let d' := fold_left (fun d kv => dict_setitem d (fst kv) (snd kv)) pairs d in
            NoDup (map fst d') /\ Forall (fun kv => wf_json (snd kv)) d').
  { induction Hpairs as [|kv pairs Hkv Hpairs IH]; intros d Hnd Hall; simpl.
    - now split.
    - apply IH.
      + now apply dict_setitem_nodup.
      + now apply dict_setitem_values. }
  apply Hgen; constructor.
Qed.

Section Loops.
Variable scan : pystr -> presult json.
Hypothesis scan_wf : forall s v r, scan s = Parsed v r -> wf_json v.

Lemma array_items_wf k :
  forall s vs r, array_items scan k s = Parsed vs r -> Forall wf_json vs.
Proof.
  induction k as [|k IH]; intros s vs r; [discriminate|].
  cbn [array_items].
  destruct (scan s) as [v r0| |] eqn:Hs; try discriminate.
  apply scan_wf in Hs.
  destruct (skip_ws r0) as [|c r1]; [discriminate|].
  destruct (N.eqb c 93); [intros [= <- _]; now repeat constructor|].
  destruct (N.eqb c 44); [|discriminate].
  destruct (array_items scan k (skip_ws r1)) as [vs' r2| |] eqn:Hrec;
    try discriminate.
  intros [= <- _]. constructor; [assumption|]. exact (IH _ _ _ Hrec).
Qed.

Lemma object_pairs_wf k :
  forall s ps r,
    object_pairs scan k s = Parsed ps r ->
    Forall (fun kv => wf_json (snd kv)) ps.
Proof.
  induction k as [|k IH]; intros s ps r; [discriminate|].
  cbn [object_pairs].
  destruct (scanstring s) as [[key r0]|]; [|discriminate].
  destruct (skip_ws r0) as [|c r1]; [discriminate|].
  destruct (N.eqb c 58); [|discriminate].
  destruct (scan (skip_ws r1)) as [v r2| |] eqn:Hs; try discriminate.
  apply scan_wf in Hs.
  destruct (skip_ws r2) as [|d r3]; [discriminate|].
  destruct (N.eqb d 125); [intros [= <- _]; now repeat constructor|].
  destruct (N.eqb d 44); [|discriminate].
  destruct (skip_ws r3) as [|q r4]; [discriminate|].
  destruct (N.eqb q QUOTE); [|discriminate].
  destruct (object_pairs scan k r4) as [ps' r5| |] eqn:Hrec; try discriminate.
  intros [= <- _]. constructor; [assumption|]. exact (IH _ _ _ Hrec).
Qed.

End Loops.

Lemma scan_scalar_wf s v r : scan_scalar s = Parsed v r -> wf_json v.
Proof.
  unfold scan_scalar.
  repeat match goal with
         | |- context [strip_prefix ?p s] => destruct (strip_prefix p s)
         | |- context [match_number s] =>
             destruct (match_number s) as [[[[i [|? ?]] [|? ?]] ?]|]
         end; intros [= <- _]; exact I.
Qed.

Lemma scan_once_wf n : forall s v r, scan_once n s = Parsed v r -> wf_json v.
Proof.
  induction n as [|n IH]; intros s v r; [discriminate|].
  cbn [scan_once]. destruct s as [|c t]; [discriminate|].
  destruct (N.eqb c QUOTE).
  { destruct (scanstring t) as [[str r0]|]; [|discriminate].
    intros [= <- _]. exact I. }
  destruct (N.eqb c 123).
  { unfold JSONObject. destruct (skip_ws t) as [|d r0]; [discriminate|].
    destruct (N.eqb d 125); [intros [= <- _]; apply wf_obj; split; constructor|].
    destruct (N.eqb d QUOTE); [|discriminate].
    destruct (object_pairs (scan_once n) n r0) as [ps r1| |] eqn:Hps;
      try discriminate.
    intros [= <- _]. apply py_dict_wf. exact (object_pairs_wf IH Hps). }
  destruct (N.eqb c 91).
  { unfold JSONArray. destruct (skip_ws t) as [|d r0]; [discriminate|].
    destruct (N.eqb d 93); [intros [= <- _]; exact I|].
    destruct (array_items (scan_once n) n (d :: r0)) as [vs r1| |] eqn:Hvs;
      try discriminate.
    intros [= <- _]. apply wf_list. exact (array_items_wf IH Hvs). }
  apply scan_scalar_wf.
Qed.

(** The keys of every dict of a parsed document are pairwise distinct. *)
Theorem loads_wf s v : loads s = Some v -> wf_json v.
Proof.
  unfold loads, decode.
  destruct (strip_prefix [65279%N] s); [discriminate|].
  destruct (scan_once (S (List.length s)) (skip_ws s)) as [v' r| |] eqn:Hv;
    try discriminate.
  destruct (skip_ws r); [|discriminate].
  intros [= <-]. exact (scan_once_wf Hv).
Qed.

(** Every document the loader can hand to [format_json] is reproduced by
    its canonical text. *)
Corollary format_json_idempotent_parsed (laws : FloatRoundTrip) s v :
  loads s = Some v ->
  exists v',
    loads (format_json v) = Some v' /\ format_json v' = format_json v.
Proof.
  intros Hs. exists (norm v). split.
  - apply (loads_format_json laws). exact (loads_wf Hs).
  - unfold format_json, dumps. now rewrite (encode_norm laws).
Qed.

End ParsedDocuments.

(* ------------------------------------------------------------------ *)
(** ** The UTF-8 codec *)

Section Utf8.

Lemma digits64 c : (c = 64 * (c / 64) + c mod 64 /\ c mod 64 < 64)%N.
Proof. split; [apply N.div_mod; discriminate|apply N.mod_lt; discriminate]. Qed.

Lemma is_cont_true b : (128 <= b)%N -> (b <= 191)%N -> is_cont b = true.
Proof.
  intros H1 H2. unfold is_cont.
  apply andb_true_intro; split; apply N.leb_le; assumption.
Qed.

Ltac decide_tests :=
  repeat match goal with
         | |- context [N.ltb ?a ?b] =>
             destruct (N.ltb_spec a b); [try (exfalso; lia)|try (exfalso; lia)]
         | |- context [N.leb ?a ?b] =>
             destruct (N.leb_spec a b); [try (exfalso; lia)|try (exfalso; lia)]
         end.

Lemma decode_codes_1 b0 t :
  (b0 < 128)%N -> decode_codes ([b0] ++ t) = push b0 (decode_codes t).
Proof.
  intros H. cbn [app decode_codes].
  destruct (N.ltb_spec b0 128); [reflexivity|lia].
Qed.

Lemma decode_codes_2 b0 b1 t :
  (194 <= b0)%N -> (b0 <= 223)%N -> (128 <= b1)%N -> (b1 <= 191)%N ->
  decode_codes ([b0; b1] ++ t)
  = push ((b0 - 192) * 64 + (b1 - 128))%N (decode_codes t).
Proof.
  intros H1 H2 H3 H4. cbn [app decode_codes].
  rewrite (@is_cont_true _ H3 H4).
  decide_tests. reflexivity.
Qed.

Lemma decode_codes_3 b0 b1 b2 t c :
  (224 <= b0)%N -> (b0 <= 239)%N -> (128 <= b1)%N -> (b1 <= 191)%N ->
  (128 <= b2)%N -> (b2 <= 191)%N ->
  c = ((b0 - 224) * 4096 + (b1 - 128) * 64 + (b2 - 128))%N ->
  (2048 <= c)%N -> is_surrogate c = false ->
  decode_codes ([b0; b1; b2] ++ t) = push c (decode_codes t).
Proof.
  intros H1 H2 H3 H4 H5 H6 -> H7 H8. cbn [app decode_codes]. cbv zeta.
  rewrite (@is_cont_true _ H3 H4), (@is_cont_true _ H5 H6), H8.
  destruct (N.ltb_spec b0 128); [lia|].
  destruct (N.leb_spec 194 b0); [|lia].
  destruct (N.leb_spec b0 223); [lia|].
  destruct (N.leb_spec 224 b0); [|lia].
  destruct (N.leb_spec b0 239); [|lia].
  cbn [andb negb].
  apply N.leb_le in H7. rewrite H7. reflexivity.
Qed.

Lemma decode_codes_4 b0 b1 b2 b3 t c :
  (240 <= b0)%N -> (b0 <= 244)%N -> (128 <= b1)%N -> (b1 <= 191)%N ->
  (128 <= b2)%N -> (b2 <= 191)%N -> (128 <= b3)%N -> (b3 <= 191)%N ->
  c = ((b0 - 240) * 262144 + (b1 - 128) * 4096
       + (b2 - 128) * 64 + (b3 - 128))%N ->
  (65536 <= c)%N -> (c <= 1114111)%N ->
  decode_codes ([b0; b1; b2; b3] ++ t) = push c (decode_codes t).
Proof.
  intros H1 H2 H3 H4 H5 H6 H7 H8 -> H9 H10. cbn [app decode_codes]. cbv zeta.
  rewrite (@is_cont_true _ H3 H4), (@is_cont_true _ H5 H6), (@is_cont_true _ H7 H8).
  destruct (N.ltb_spec b0 128); [lia|].
  destruct (N.leb_spec 194 b0); [|lia].
  destruct (N.leb_spec b0 223); [lia|].
  destruct (N.leb_spec 224 b0); [|lia].
  destruct (N.leb_spec b0 239); [lia|].
  destruct (N.leb_spec 240 b0); [|lia].
  destruct (N.leb_spec b0 244); [|lia].
  cbn [andb].
  apply N.leb_le in H9, H10. rewrite H9, H10. reflexivity.
Qed.

Lemma some_eq (A : Type) (x y : A) : Some x = Some y -> x = y.
Proof. intros [= ->]. reflexivity. Qed.

Lemma encode_code_decode c l rest :
  encode_code c = Some l ->
  decode_codes (l ++ rest) = push c (decode_codes rest).
Proof.
  unfold encode_code.
  change 4096%N with (64 * 64)%N. change 262144%N with (64 * 64 * 64)%N.
  rewrite <- !N.Div0.div_div.
  destruct (digits64 c) as [Hc Hr1].
  destruct (digits64 (c / 64)) as [Hq1 Hr2].
  destruct (digits64 (c / 64 / 64)) as [Hq2 Hr3].
  revert Hc Hr1 Hq1 Hr2 Hq2 Hr3.
  generalize (c / 64 / 64 / 64)%N (c / 64 / 64 mod 64)%N. intros q3 r3.
  generalize (c / 64 / 64)%N. intros q2.
  generalize (c / 64 mod 64)%N. intros r2.
  generalize (c / 64)%N (c mod 64)%N. intros q1 r1.
  intros Hc Hr1 Hq1 Hr2 Hq2 Hr3.
  destruct (N.ltb_spec c 128).
  { intros E; apply some_eq in E; subst l. apply decode_codes_1; assumption. }
  destruct (N.ltb_spec c 2048).
  { intros E; apply some_eq in E; subst l. rewrite decode_codes_2 by lia. f_equal. lia. }
  destruct (is_surrogate c) eqn:Hs; [discriminate|].
  destruct (N.ltb_spec c 65536).
  { intros E; apply some_eq in E; subst l. apply decode_codes_3; try lia. exact Hs. }
  destruct (N.leb_spec c 1114111); [|discriminate].
  intros E; apply some_eq in E; subst l. apply decode_codes_4; lia.
Qed.

Lemma bytes_of_codes_values l b :
  bytes_of_codes l = Some b -> map Byte.to_N b = l.
Proof.
  revert b; induction l as [|n l IH]; intros b; cbn [bytes_of_codes].
  - intros E; apply some_eq in E; subst b. reflexivity.
  - destruct (Byte.of_N n) as [x|] eqn:Hx; [|discriminate].
    destruct (bytes_of_codes l) as [bs|]; [|discriminate].
    intros E; apply some_eq in E; subst b. cbn [map].
    rewrite (IH bs eq_refl). f_equal. now apply Byte.to_of_N.
Qed.

Lemma utf8_encode_decode text b :
  utf8_encode text = Some b -> utf8_decode b = Some text.
Proof.
  unfold utf8_decode.
  revert b; induction text as [|c t IH]; intros b; cbn [utf8_encode].
  - intros E; apply some_eq in E; subst b. reflexivity.
  - destruct (encode_code c) as [l|] eqn:Hl; [|discriminate].
    destruct (utf8_encode t) as [bs|]; [|discriminate].
    destruct (bytes_of_codes l) as [x|] eqn:Hx; [|discriminate].
    intros E; apply some_eq in E; subst b.
    rewrite map_app, (bytes_of_codes_values Hx), (encode_code_decode _ Hl).
    rewrite (IH bs eq_refl). reflexivity.
Qed.

Lemma is_cont_bounds b : is_cont b = true -> (128 <= b /\ b <= 191)%N.
Proof.
  unfold is_cont. intros H. apply andb_true_iff in H as [H1 H2].
  apply N.leb_le in H1, H2. now split.
Qed.

Lemma push_some c r text :
  push c r = Some text -> exists t, r = Some t /\ text = c :: t.
Proof.
  destruct r as [t|]; [|discriminate]. cbn [push].
  intros [= <-]. now exists t.
Qed.

Lemma bytes_of_codes_bytes l : bytes_of_codes (map Byte.to_N l) = Some l.
Proof.
  induction l as [|x l IH]; [reflexivity|].
  cbn [map bytes_of_codes]. now rewrite Byte.of_to_N, IH.
Qed.

Lemma div64 q r : (r < 64)%N -> ((64 * q + r) / 64 = q /\ (64 * q + r) mod 64 = r)%N.
Proof.
  intros Hr. split.
  - symmetry. now apply (N.div_unique (64 * q + r) 64 q r).
  - symmetry. now apply (N.mod_unique (64 * q + r) 64 q r).
Qed.

Lemma encode_code_2 b0 b1 :
  (194 <= b0)%N -> (b0 <= 223)%N -> (128 <= b1)%N -> (b1 <= 191)%N ->
  encode_code ((b0 - 192) * 64 + (b1 - 128)) = Some [b0; b1].
Proof.
  intros H1 H2 H3 H4.
  assert (Hr : (b1 - 128 < 64)%N) by lia.
  destruct (div64 (b0 - 192) Hr) as [Hq Hm].
  replace ((b0 - 192) * 64 + (b1 - 128))%N with (64 * (b0 - 192) + (b1 - 128))%N by lia.
  unfold encode_code. rewrite Hq, Hm.
  destruct (N.ltb_spec (64 * (b0 - 192) + (b1 - 128)) 128); [lia|].
  destruct (N.ltb_spec (64 * (b0 - 192) + (b1 - 128)) 2048); [|lia].
  do 3 f_equal; lia.
Qed.

Lemma encode_code_3 b0 b1 b2 c :
  (224 <= b0)%N -> (b0 <= 239)%N -> (128 <= b1)%N -> (b1 <= 191)%N ->
  (128 <= b2)%N -> (b2 <= 191)%N ->
  c = ((b0 - 224) * 4096 + (b1 - 128) * 64 + (b2 - 128))%N ->
  (2048 <= c)%N -> is_surrogate c = false ->
  encode_code c = Some [b0; b1; b2].
Proof.
  intros H1 H2 H3 H4 H5 H6 Hc H7 H8.
  assert (Hr2 : (b2 - 128 < 64)%N) by lia.
  assert (Hr1 : (b1 - 128 < 64)%N) by lia.
  destruct (div64 (64 * (b0 - 224) + (b1 - 128)) Hr2) as [Hq Hm].
  destruct (div64 (b0 - 224) Hr1) as [Hq' Hm'].
  assert (Hc' : c = (64 * (64 * (b0 - 224) + (b1 - 128)) + (b2 - 128))%N) by lia.
  unfold encode_code. rewrite H8.
  change 4096%N with (64 * 64)%N. rewrite <- !N.Div0.div_div.
  remember (c / 64)%N as d1 eqn:Hd1. remember (c mod 64)%N as m1 eqn:Hm1.
  rewrite Hc' in Hd1, Hm1. rewrite Hq in Hd1. rewrite Hm in Hm1. subst d1 m1.
  rewrite Hq', Hm'.
  destruct (N.ltb_spec c 128); [lia|].
  destruct (N.ltb_spec c 2048); [lia|].
  destruct (N.ltb_spec c 65536); [|lia].
  do 2 f_equal; [lia|]. f_equal; [lia|]. f_equal. lia.
Qed.

Lemma encode_code_4 b0 b1 b2 b3 c :
  (240 <= b0)%N -> (b0 <= 244)%N -> (128 <= b1)%N -> (b1 <= 191)%N ->
  (128 <= b2)%N -> (b2 <= 191)%N -> (128 <= b3)%N -> (b3 <= 191)%N ->
  c = ((b0 - 240) * 262144 + (b1 - 128) * 4096
       + (b2 - 128) * 64 + (b3 - 128))%N ->
  (65536 <= c)%N -> (c <= 1114111)%N ->
  encode_code c = Some [b0; b1; b2; b3].
Proof.
  intros H1 H2 H3 H4 H5 H6 H7 H8 Hc H9 H10.
  assert (Hr3 : (b3 - 128 < 64)%N) by lia.
  assert (Hr2 : (b2 - 128 < 64)%N) by lia.
  assert (Hr1 : (b1 - 128 < 64)%N) by lia.
  destruct (div64 (64 * (64 * (b0 - 240) + (b1 - 128)) + (b2 - 128)) Hr3) as [Hq Hm].
  destruct (div64 (64 * (b0 - 240) + (b1 - 128)) Hr2) as [Hq' Hm'].
  destruct (div64 (b0 - 240) Hr1) as [Hq'' Hm''].
  assert (Hc' : c = (64 * (64 * (64 * (b0 - 240) + (b1 - 128)) + (b2 - 128))
                     + (b3 - 128))%N) by lia.
  assert (Hs : is_surrogate c = false).
  { unfold is_surrogate. destruct (N.leb_spec c 57343); [lia|].
    now rewrite andb_false_r. }
  unfold encode_code. rewrite Hs.
  change 262144%N with (64 * 64 * 64)%N. change 4096%N with (64 * 64)%N.
  rewrite <- !N.Div0.div_div.
  remember (c / 64)%N as d1 eqn:Hd1. remember (c mod 64)%N as m1 eqn:Hm1.
  rewrite Hc' in Hd1, Hm1. rewrite Hq in Hd1. rewrite Hm in Hm1. subst d1 m1.
  rewrite Hq', Hm', Hq'', Hm''.
  destruct (N.ltb_spec c 128); [lia|].
  destruct (N.ltb_spec c 2048); [lia|].
  destruct (N.ltb_spec c 65536); [lia|].
  destruct (N.leb_spec c 1114111); [|lia].
  do 2 f_equal; [lia|]. f_equal; [lia|]. f_equal; [lia|]. f_equal. lia.
Qed.

Lemma range_bounds lo hi b :
  N.leb lo b && N.leb b hi = true -> (lo <= b /\ b <= hi)%N.
Proof.
  intros H. apply andb_true_iff in H as [H1 H2].
  apply N.leb_le in H1, H2. now split.
Qed.

Lemma utf8_encode_cons c t l bs x :
  encode_code c = Some l -> utf8_encode t = Some bs ->
  bytes_of_codes l = Some x ->
  utf8_encode (c :: t) = Some (x ++ bs).
Proof. intros Hl Ht Hx. cbn [utf8_encode]. now rewrite Hl, Ht, Hx. Qed.

Lemma decode_codes_encode n :
  forall bin text,
    List.length bin <= n ->
    decode_codes (map Byte.to_N bin) = Some text ->
    utf8_encode text = Some bin.
Proof.
  induction n as [|n IH]; intros bin text Hn.
  { destruct bin; [|simpl in Hn; lia]. intros [= <-]. reflexivity. }
  destruct bin as [|x0 bin]; [intros [= <-]; reflexivity|].
  cbn [map decode_codes]. simpl in Hn.
  destruct (N.ltb_spec (Byte.to_N x0) 128) as [H0|H0].
  { intros H. apply push_some in H as (t & Ht & ->).
    apply IH in Ht; [|lia].
    apply (@utf8_encode_cons _ _ [Byte.to_N x0] bin [x0]); [|assumption|].
    - unfold encode_code. destruct (N.ltb_spec (Byte.to_N x0) 128); [reflexivity|lia].
    - exact (bytes_of_codes_bytes [x0]). }
  destruct (N.leb 194 (Byte.to_N x0) && N.leb (Byte.to_N x0) 223) eqn:H2.
  { apply range_bounds in H2 as [Ha Hb].
    destruct bin as [|x1 bin]; [discriminate|]. cbn [map]. simpl in Hn.
    destruct (is_cont (Byte.to_N x1)) eqn:H1; [|discriminate].
    apply is_cont_bounds in H1 as [Hc Hd].
    intros H. apply push_some in H as (t & Ht & ->).
    apply IH in Ht; [|lia].
    apply (@utf8_encode_cons _ _ [Byte.to_N x0; Byte.to_N x1] bin [x0; x1]);
      [|assumption|].
    - now apply encode_code_2.
    - exact (bytes_of_codes_bytes [x0; x1]). }
  destruct (N.leb 224 (Byte.to_N x0) && N.leb (Byte.to_N x0) 239) eqn:H3.
  { apply range_bounds in H3 as [Ha Hb].
    destruct bin as [|x1 [|x2 bin]]; try discriminate. cbn [map]. simpl in Hn.
    cbv zeta.
    destruct (is_cont (Byte.to_N x1)) eqn:H1; [|discriminate].
    destruct (is_cont (Byte.to_N x2)) eqn:H1'; [|discriminate].
    apply is_cont_bounds in H1 as [Hc Hd].
    apply is_cont_bounds in H1' as [Hc' Hd'].
    cbn [andb].
    match goal with |- context [N.leb 2048 ?c] =>
      remember c as cp eqn:Hcp; destruct (N.leb_spec 2048 cp) as [Hlow|Hlow]
    end; [|discriminate].
    destruct (is_surrogate cp) eqn:Hs; [discriminate|]. cbn [andb negb].
    intros H. apply push_some in H as (t & Ht & ->).
    apply IH in Ht; [|lia].
    apply (@utf8_encode_cons _ _ [Byte.to_N x0; Byte.to_N x1; Byte.to_N x2] bin
             [x0; x1; x2]); [|assumption|].
    - now apply encode_code_3.
    - exact (bytes_of_codes_bytes [x0; x1; x2]). }
  destruct (N.leb 240 (Byte.to_N x0) && N.leb (Byte.to_N x0) 244) eqn:H4;
    [|discriminate].
  apply range_bounds in H4 as [Ha Hb].
  destruct bin as [|x1 [|x2 [|x3 bin]]]; try discriminate. cbn [map]. simpl in Hn.
  cbv zeta.
  destruct (is_cont (Byte.to_N x1)) eqn:H1; [|discriminate].
  destruct (is_cont (Byte.to_N x2)) eqn:H1'; [|discriminate].
  destruct (is_cont (Byte.to_N x3)) eqn:H1''; [|discriminate].
  apply is_cont_bounds in H1 as [Hc Hd].
  apply is_cont_bounds in H1' as [Hc' Hd'].
  apply is_cont_bounds in H1'' as [Hc'' Hd''].
  cbn [andb].
  match goal with |- context [N.leb 65536 ?c] =>
    remember c as cp eqn:Hcp; destruct (N.leb_spec 65536 cp) as [Hlow|Hlow]
  end; [|discriminate].
  destruct (N.leb_spec cp 1114111) as [Hhigh|Hhigh]; [|discriminate].
  cbn [andb].
  intros H. apply push_some in H as (t & Ht & ->).
  apply IH in Ht; [|lia].
  apply (@utf8_encode_cons _ _
           [Byte.to_N x0; Byte.to_N x1; Byte.to_N x2; Byte.to_N x3] bin
           [x0; x1; x2; x3]); [|assumption|].
  - now apply encode_code_4.
  - exact (bytes_of_codes_bytes [x0; x1; x2; x3]).
Qed.

Lemma utf8_decode_encode bin text :
  utf8_decode bin = Some text -> utf8_encode text = Some bin.
Proof. apply (@decode_codes_encode (List.length bin)). apply Nat.le_refl. Qed.

(** X1: The UTF-8 codec the loader reads and writes with is a bijection
    between the texts that have an encoding and the byte strings that
    decode. *)
Theorem utf8_codec_round_trip text bin :
  utf8_encode text = Some bin <-> utf8_decode bin = Some text.
Proof.
  split; [apply utf8_encode_decode|apply utf8_decode_encode].
Qed.

End Utf8.

(* ------------------------------------------------------------------ *)
(** ** What no step of the script does *)

Section Frame.
Context {PF : PyFloat} {H : Host}.
Local Open Scope Z_scope.

Lemma extends_same_files fm st st' evs :
  formatting_errors st <= formatting_errors st' ->
  validation_errors st <= validation_errors st' ->
  trace st' = trace st ++ evs ->
  files st' = files st ->
  extends fm st st'.
Proof.
  intros Hf Hv Ht Hfs. split; [assumption|]. split; [assumption|].
  split; [now exists evs|]. split; [|intros _; assumption].
  intros p. now rewrite Hfs.
Qed.

Lemma extends_refl fm st : extends fm st st.
Proof.
  apply (@extends_same_files fm st st []); try apply Z.le_refl; try reflexivity.
  now rewrite List.app_nil_r.
Qed.

Lemma extends_trans fm st1 st2 st3 :
  extends fm st1 st2 -> extends fm st2 st3 -> extends fm st1 st3.
Proof.
  intros (Hf & Hv & (evs & Ht) & Hz & Hn) (Hf' & Hv' & (evs' & Ht') & Hz' & Hn').
  split; [eapply Z.le_trans; eassumption|].
  split; [eapply Z.le_trans; eassumption|].
  split; [|split].
  - exists (evs ++ evs'). rewrite Ht', Ht. now rewrite <- app_assoc.
  - intros p. now rewrite Hz', Hz.
  - intros Hfix. now rewrite (Hn' Hfix), (Hn Hfix).
Qed.

Lemma steady_ret A fm (a : A) : steady fm (ret a).
Proof. intros st. split; [apply extends_refl|exact I]. Qed.

Lemma steady_raise A fm e :
  (forall n, e <> SystemExit (ExitCode n)) -> steady fm (raise (A:=A) e).
Proof.
  intros He st. split; [apply extends_refl|].
  cbn. destruct e as [[n|m]| | | | | | | | |]; try exact I.
  exact (He n eq_refl).
Qed.

Lemma steady_bind_returned A B fm (m : M A) (k : A -> M B) :
  steady fm m ->
  (forall a st st', m st = (Returns a, st') -> steady fm (k a)) ->
  steady fm (bind m k).
Proof.
  intros Hm Hk st. unfold bind.
  destruct (Hm st) as [He Hq].
  destruct (m st) as [[a|e] st1] eqn:Hrun; cbn in *.
  - destruct (Hk a st st1 Hrun st1) as [He' Hq']. split; [|assumption].
    eapply extends_trans; eassumption.
  - now split.
Qed.

Lemma steady_bind A B fm (m : M A) (k : A -> M B) :
  steady fm m -> (forall a, steady fm (k a)) -> steady fm (bind m k).
Proof. intros Hm Hk. apply steady_bind_returned; [assumption|auto]. Qed.

Lemma steady_try A fm (body : M A) caught handler :
  steady fm body -> (forall e, steady fm (handler e)) ->
  steady fm (try_except body caught handler).
Proof.
  intros Hm Hk st. unfold try_except.
  destruct (Hm st) as [He Hq].
  destruct (body st) as [[a|e] st1]; cbn in *.
  - now split.
  - destruct (caught e).
    + destruct (Hk e st1) as [He' Hq']. split; [|assumption].
      eapply extends_trans; eassumption.
    + now split.
Qed.

Lemma steady_get fm : steady fm get.
Proof. intros st. split; [apply extends_refl|exact I]. Qed.

Lemma steady_emit fm ev : steady fm (emit ev).
Proof.
  intros st. split; [|exact I]. cbn.
  apply (@extends_same_files fm _ _ [ev]); cbn; try apply Z.le_refl; reflexivity.
Qed.

Lemma steady_incr_formatting fm : steady fm incr_formatting_errors.
Proof.
  intros st. split; [|exact I]. cbn.
  apply (@extends_same_files fm _ _ []); cbn; try lia; try reflexivity.
  now rewrite List.app_nil_r.
Qed.

Lemma steady_incr_validation fm : steady fm incr_validation_errors.
Proof.
  intros st. split; [|exact I]. cbn.
  apply (@extends_same_files fm _ _ []); cbn; try lia; try reflexivity.
  now rewrite List.app_nil_r.
Qed.

Lemma steady_verbose_print fm (args : Namespace) text level :
  steady fm (verbose_print args text level).
Proof.
  intros st. rewrite verbose_print_eq. split; [|exact I]. cbn.
  eapply extends_same_files; cbn; try apply Z.le_refl; reflexivity.
Qed.

Lemma steady_read_file fm path : steady fm (read_file path).
Proof.
  intros st. unfold read_file.
  destruct (files st path) as [[[|] w c|r]|]; cbn;
    (split; [apply extends_refl|exact I]).
Qed.

Lemma steady_py_getitem fm v key : steady fm (py_getitem v key).
Proof.
  unfold py_getitem. destruct v; try (apply steady_raise; discriminate).
  destruct (lookup key members); [apply steady_ret|apply steady_raise; discriminate].
Qed.

Lemma steady_py_get fm v key : steady fm (py_get v key).
Proof.
  unfold py_get. destruct v; try (apply steady_raise; discriminate).
  destruct (lookup key members); apply steady_ret.
Qed.

Lemma steady_py_iter fm v : steady fm (py_iter v).
Proof.
  unfold py_iter.
  destruct v; try (apply steady_raise; discriminate); apply steady_ret.
Qed.

Lemma steady_for_each A fm (l : list A) body :
  (forall x, steady fm (body x)) -> steady fm (for_each l body).
Proof.
  intros Hb. induction l as [|x l IH]; cbn [for_each].
  - apply steady_ret.
  - apply steady_bind; [apply Hb|intros _; exact IH].
Qed.

Lemma steady_for_fold A B fm (l : list A) (acc : B) body :
  (forall b x, steady fm (body b x)) -> steady fm (for_fold l acc body).
Proof.
  intros Hb. revert acc. induction l as [|x l IH]; intros acc; cbn [for_fold].
  - apply steady_ret.
  - apply steady_bind; [apply Hb|intros b; apply IH].
Qed.

Lemma frozen_set_file fs path r c c' p :
  fs path = Some (RegularFile r true c) ->
  frozen (set_file fs path (RegularFile r true c') p) = frozen (fs p).
Proof.
  intros Hfile. unfold set_file.
  destruct (str_eqb p path) eqn:Hp; [|reflexivity].
  apply str_eqb_spec in Hp. subst p. now rewrite Hfile.
Qed.

(** The rewrite of lines 78 to 80: the file is truncated, then written. *)
Lemma steady_rewrite path text :
  steady true (bind (open_wb path)
                 (fun _ => bind (encode_utf8 text) (fun b => file_write path b))).
Proof.
  intros st. unfold bind, open_wb.
  destruct (files st path) as [[r [|] c|r]|] eqn:Hfile;
    try (split; [apply extends_refl|exact I]).
  unfold put_files, encode_utf8. cbn.
  destruct (utf8_encode text) as [b|]; cbn.
  - unfold file_write. cbn. rewrite set_file_same. cbn. split; [|exact I].
    split; [apply Z.le_refl|]. split; [apply Z.le_refl|].
    split; [exists []; now rewrite List.app_nil_r|].
    split; [|discriminate].
    intros p. cbn. unfold set_file at 1.
    destruct (str_eqb p path) eqn:Hp.
    + apply str_eqb_spec in Hp. subst p. now rewrite Hfile.
    + unfold set_file. now rewrite Hp.
  - split; [|exact I].
    split; [apply Z.le_refl|]. split; [apply Z.le_refl|].
    split; [exists []; now rewrite List.app_nil_r|].
    split; [|discriminate].
    intros p. cbn. exact (frozen_set_file [] p Hfile).
Qed.

Ltac steady_step :=
  first
    [ apply steady_ret | apply steady_get | apply steady_emit
    | apply steady_incr_formatting | apply steady_incr_validation
    | apply steady_verbose_print | apply steady_read_file
    | apply steady_py_getitem | apply steady_py_get | apply steady_py_iter
    | apply steady_raise; discriminate
    | apply steady_bind; [|intros ?]
    | apply steady_try; [|intros ?]
    | apply steady_for_each; intros ?
    | apply steady_for_fold; intros ? ?
    | match goal with
      | |- steady _ (if ?b then _ else _) => destruct b
      | |- steady _ (match ?x with _ => _ end) => destruct x
      end ].

Lemma steady_check_dir_access fm path : steady fm (check_dir_access path).
Proof. unfold check_dir_access, sys_exit. repeat steady_step. Qed.

Lemma steady_check_file_access fm path : steady fm (check_file_access path).
Proof. unfold check_file_access, sys_exit. repeat steady_step. Qed.

Lemma steady_check_json_schema fm (args : Namespace) data path :
  steady fm (check_json_schema args data path).
Proof.
  unfold check_json_schema, Draft4Validator_check_schema, print_exn.
  repeat steady_step.
Qed.

Lemma steady_jsonschema_validate fm instance schema :
  steady fm (jsonschema_validate instance schema).
Proof. unfold jsonschema_validate. repeat steady_step. Qed.

Lemma steady_custom_card_check fm (args : Namespace) card pack_code :
  steady fm (custom_card_check args card pack_code).
Proof. unfold custom_card_check. repeat steady_step. Qed.

Lemma steady_codes_of fm cycles : steady fm (codes_of cycles).
Proof.
  induction cycles as [|c cs IH]; cbn [codes_of]; [apply steady_ret|].
  apply steady_bind; [apply steady_py_getitem|intros x].
  apply steady_bind; [exact IH|intros xs]. apply steady_ret.
Qed.

Lemma steady_custom_pack_check fm (args : Namespace) pack cycles_data :
  steady fm (custom_pack_check args pack cycles_data).
Proof.
  unfold custom_pack_check.
  apply steady_bind; [apply steady_py_getitem|intros cycle_code].
  apply steady_bind; [apply steady_py_iter|intros cycles].
  apply steady_bind; [apply steady_codes_of|intros codes].
  repeat steady_step.
Qed.

Lemma steady_load_json_file (args : Namespace) path :
  steady (fix_formatting args) (load_json_file args path).
Proof.
  unfold load_json_file, decode_utf8, json_loads, print_exn.
  apply steady_bind.
  { repeat steady_step. }
  intros [[raw_data json_data]|]; [|apply steady_ret].
  apply steady_bind; [apply steady_verbose_print|intros _].
  apply steady_bind; [|intros _; apply steady_ret].
  cbv zeta.
  destruct (negb (str_eqb (format_json json_data) raw_data)); [|apply steady_ret].
  apply steady_bind; [apply steady_verbose_print|intros _].
  apply steady_bind; [apply steady_incr_formatting|intros _].
  destruct (fix_formatting args); cbn [andb]; [|apply steady_ret].
  destruct (Nat.ltb 0 (List.length (format_json json_data))); [|apply steady_ret].
  apply steady_bind; [apply steady_verbose_print|intros _].
  apply steady_try; [apply steady_rewrite|intros e].
  repeat steady_step.
Qed.

Lemma steady_validate_card (args : Namespace) card card_schema pack_code :
  steady (fix_formatting args) (validate_card args card card_schema pack_code).
Proof.
  unfold validate_card, print_exn.
  apply steady_try; [|intros e; repeat steady_step].
  apply steady_bind; [apply steady_py_getitem|intros name].
  apply steady_bind; [apply steady_verbose_print|intros _].
  apply steady_bind; [apply steady_jsonschema_validate|intros _].
  apply steady_bind; [apply steady_custom_card_check|intros _].
  apply steady_verbose_print.
Qed.

Lemma steady_validate_cards (args : Namespace) packs_data :
  steady (fix_formatting args) (validate_cards args packs_data).
Proof.
  unfold validate_cards. cbv zeta.
  apply steady_bind; [apply steady_load_json_file|intros CARD_SCHEMA].
  destruct (negb (py_truthy CARD_SCHEMA)); [apply steady_ret|].
  apply steady_bind; [apply steady_check_json_schema|intros ok].
  destruct (negb ok); [apply steady_ret|].
  apply steady_bind; [apply steady_py_iter|intros packs].
  apply steady_for_each. intros p.
  apply steady_bind; [apply steady_py_getitem|intros name].
  apply steady_bind; [apply steady_verbose_print|intros _].
  apply steady_bind; [apply steady_py_getitem|intros code].
  apply steady_bind; [apply steady_load_json_file|intros pack_data].
  destruct (negb (py_truthy pack_data)); [apply steady_ret|].
  apply steady_bind; [apply steady_py_iter|intros cards].
  apply steady_for_each. intros card.
  apply steady_bind; [apply steady_py_getitem|intros code'].
  apply steady_validate_card.
Qed.

Lemma steady_validate_cycle fm (args : Namespace) schema retval c :
  steady fm (validate_cycle args schema retval c).
Proof.
  unfold validate_cycle, print_exn.
  apply steady_try; [|intros e; repeat steady_step].
  apply steady_bind; [apply steady_py_get|intros name].
  apply steady_bind; [apply steady_verbose_print|intros _].
  apply steady_bind; [apply steady_jsonschema_validate|intros _].
  repeat steady_step.
Qed.

Lemma steady_validate_pack fm (args : Namespace) schema cycles_data retval p :
  steady fm (validate_pack args schema cycles_data retval p).
Proof.
  unfold validate_pack, print_exn.
  apply steady_try; [|intros e; repeat steady_step].
  apply steady_bind; [apply steady_py_get|intros name].
  apply steady_bind; [apply steady_verbose_print|intros _].
  apply steady_bind; [apply steady_jsonschema_validate|intros _].
  apply steady_bind; [apply steady_custom_pack_check|intros _].
  repeat steady_step.
Qed.

Lemma steady_validate_cycles (args : Namespace) cycles_data :
  steady (fix_formatting args) (validate_cycles args cycles_data).
Proof.
  unfold validate_cycles. cbv zeta.
  apply steady_bind; [apply steady_verbose_print|intros _].
  apply steady_bind; [apply steady_load_json_file|intros CYCLE_SCHEMA].
  destruct (negb (is_list cycles_data)); [repeat steady_step|].
  destruct (negb (py_truthy CYCLE_SCHEMA)); [apply steady_ret|].
  apply steady_bind; [apply steady_check_json_schema|intros ok].
  destruct (negb ok); [apply steady_ret|].
  apply steady_bind; [apply steady_py_iter|intros cycles].
  apply steady_for_fold. intros b x. apply steady_validate_cycle.
Qed.

Lemma steady_validate_packs (args : Namespace) packs_data cycles_data :
  steady (fix_formatting args) (validate_packs args packs_data cycles_data).
Proof.
  unfold validate_packs. cbv zeta.
  apply steady_bind; [apply steady_verbose_print|intros _].
  apply steady_bind; [apply steady_load_json_file|intros PACK_SCHEMA].
  destruct (negb (is_list packs_data)); [repeat steady_step|].
  destruct (negb (py_truthy PACK_SCHEMA)); [apply steady_ret|].
  apply steady_bind; [apply steady_check_json_schema|intros ok].
  destruct (negb ok); [apply steady_ret|].
  apply steady_bind; [apply steady_py_iter|intros packs].
  apply steady_for_fold. intros b x. apply steady_validate_pack.
Qed.

Lemma steady_load_cycles (args : Namespace) :
  steady (fix_formatting args) (load_cycles args).
Proof.
  unfold load_cycles. cbv zeta.
  apply steady_bind; [apply steady_verbose_print|intros _].
  apply steady_bind; [apply steady_load_json_file|intros cycles_data].
  apply steady_bind; [apply steady_validate_cycles|intros ok].
  destruct (negb ok); apply steady_ret.
Qed.

Lemma steady_load_pack_index (args : Namespace) cycles_data :
  steady (fix_formatting args) (load_pack_index args cycles_data).
Proof.
  unfold load_pack_index. cbv zeta.
  apply steady_bind; [apply steady_verbose_print|intros _].
  apply steady_bind; [apply steady_load_json_file|intros packs_data].
  apply steady_bind; [apply steady_validate_packs|intros ok].
  destruct (negb ok); [apply steady_ret|].
  apply steady_bind; [apply steady_py_iter|intros packs].
  apply steady_bind; [|intros _; apply steady_ret].
  apply steady_for_each. intros p.
  apply steady_bind; [apply steady_py_getitem|intros code].
  apply steady_check_file_access.
Qed.

Lemma steady_parse_commandline fm (raw : RawNamespace) :
  steady fm (parse_commandline raw).
Proof.
  unfold parse_commandline. cbv zeta.
  repeat (apply steady_bind; [apply steady_check_dir_access|intros _]).
  apply steady_ret.
Qed.

Lemma fix_formatting_parsed (raw : RawNamespace) st args st' :
  parse_commandline raw st = (Returns args, st') ->
  fix_formatting args = raw_fix_formatting raw.
Proof.
  unfold parse_commandline, bind. cbv zeta.
  repeat match goal with
         | |- context [check_dir_access ?p ?s] =>
             destruct (check_dir_access p s) as [[[]|?] ?]; try discriminate
         end.
  intros [= <- _]. reflexivity.
Qed.

(** The three stages of [main], after the counters are reset. *)
Lemma steady_stages (raw : RawNamespace) :
  steady (raw_fix_formatting raw)
    (bind (parse_commandline raw) (fun args =>
     bind (load_cycles args) (fun cycles =>
     bind (load_pack_index args cycles) (fun packs =>
       if py_truthy packs then validate_cards args packs
       else verbose_print args
              (line "Couldn't open packs file correctly, skipping card validation...") 0)))).
Proof.
  apply steady_bind_returned; [apply steady_parse_commandline|].
  intros args st st' Hp. rewrite <- (fix_formatting_parsed Hp).
  apply steady_bind; [apply steady_load_cycles|intros cycles].
  apply steady_bind; [apply steady_load_pack_index|intros packs].
  destruct (py_truthy packs); [apply steady_validate_cards|apply steady_verbose_print].
Qed.

Lemma main_stages_eq (raw : RawNamespace) st :
  main_stages raw st
  = bind (parse_commandline raw) (fun args =>
     bind (load_cycles args) (fun cycles =>
     bind (load_pack_index args cycles) (fun packs =>
       if py_truthy packs then validate_cards args packs
       else verbose_print args
              (line "Couldn't open packs file correctly, skipping card validation...") 0)))
      (mkState 0 0 (files st) (trace st)).
Proof. reflexivity. Qed.

Lemma main_report_eq st :
  main_report st
  = (Raises (SystemExit
               (ExitCode (if Z.eqb (formatting_errors st) 0
                             && Z.eqb (validation_errors st) 0
                          then 0 else 1))),
     mkState (formatting_errors st) (validation_errors st) (files st)
             (trace st ++ [Stdout (summary (formatting_errors st)
                                            (validation_errors st))])).
Proof.
  unfold main_report, bind, get, stdout_write, emit, sys_exit, raise. cbn.
  destruct (Z.eqb (formatting_errors st) 0 && Z.eqb (validation_errors st) 0);
    reflexivity.
Qed.

(** Every run of [main] ends in an exception; the state it leaves extends
    the state with the counters reset, and a status number comes from the
    last lines only. *)
Lemma main_outcome (raw : RawNamespace) st :
  exists e st',
    main raw st = (Raises e, st')
    /\ extends (raw_fix_formatting raw) (mkState 0 0 (files st) (trace st)) st'
    /\ (forall n, e = SystemExit (ExitCode n) ->
        exists st1,
          main_stages raw st = (Returns tt, st1)
          /\ main_report st1 = (Raises e, st')).
Proof.
  unfold main, bind. rewrite main_stages_eq.
  destruct (steady_stages raw (mkState 0 0 (files st) (trace st))) as [He Hq].
  match goal with |- context [match ?run with _ => _ end] =>
    destruct run as [[[]|e] st1] eqn:Hrun
  end; cbn in He, Hq.
  - rewrite main_report_eq. eexists _, _. split; [reflexivity|]. split.
    + eapply extends_trans; [exact He|].
      apply (@extends_same_files _ _ _ [Stdout (summary (formatting_errors st1)
                                                  (validation_errors st1))]);
        cbn; try apply Z.le_refl; reflexivity.
    + intros n Hn. exists st1. split; [reflexivity|apply main_report_eq].
  - exists e, st1. split; [reflexivity|]. split; [assumption|].
    intros n ->. contradiction.
Qed.

(** X2: Without [-f] a run changes no file, whatever the files hold and
    however the run ends. *)
Theorem main_without_fix_writes_nothing (raw : RawNamespace) st :
  raw_fix_formatting raw = false ->
  files (snd (main raw st)) = files st.
Proof.
  intros Hfix. destruct (main_outcome raw st) as (e & st' & -> & He & _).
  destruct He as (_ & _ & _ & _ & Hfiles). exact (Hfiles Hfix).
Qed.

(** X3: With or without [-f], a run creates and removes nothing and changes
    no permission; only the content of a writable file can change. *)
Theorem main_keeps_file_tree (raw : RawNamespace) st p :
  frozen (files (snd (main raw st)) p) = frozen (files st p).
Proof.
  destruct (main_outcome raw st) as (e & st' & -> & He & _).
  destruct He as (_ & _ & _ & Hfrozen & _). exact (Hfrozen p).
Qed.



End Frame.

(* ------------------------------------------------------------------ *)
(** ** Every path through the loader *)

Section LoaderCases.
Context {PF : PyFloat} {H : Host}.
Local Open Scope Z_scope.

(** Every path through the loader. *)
Lemma load_json_file_eq (args : Namespace) path st :
  load_json_file args path st
  = match files st path with
    | Some (RegularFile true w content) =>
        let failed e :=
          (Returns JNull,
           mkState (formatting_errors st) (validation_errors st + 1) (files st)
             (trace st ++ [Stdout (path ++ lit ": File is not valid JSON." ++ [NL]);
                           StdoutExn e])) in
        match utf8_decode content with
        | None => failed UnicodeDecodeError
        | Some raw =>
            match loads raw with
            | None => failed JSONDecodeError
            | Some v =>
                let checking :=
                  trace st
                  ++ printed args (path ++ lit ": Checking JSON formatting..." ++ [NL]) 1 in
                let defect :=
                  checking
                  ++ [Stdout (path ++ lit ": File is not correctly formatted JSON."
                              ++ [NL])] in
                let fixing :=
                  defect ++ [Stdout (path ++ lit ": Fixing JSON formatting..." ++ [NL])] in
                if str_eqb (format_json v) raw then
                  (Returns v,
                   mkState (formatting_errors st) (validation_errors st) (files st)
                           checking)
                else if fix_formatting args then
                  if w then
                    match utf8_encode (format_json v) with
                    | Some b =>
                        (Returns v,
                         mkState (formatting_errors st + 1) (validation_errors st)
                           (set_file
                              (set_file (files st) path (RegularFile true true []))
                              path (RegularFile true true b))
                           fixing)
                    | None =>
                        (Raises UnicodeEncodeError,
                         mkState (formatting_errors st + 1) (validation_errors st)
                           (set_file (files st) path (RegularFile true true []))
                           fixing)
                    end
                  else
                    (Returns v,
                     mkState (formatting_errors st + 1) (validation_errors st)
                       (files st)
                       (fixing
                        ++ [Stdout (path ++ lit ": Cannot open file to write." ++ [NL]);
                            StdoutExn OSError]))
                else
                  (Returns v,
                   mkState (formatting_errors st + 1) (validation_errors st)
                           (files st) defect)
            end
        end
    | _ => (Raises OSError, st)
    end.
Proof.
  unfold load_json_file, bind, try_except, read_file, decode_utf8, json_loads.
  destruct (files st path) as [[[|] w content|r]|] eqn:Hfile; try reflexivity.
  cbv zeta.
  destruct (utf8_decode content) as [raw|]; cbn.
  2: { rewrite verbose_print_0. cbn. now rewrite <- app_assoc. }
  destruct (loads raw) as [v|]; cbn.
  2: { rewrite verbose_print_0. cbn. now rewrite <- app_assoc. }
  rewrite verbose_print_eq.
  destruct (str_eqb (format_json v) raw); cbn; [reflexivity|].
  rewrite format_json_length, !verbose_print_0.
  destruct (fix_formatting args); cbn; [|reflexivity].
  rewrite !verbose_print_0.
  unfold open_wb, encode_utf8, file_write, put_files. cbn. rewrite Hfile.
  destruct w; cbn.
  - destruct (utf8_encode (format_json v)) as [b|]; cbn.
    + rewrite set_file_same. cbn. reflexivity.
    + reflexivity.
  - rewrite verbose_print_0. cbn. now rewrite <- !app_assoc.
Qed.

Ltac loader_cases st path :=
  rewrite load_json_file_eq;
  let Hfile := fresh "Hfile" in
  destruct (files st path) as [[[|] ? ?|?]|] eqn:Hfile; cbv zeta;
  repeat match goal with
         | |- context [match utf8_decode ?c with _ => _ end] =>
             let Hdec := fresh "Hdec" in destruct (utf8_decode c) eqn:Hdec
         | |- context [match loads ?r with _ => _ end] =>
             let Hparse := fresh "Hparse" in destruct (loads r) eqn:Hparse
         | |- context [if str_eqb ?a ?b then _ else _] =>
             let Hcanon := fresh "Hcanon" in destruct (str_eqb a b) eqn:Hcanon
         | |- context [if fix_formatting ?a then _ else _] =>
             let Hfix := fresh "Hfix" in destruct (fix_formatting a) eqn:Hfix
         | |- context [if ?w then _ else _] => destruct w
         | |- context [match utf8_encode ?t with _ => _ end] =>
             let Henc := fresh "Henc" in destruct (utf8_encode t) eqn:Henc
         end.

(** X6: One load records at most one defect, and never one of each kind. *)
Theorem load_json_file_at_most_one_defect (args : Namespace) path st :
  let st' := snd (load_json_file args path st) in
  (formatting_errors st' = formatting_errors st
   /\ validation_errors st' = validation_errors st)
  \/ (formatting_errors st' = formatting_errors st + 1
      /\ validation_errors st' = validation_errors st)
  \/ (formatting_errors st' = formatting_errors st
      /\ validation_errors st' = validation_errors st + 1).
Proof.
  loader_cases st path; cbn; tauto.
Qed.



(** X9: What the loader returns is a document whose dicts have distinct
    keys. *)
Theorem load_json_file_returns_wf (args : Namespace) path st v st' :
  load_json_file args path st = (Returns v, st') -> wf_json v.
Proof.
  loader_cases st path; intros [= <- <-]; try exact I;
    eapply loads_wf; eassumption.
Qed.

(** X10: In fix mode a load that returns leaves the file with the canonical
    text of the document, whether it had to rewrite it or not; a second load
    of the file then finds nothing to report and writes nothing. *)
Theorem fix_then_reload_is_clean
    (laws : FloatRoundTrip) (args : Namespace) path st content raw v st1 :
  fix_formatting args = true ->
  files st path = Some (RegularFile true true content) ->
  utf8_decode content = Some raw ->
  loads raw = Some v ->
  load_json_file args path st = (Returns v, st1) ->
  (exists b,
     files st1 path = Some (RegularFile true true b)
     /\ utf8_decode b = Some (format_json v))
  /\ load_json_file args path st1
     = (Returns (norm v),
        mkState (formatting_errors st1) (validation_errors st1) (files st1)
          (trace st1
           ++ printed args (path ++ lit ": Checking JSON formatting..." ++ [NL]) 1)).
Proof.
  intros Hfix Hfile Hdec Hparse Hrun.
  assert (Hwf : wf_json v) by exact (loads_wf Hparse).
  assert (Hback : loads (format_json v) = Some (norm v))
    by exact (loads_format_json laws Hwf).
  assert (Hnorm : format_json (norm v) = format_json v).
  { unfold format_json, dumps. now rewrite (encode_norm laws). }
  assert (Hgoal : exists b,
            files st1 path = Some (RegularFile true true b)
            /\ utf8_decode b = Some (format_json v)).
  { rewrite load_json_file_eq, Hfile, Hdec, Hparse, Hfix in Hrun.
    cbv zeta in Hrun.
    destruct (str_eqb (format_json v) raw) eqn:Hcanon.
    - apply str_eqb_spec in Hcanon. injection Hrun as <-. cbn.
      exists content. split; [assumption|]. now rewrite Hcanon.
    - destruct (utf8_encode (format_json v)) as [b|] eqn:Henc; [|discriminate].
      injection Hrun as <-. cbn. exists b. split; [apply set_file_same|].
      now apply utf8_encode_decode. }
  split; [exact Hgoal|].
  destruct Hgoal as (b & Hfile1 & Hdec1).
  exact (load_json_file_canonical args Hfile1 Hdec1 Hback Hnorm).
Qed.

End LoaderCases.

(* ------------------------------------------------------------------ *)
(** ** The loops over cycles, packs and cards *)

Section Counts.
Context {PF : PyFloat} {H : Host}.
Local Open Scope Z_scope.

Lemma py_getitem_has members key st :
  has_key members key ->
  py_getitem (JObj members) key st = (Returns (field members key), st).
Proof.
  unfold has_key, field. intros Hk.
  destruct (lookup key members) as [x|] eqn:Hx; [|congruence].
  now apply py_getitem_obj.
Qed.
















End Counts.

(* ------------------------------------------------------------------ *)
(** ** The command line, the index files and the hand-over between stages *)

Section Stage.
Context {PF : PyFloat} {H : Host}.
Local Open Scope Z_scope.

Lemma check_dir_access_eq path st :
  check_dir_access path st
  = (if readable_dir (files st) path then Returns tt
     else Raises (SystemExit
                    (ExitMessage
                       (if isdir (files st) path
                        then lit "%s is not a readable directory"
                        else path ++ lit " is not a valid path"))),
     st).
Proof.
  unfold check_dir_access, readable_dir, bind, get, sys_exit, raise, ret.
  destruct (isdir (files st) path); cbn; [|reflexivity].
  destruct (access_R_OK (files st) path); reflexivity.
Qed.

Lemma check_file_access_eq path st :
  check_file_access path st
  = (if readable_file (files st) path then Returns tt
     else Raises (SystemExit
                    (ExitMessage
                       (if isfile (files st) path
                        then lit "%s is not a readable file"
                        else path ++ lit " does not exist"))),
     st).
Proof.
  unfold check_file_access, readable_file, bind, get, sys_exit, raise, ret.
  destruct (isfile (files st) path); cbn; [|reflexivity].
  destruct (access_R_OK (files st) path); reflexivity.
Qed.

(** What [check_dir_access] exits with. *)
Lemma parse_commandline_eq (raw : RawNamespace) st :
  parse_commandline raw st
  = (let complaint p :=
       Raises (SystemExit
                 (ExitMessage
                    (if isdir (files st) p
                     then lit "%s is not a readable directory"
                     else p ++ lit " is not a valid path"))) in
     if readable_dir (files st) (raw_base_path raw) then
       if readable_dir (files st) (schema_dir raw) then
         if readable_dir (files st) (pack_dir raw) then
           Returns (Build_Namespace (raw_fix_formatting raw) (raw_verbose raw)
                      (raw_base_path raw) (pack_dir raw) (schema_dir raw))
         else complaint (pack_dir raw)
       else complaint (schema_dir raw)
     else complaint (raw_base_path raw),
     st).
Proof.
  unfold parse_commandline, bind. cbv zeta. fold (schema_dir raw) (pack_dir raw).
  rewrite !check_dir_access_eq.
  destruct (readable_dir (files st) (raw_base_path raw)); [|reflexivity].
  rewrite ?check_dir_access_eq.
  destruct (readable_dir (files st) (schema_dir raw)); [|reflexivity].
  rewrite ?check_dir_access_eq.
  destruct (readable_dir (files st) (pack_dir raw)); reflexivity.
Qed.

(** X15: [parse_commandline] changes nothing; it returns exactly when the
    base, schema and pack directories are readable directories, with the two
    defaults filled in, and otherwise exits with a message: the path that is
    no directory, or a fixed text that does not name the unreadable
    directory. *)
Theorem parse_commandline_verdict (raw : RawNamespace) st :
  snd (parse_commandline raw st) = st
  /\ match fst (parse_commandline raw st) with
     | Returns args =>
         args = Build_Namespace (raw_fix_formatting raw) (raw_verbose raw)
                  (raw_base_path raw) (pack_dir raw) (schema_dir raw)
         /\ readable_dir (files st) (raw_base_path raw) = true
         /\ readable_dir (files st) (schema_dir raw) = true
         /\ readable_dir (files st) (pack_dir raw) = true
     | Raises e =>
         (readable_dir (files st) (raw_base_path raw)
          && readable_dir (files st) (schema_dir raw)
          && readable_dir (files st) (pack_dir raw) = false)
         /\ (e = SystemExit (ExitMessage (lit "%s is not a readable directory"))
             \/ exists p,
                  In p [raw_base_path raw; schema_dir raw; pack_dir raw]
                  /\ isdir (files st) p = false
                  /\ e = SystemExit (ExitMessage (p ++ lit " is not a valid path")))
     end.
Proof.
  rewrite parse_commandline_eq. cbv zeta.
  destruct (readable_dir (files st) (raw_base_path raw)) eqn:Hb.
  - destruct (readable_dir (files st) (schema_dir raw)) eqn:Hs.
    + destruct (readable_dir (files st) (pack_dir raw)) eqn:Hp.
      * cbn. repeat split.
      * cbn. split; [reflexivity|]. split; [reflexivity|].
        destruct (isdir (files st) (pack_dir raw)) eqn:Hd; [now left|].
        right. exists (pack_dir raw). cbn. auto.
    + cbn. split; [reflexivity|]. split; [reflexivity|].
      destruct (isdir (files st) (schema_dir raw)) eqn:Hd; [now left|].
      right. exists (schema_dir raw). cbn. auto.
  - cbn. split; [reflexivity|]. split; [reflexivity|].
    destruct (isdir (files st) (raw_base_path raw)) eqn:Hd; [now left|].
    right. exists (raw_base_path raw). cbn. auto.
Qed.

(** X16: When one of the three directories is not a readable directory, the
    run ends before anything is loaded: status 1, no output, no summary
    line. *)
Theorem main_bad_directory (raw : RawNamespace) st :
  readable_dir (files st) (raw_base_path raw)
  && readable_dir (files st) (schema_dir raw)
  && readable_dir (files st) (pack_dir raw) = false ->
  exists m,
    main raw st
    = (Raises (SystemExit (ExitMessage m)), mkState 0 0 (files st) (trace st))
    /\ exit_status (SystemExit (ExitMessage m)) = 1.
Proof.
  intros Hbad. unfold main, bind. rewrite main_stages_eq. unfold bind at 1.
  rewrite parse_commandline_eq. cbv zeta. cbn [files].
  destruct (readable_dir (files st) (raw_base_path raw));
    [destruct (readable_dir (files st) (schema_dir raw));
     [destruct (readable_dir (files st) (pack_dir raw)); [discriminate|]|]|];
    eexists; split; reflexivity.
Qed.

Lemma check_pack_files_loop (args : Namespace) items :
  Forall (fun m => has_key m (lit "code")) items ->
  forall st,
    for_each (map JObj items)
      (fun p =>
         bind (py_getitem p (lit "code"))
           (fun code =>
              check_file_access
                (path_join (pack_path args) (py_str code ++ lit ".json")))) st
    = (match find (fun m => negb (readable_file (files st) (pack_file args m))) items with
       | None => Returns tt
       | Some m =>
           Raises (SystemExit
                     (ExitMessage
                        (if isfile (files st) (pack_file args m)
                         then lit "%s is not a readable file"
                         else pack_file args m ++ lit " does not exist")))
       end, st).
Proof.
  intros Hall. induction Hall as [|m items Hcode Hall IH]; intros st.
  - reflexivity.
  - cbn [map for_each find]. unfold bind at 1 2.
    rewrite (py_getitem_has _ Hcode), check_file_access_eq.
    fold (pack_file args m).
    destruct (readable_file (files st) (pack_file args m)); cbn [negb].
    + apply IH.
    + reflexivity.
Qed.

(** X17: When the pack index loads as a list of packs and stage 2 accepts
    it, [load_pack_index] returns it exactly when the file of every pack is
    a readable file; otherwise it exits at the first pack whose file is not,
    with a message, and records no defect. *)
Theorem load_pack_index_checks_pack_files
    (args : Namespace) cycles_data st st1 st2 items :
  load_json_file args (path_join (base_path args) (lit "packs.json"))
    (snd (verbose_print args (line "Loading pack index file...") 1 st))
  = (Returns (JList (map JObj items)), st1) ->
  validate_packs args (JList (map JObj items)) cycles_data st1 = (Returns true, st2) ->
  Forall (fun m => has_key m (lit "code")) items ->
  load_pack_index args cycles_data st
  = (match find (fun m => negb (readable_file (files st2) (pack_file args m))) items with
     | None => Returns (JList (map JObj items))
     | Some m =>
         Raises (SystemExit
                   (ExitMessage
                      (if isfile (files st2) (pack_file args m)
                       then lit "%s is not a readable file"
                       else pack_file args m ++ lit " does not exist")))
     end, st2).
Proof.
  intros Hload Hvalid Hall.
  unfold load_pack_index. cbv zeta. unfold bind at 1.
  destruct (verbose_print args (line "Loading pack index file...") 1 st)
    as [[[]|e] st0] eqn:Hprint;
    [|rewrite verbose_print_eq in Hprint; discriminate].
  cbn [snd] in Hload. unfold bind at 1. rewrite Hload.
  unfold bind at 1. rewrite Hvalid. cbn [negb]. unfold bind at 1.
  cbn [py_iter]. unfold ret at 1. unfold bind at 1.
  rewrite (check_pack_files_loop args Hall).
  destruct (find (fun m => negb (readable_file (files st2) (pack_file args m))) items);
    reflexivity.
Qed.

(** X18: An index that is not a list: once the schema file has been loaded,
    whatever it holds, the stage writes its complaint and returns [False];
    the engine is not called and the stage itself records no defect. *)
Theorem non_list_index_is_rejected
    (args : Namespace) data cycles_data st CYCLE_SCHEMA PACK_SCHEMA st1 st2 :
  is_list data = false ->
  load_json_file args (path_join (schema_path args) (lit "cycle_schema.json"))
    (snd (verbose_print args (line "Validating cycle index file...") 1 st))
  = (Returns CYCLE_SCHEMA, st1) ->
  load_json_file args (path_join (schema_path args) (lit "pack_schema.json"))
    (snd (verbose_print args (line "Validating pack index file...") 1 st))
  = (Returns PACK_SCHEMA, st2) ->
  validate_cycles args data st
  = (Returns false,
     mkState (formatting_errors st1) (validation_errors st1) (files st1)
       (trace st1 ++ [Stdout (line "Insides of cycle index file are not a list!")]))
  /\ validate_packs args data cycles_data st
     = (Returns false,
        mkState (formatting_errors st2) (validation_errors st2) (files st2)
          (trace st2 ++ [Stdout (line "Insides of pack index file are not a list!")])).
Proof.
  intros Hlist Hcycle Hpack. split.
  - unfold validate_cycles. cbv zeta. unfold bind at 1.
    rewrite verbose_print_eq in *. cbn [snd] in Hcycle.
    unfold bind at 1. rewrite Hcycle, Hlist. cbn [negb]. unfold bind.
    rewrite verbose_print_0. reflexivity.
  - unfold validate_packs. cbv zeta. unfold bind at 1.
    rewrite verbose_print_eq in *. cbn [snd] in Hpack.
    unfold bind at 1. rewrite Hpack, Hlist. cbn [negb]. unfold bind.
    rewrite verbose_print_0. reflexivity.
Qed.



(** X21: A cycle index that is missing or unreadable is not a defect: the
    [OSError] of [open] leaves [main]; nothing is counted and no summary
    line is written. *)
Theorem main_unreadable_cycle_index (raw : RawNamespace) st :
  readable_dir (files st) (raw_base_path raw) = true ->
  readable_dir (files st) (schema_dir raw) = true ->
  readable_dir (files st) (pack_dir raw) = true ->
  readable_file (files st) (path_join (raw_base_path raw) (lit "cycles.json")) = false ->
  main raw st
  = (Raises OSError,
     mkState 0 0 (files st)
       (trace st ++ (if Nat.leb 1 (raw_verbose raw)
                     then [Stdout (line "Loading cycle index file...")]
                     else []))).
Proof.
  intros Hb Hs Hp Hfile.
  unfold main, bind. rewrite main_stages_eq. unfold bind at 1.
  rewrite parse_commandline_eq. cbv zeta. cbn [files].
  rewrite Hb, Hs, Hp. unfold bind at 1. unfold load_cycles. cbv zeta.
  unfold bind at 1. rewrite verbose_print_eq. unfold bind at 1.
  rewrite load_json_file_eq. cbn [files base_path].
  unfold readable_file, isfile, access_R_OK in Hfile.
  destruct (files st (path_join (raw_base_path raw) (lit "cycles.json")))
    as [[[|] w c|r]|]; try discriminate; reflexivity.
Qed.

Lemma validate_cycles_true (args : Namespace) data st st' :
  validate_cycles args data st = (Returns true, st') -> is_list data = true.
Proof.
  unfold validate_cycles. cbv zeta. unfold bind at 1.
  rewrite verbose_print_eq. unfold bind at 1.
  destruct (load_json_file args _ _) as [[schema|e] s1]; [|discriminate].
  destruct (is_list data); [reflexivity|]. cbn [negb]. unfold bind.
  rewrite verbose_print_0. discriminate.
Qed.

Lemma validate_packs_true (args : Namespace) data cycles_data st st' :
  validate_packs args data cycles_data st = (Returns true, st') ->
  is_list data = true.
Proof.
  unfold validate_packs. cbv zeta. unfold bind at 1.
  rewrite verbose_print_eq. unfold bind at 1.
  destruct (load_json_file args _ _) as [[schema|e] s1]; [|discriminate].
  destruct (is_list data); [reflexivity|]. cbn [negb]. unfold bind.
  rewrite verbose_print_0. discriminate.
Qed.

(** X22: What [main] passes from one stage to the next, when the stage
    returns, is [None] or a list. *)
Theorem index_loaders_return_list_or_none (args : Namespace) cycles_data st v st' :
  load_cycles args st = (Returns v, st')
  \/ load_pack_index args cycles_data st = (Returns v, st') ->
  v = JNull \/ is_list v = true.
Proof.
  intros [Hrun|Hrun]; revert Hrun.
  - unfold load_cycles. cbv zeta. unfold bind at 1.
    rewrite verbose_print_eq. unfold bind at 1.
    destruct (load_json_file args _ _) as [[d|e] s1]; [|discriminate].
    unfold bind at 1.
    destruct (validate_cycles args d s1) as [[[|]|e] s2] eqn:Hv;
      try discriminate; cbn [negb].
    + intros [= <- _]. right. exact (validate_cycles_true Hv).
    + intros [= <- _]. now left.
  - unfold load_pack_index. cbv zeta. unfold bind at 1.
    rewrite verbose_print_eq. unfold bind at 1.
    destruct (load_json_file args _ _) as [[d|e] s1]; [|discriminate].
    unfold bind at 1.
    destruct (validate_packs args d cycles_data s1) as [[[|]|e] s2] eqn:Hv;
      try discriminate; cbn [negb].
    + unfold bind at 1.
      destruct (py_iter d s2) as [[packs|e] s3]; [|discriminate].
      unfold bind.
      destruct (for_each packs _ s3) as [[[]|e] s4]; [|discriminate].
      intros [= <- _]. right. exact (validate_packs_true Hv).
    + intros [= <- _]. now left.
Qed.


(** X24: A cycle schema or a card schema that parses to a truthy value and
    is not a valid schema stops its stage as an invalid pack schema stops
    stage 2: one validation defect, for the schema, and no cycle or card is
    validated. *)
Theorem invalid_schema_stops_stage
    (args : Namespace) st w content raw schema m data :
  utf8_decode content = Some raw ->
  loads raw = Some schema ->
  rewrite_ok args w schema ->
  py_truthy schema = true ->
  check_schema schema = Some m ->
  (files st (path_join (schema_path args) (lit "cycle_schema.json"))
     = Some (RegularFile true w content) ->
   is_list data = true ->
   exists fs evs,
     validate_cycles args data st
     = (Returns false,
        mkState (formatting_errors st
                 + (if str_eqb (format_json schema) raw then 0 else 1))
                (validation_errors st + 1) fs (trace st ++ evs))
     /\ (forall p s, ~ In (Validate p s) evs)
     /\ In (StdoutExn (SchemaError m)) evs)
  /\ (files st (path_join (schema_path args) (lit "card_schema.json"))
        = Some (RegularFile true w content) ->
      exists fs evs,
        validate_cards args data st
        = (Returns tt,
           mkState (formatting_errors st
                    + (if str_eqb (format_json schema) raw then 0 else 1))
                   (validation_errors st + 1) fs (trace st ++ evs))
        /\ (forall p s, ~ In (Validate p s) evs)
        /\ In (StdoutExn (SchemaError m)) evs).
Proof.
  intros Hdec Hparse Hok Htruthy Hbad. split.
  - intros Hfile Hlist.
    unfold validate_cycles. cbv zeta. unfold bind at 1.
    rewrite verbose_print_eq. unfold bind at 1.
    match goal with |- context [load_json_file args ?p ?s] =>
      destruct (@load_json_file_parsed _ args p s w content raw schema
                  Hfile Hdec Hparse Hok) as (fs & evs & -> & Hevs)
    end.
    rewrite Hlist, Htruthy. cbn [negb]. unfold bind at 1.
    rewrite check_json_schema_run, Hbad. cbn [negb]. unfold ret.
    cbn [formatting_errors validation_errors files trace].
    eexists _, _. rewrite <- !app_assoc. split; [reflexivity|]. split.
    + intros p s Hin. rewrite !in_app_iff in Hin.
      destruct Hin as [Hin | [Hin | Hin]].
      * exact (only_stdout_no_validate (printed_only_stdout _ _ _) Hin).
      * exact (only_stdout_no_validate Hevs Hin).
      * cbn in Hin. intuition discriminate.
    + rewrite !in_app_iff. right. right. right. right. now left.
  - intros Hfile.
    unfold validate_cards. cbv zeta. unfold bind at 1.
    match goal with |- context [load_json_file args ?p ?s] =>
      destruct (@load_json_file_parsed _ args p s w content raw schema
                  Hfile Hdec Hparse Hok) as (fs & evs & -> & Hevs)
    end.
    rewrite Htruthy. cbn [negb]. unfold bind at 1.
    rewrite check_json_schema_run, Hbad. cbn [negb]. unfold ret.
    cbn [formatting_errors validation_errors files trace].
    eexists _, _. rewrite <- !app_assoc. split; [reflexivity|]. split.
    + intros p s Hin. rewrite !in_app_iff in Hin.
      destruct Hin as [Hin | Hin].
      * exact (only_stdout_no_validate Hevs Hin).
      * cbn in Hin. intuition discriminate.
    + rewrite !in_app_iff. right. right. right. now left.
Qed.

End Stage.

(* ------------------------------------------------------------------ *)
(** ** The verbosity *)

Section Verbosity.
Context {PF : PyFloat} {H : Host}.
Local Open Scope Z_scope.








(** A step that reads and changes nothing. *)
Lemma alike_pure A (m : M A) o :
  (forall st, m st = (o, st)) -> alike m m.
Proof. intros Hm st st' Hs. rewrite !Hm. now split. Qed.















Section Arguments.
Variables (args : Namespace) (n : nat).















End Arguments.






End Verbosity.

(* ------------------------------------------------------------------ *)
(** ** A whole run on a canonical repository *)

Section WholeRun.
Context {PF : PyFloat} {H : Host}.
Local Open Scope Z_scope.









End WholeRun.

(* ------------------------------------------------------------------ *)
(** ** The canonical text and the order of keys *)

Section SortedItems.
Context {A : Type}.
Implicit Types (l : list (pystr * A)) (kv : pystr * A).

Lemma str_geb_trans a b c :
  str_ltb b a = false -> str_ltb c b = false -> str_ltb c a = false.
Proof.
  intros Hba Hcb. destruct (str_ltb c a) eqn:Hca; [|reflexivity].
  destruct (str_ltb a b) eqn:Hab.
  - pose proof (str_ltb_trans Hca Hab). congruence.
  - pose proof (str_ltb_total Hab Hba). subst b. congruence.
Qed.

Lemma key_sorted_tail kv l : key_sorted (kv :: l) -> key_sorted l.
Proof. inversion 1; subst; [constructor|assumption]. Qed.

Lemma key_sorted_head kv l :
  key_sorted (kv :: l) -> forall x, In x l -> str_ltb (fst x) (fst kv) = false.
Proof.
  revert kv. induction l as [|kv' l IH]; intros kv Hs x Hin; [destruct Hin|].
  inversion Hs as [| |? ? ? Hle Hs']; subst.
  destruct Hin as [<-|Hin]; [assumption|].
  apply (@str_geb_trans _ (fst kv')); [assumption|]. now apply IH.
Qed.

(** A key-sorted list with distinct keys is determined by its items. *)
Lemma key_sorted_unique l : forall l',
  key_sorted l -> key_sorted l' -> Permutation l l' ->
  NoDup (map fst l) -> l = l'.
Proof.
  induction l as [|a l IH]; intros l' Hs Hs' Hperm Hnd.
  - apply Permutation_nil in Hperm. now subst.
  - destruct l' as [|b l'].
    { apply Permutation_sym, Permutation_nil in Hperm. discriminate. }
    assert (Hab : a = b).
    { assert (Ha : In a (b :: l')) by (eapply Permutation_in; [exact Hperm|now left]).
      assert (Hb : In b (a :: l))
        by (eapply Permutation_in; [apply Permutation_sym; exact Hperm|now left]).
      destruct Ha as [->|Ha]; [reflexivity|].
      destruct Hb as [->|Hb]; [reflexivity|].
      pose proof (key_sorted_head Hs' Ha) as H1.
      pose proof (key_sorted_head Hs Hb) as H2.
      pose proof (str_ltb_total H1 H2) as Hkey.
      inversion Hnd as [|? ? Hnotin _]; subst.
      exfalso. apply Hnotin. rewrite Hkey. now apply in_map. }
    subst b. f_equal. apply IH.
    + now apply key_sorted_tail in Hs.
    + now apply key_sorted_tail in Hs'.
    + now apply Permutation_cons_inv in Hperm.
    + now inversion Hnd.
Qed.

Lemma sort_items_permutation l l' :
  Permutation l l' -> NoDup (map fst l) -> sort_items l = sort_items l'.
Proof.
  intros Hperm Hnd. apply key_sorted_unique.
  - apply sort_items_sorted.
  - apply sort_items_sorted.
  - rewrite !sort_items_perm. exact Hperm.
  - now apply sort_items_nodup.
Qed.

End SortedItems.

Section KeyOrder.
Context {PF : PyFloat}.

(** X27: The canonical text does not depend on the order in which the items
    of a dict were inserted. *)
Theorem format_json_key_order (members members' : list (pystr * json)) :
  Permutation members members' ->
  NoDup (map fst members) ->
  format_json (JObj members) = format_json (JObj members').
Proof.
  intros Hperm Hnd. unfold format_json, dumps. f_equal.
  assert (Hsort : forall level,
            sort_items (map (fun kv => (fst kv, encode level (snd kv))) members)
            = sort_items (map (fun kv => (fst kv, encode level (snd kv))) members')).
  { intros level. apply sort_items_permutation.
    - now apply Permutation_map.
    - now rewrite map_map. }
  destruct members as [|m ms].
  - apply Permutation_nil in Hperm. now subst.
  - destruct members' as [|m' ms'].
    { apply Permutation_sym, Permutation_nil in Hperm. discriminate. }
    cbn [encode]. now rewrite (Hsort 1%nat).
Qed.

(** X28: Two documents have the same canonical text exactly when
    [json.loads] reads it back as the same document. *)
Theorem format_json_determines_document (laws : FloatRoundTrip) (v v' : json) :
  wf_json v -> wf_json v' ->
  format_json v = format_json v' <-> norm v = norm v'.
Proof.
  intros Hwf Hwf'. split.
  - intros Heq.
    pose proof (loads_format_json laws Hwf) as Hv.
    pose proof (loads_format_json laws Hwf') as Hv'.
    rewrite Heq in Hv. congruence.
  - intros Heq. unfold format_json, dumps.
    rewrite <- (encode_norm laws v), <- (encode_norm laws v'). now rewrite Heq.
Qed.

End KeyOrder.

(* ------------------------------------------------------------------ *)
(** ** Runs on concrete repositories *)

Module Scenarios.
Import Sample.
Local Open Scope string_scope.
Local Open Scope list_scope.


Example end_to_end_clean :
  let st := start (repo cycles_text packs_text cards_text) in
  exists st',
    main (raw_args false 0) st = (Raises (SystemExit (ExitCode 0)), st')
    /\ formatting_errors st' = 0%Z /\ validation_errors st' = 0%Z
    /\ stdout_of (trace st') = [summary 0 0].
Proof.
  eexists. split; [vm_compute; reflexivity|]. repeat split.
Qed.

(** The second scenario of the specification: the card file is indented
    by two spaces.  One formatting defect, no validation defect, status 1;
    in fix mode the file holds the canonical text afterwards. *)
Example two_space_indentation :
  let st := start (repo cycles_text packs_text (halve_indent false cards_text)) in
  exists st',
    main (raw_args true 0) st = (Raises (SystemExit (ExitCode 1)), st')
    /\ formatting_errors st' = 1%Z /\ validation_errors st' = 0%Z
    /\ files st' (lit "repo/pack/core.json")
       = Some (RegularFile true true (bytes_of cards_text))
    /\ stdout_of (trace st')
       = [lit "repo/pack/core.json: File is not correctly formatted JSON." ++ [NL];
          lit "repo/pack/core.json: Fixing JSON formatting..." ++ [NL];
          summary 1 0].
Proof.
  eexists. split; [vm_compute; reflexivity|]. repeat split.
Qed.


(** The failing input of C4: the cycle index does not parse, so [main]
    passes [None] to stage 2; the first pack that conforms to the pack
    schema reaches the cross-check, which raises [TypeError]; the run
    ends there, without the summary line. *)
Example absent_cycles_abort_the_run :
  let st := start (repo (lit "oops") packs_text cards_text) in
  exists st',
    main (raw_args false 0) st = (Raises TypeError, st')
    /\ validation_errors st' = 1%Z
    /\ stdout_of (trace st')
       = [lit "repo/cycles.json: File is not valid JSON." ++ [NL];
          line "Insides of cycle index file are not a list!"].
Proof.
  eexists. split; [vm_compute; reflexivity|]. split; reflexivity.
Qed.



Lemma invalid_pack_schema_one_defect_witness :
  let st := start broken_pack_schema_repo in
  exists fs evs,
    validate_packs (args false 0) (JList [core_pack]) (JList [core_cycle]) st
    = (Returns false,
       mkState (formatting_errors st
                + (if str_eqb (format_json broken_schema) (format_json broken_schema)
                   then 0 else 1))
               (validation_errors st + 1) fs (trace st ++ evs))
    /\ (forall p s, ~ In (Validate p s) evs)
    /\ In (Stdout (path_join (schema_path (args false 0)) (lit "pack_schema.json")
                   ++ lit ": Schema file is not valid Draft 4 JSON schema." ++ [NL]))
          evs
    /\ In (StdoutExn (SchemaError (lit "required: not a list of strings"))) evs.
Proof.
  intros st.
  apply (@invalid_pack_schema_one_defect _ _ (args false 0) st true
           (bytes_of (format_json broken_schema))
           (format_json broken_schema) broken_schema
           (lit "required: not a list of strings")
           [core_pack] (JList [core_cycle])).
  - vm_compute. reflexivity.
  - vm_compute. reflexivity.
  - vm_compute. reflexivity.
  - left. reflexivity.
  - reflexivity.
  - reflexivity.
Defined.

(** C7 as stated fails: the pack schema file holds [[]], which parses and
    is not a valid schema (a schema is an object); the stage records no
    validation defect at all, and the whole run ends with status 0. *)
Lemma falsy_invalid_pack_schema_no_defect :
  let raw := lit "[]" ++ [NL] in
  let st := start (repo_with (format_json cycle_schema) raw
                     (format_json card_schema) cycles_text packs_text cards_text) in
  files st (lit "repo/schema/pack_schema.json")
    = Some (RegularFile true true (bytes_of raw))
  /\ utf8_decode (bytes_of raw) = Some raw
  /\ loads raw = Some (JList [])
  /\ check_schema (JList []) <> None
  /\ (exists st',
        validate_packs (args false 0) (JList [core_pack]) (JList [core_cycle]) st
        = (Returns false, st')
        /\ validation_errors st' = validation_errors st)
  /\ (exists st',
        main (raw_args false 0) st = (Raises (SystemExit (ExitCode 0)), st')
        /\ validation_errors st' = 0%Z).
Proof.
  intros raw st.
  split; [vm_compute; reflexivity|].
  split; [vm_compute; reflexivity|].
  split; [vm_compute; reflexivity|].
  split; [discriminate|].
  split; eexists; (split; [vm_compute; reflexivity|reflexivity]).
Qed.


(** The failing input of C9: a file that holds the escape of a lone
    surrogate parses; its canonical text holds the surrogate itself, so it
    differs from the file and, in fix mode, the file is opened for writing
    and [encode] raises [UnicodeEncodeError], which [except IOError] does
    not catch: the loader does not return, and the file is left empty. *)
Example lone_surrogate_rewrite_raises :
  let raw := QUOTE :: lit "\ud800" ++ [QUOTE] in
  let path := lit "repo/pack/core.json" in
  let st := start (repo cycles_text packs_text raw) in
  files st path = Some (RegularFile true true (bytes_of raw))
  /\ utf8_decode (bytes_of raw) = Some raw
  /\ loads raw = Some (JStr [55296%N])
  /\ exists st',
       load_json_file (args true 0) path st = (Raises UnicodeEncodeError, st')
       /\ formatting_errors st' = 1%Z
       /\ files st' path = Some (RegularFile true true []).
Proof.
  intros raw path st.
  split; [vm_compute; reflexivity|].
  split; [vm_compute; reflexivity|].
  split; [vm_compute; reflexivity|].
  eexists. split; [vm_compute; reflexivity|]. split; reflexivity.
Qed.

Lemma falsy_schema_skips_stage_witness :
  let st := start (repo_with empty_schema_text empty_schema_text empty_schema_text
                     cycles_text packs_text cards_text) in
  returns_at_once (validate_cards (args false 0) (JList [core_pack])) tt
    (JObj []) empty_schema_text st
  /\ returns_at_once
       (validate_packs (args false 0) (JList [core_pack]) (JList [core_cycle])) false
       (JObj []) empty_schema_text st
  /\ returns_at_once (validate_cycles (args false 0) (JList [core_cycle])) false
       (JObj []) empty_schema_text st.
Proof.
  intros st.
  destruct (@falsy_schema_skips_stage _ _ (args false 0) st true
              (bytes_of empty_schema_text) empty_schema_text
              (JObj []) (JList [core_pack]) (JList [core_cycle])
              eq_refl eq_refl (or_introl eq_refl) eq_refl)
    as (Hcards & Hpacks & Hcycles).
  split; [|split].
  - apply Hcards. reflexivity.
  - apply Hpacks. reflexivity.
  - destruct (@falsy_schema_skips_stage _ _ (args false 0) st true
                (bytes_of empty_schema_text) empty_schema_text
                (JObj []) (JList [core_cycle]) (JList [core_cycle])
                eq_refl eq_refl (or_introl eq_refl) eq_refl)
      as (_ & _ & Hc).
    apply Hc. reflexivity.
Defined.

(** The sample floats satisfy what the formatter needs. *)
Lemma float4_laws : FloatRoundTrip (PF:=Float4).
Proof.
  constructor.
  - intros []; reflexivity.
  - intros []; try discriminate; reflexivity.
  - reflexivity.
  - reflexivity.
  - reflexivity.
Defined.

Lemma format_json_idempotent_witness :
  exists v',
    loads (format_json sample_document) = Some v'
    /\ format_json v' = format_json sample_document.
Proof.
  apply (format_json_idempotent float4_laws).
  vm_compute. repeat split; repeat constructor; simpl; intuition discriminate.
Defined.

Example format_json_sample :
  format_json (JList [JInt 1; JList []; JObj [(lit "b", JNull); (lit "a", JBool true)]])
  = lit "[
    1,
    [],
    {
        " ++ QUOTE :: lit "a" ++ QUOTE :: lit ": true,
        " ++ QUOTE :: lit "b" ++ QUOTE :: lit ": null
    }
]
".
Proof. reflexivity. Qed.

Lemma main_without_fix_writes_nothing_witness :
  let st := start (repo cycles_text packs_text (halve_indent false cards_text)) in
  files (snd (main (raw_args false 0) st)) = files st.
Proof.
  intros st. apply (@main_without_fix_writes_nothing _ _ (raw_args false 0) st).
  reflexivity.
Defined.




Lemma load_json_file_returns_wf_witness : wf_json (JList [core_card]).
Proof.
  apply (@load_json_file_returns_wf _ (args false 0) (lit "repo/pack/core.json")
           (start (repo cycles_text packs_text cards_text)) (JList [core_card])
           (snd (load_json_file (args false 0) (lit "repo/pack/core.json")
                   (start (repo cycles_text packs_text cards_text))))).
  vm_compute. reflexivity.
Defined.

Lemma fix_then_reload_is_clean_witness :
  let path := lit "repo/pack/core.json" in
  let v := JList [core_card] in
  let st := start (repo cycles_text packs_text (halve_indent false cards_text)) in
  let st1 := snd (load_json_file (args true 0) path st) in
  (exists b,
     files st1 path = Some (RegularFile true true b)
     /\ utf8_decode b = Some (format_json v))
  /\ load_json_file (args true 0) path st1
     = (Returns (norm v),
        mkState (formatting_errors st1) (validation_errors st1) (files st1)
          (trace st1
           ++ printed (args true 0)
                (path ++ lit ": Checking JSON formatting..." ++ [NL]) 1)).
Proof.
  intros path v st st1.
  apply (@fix_then_reload_is_clean _ float4_laws (args true 0) path st
           (bytes_of (halve_indent false cards_text))
           (halve_indent false cards_text) v st1).
  - reflexivity.
  - vm_compute. reflexivity.
  - vm_compute. reflexivity.
  - vm_compute. reflexivity.
  - vm_compute. reflexivity.
Defined.





Lemma main_bad_directory_witness :
  let st := start (fun _ => None) in
  exists m,
    main (raw_args false 0) st
    = (Raises (SystemExit (ExitMessage m)), mkState 0 0 (files st) (trace st))
    /\ exit_status (SystemExit (ExitMessage m)) = 1%Z.
Proof.
  intros st. apply (@main_bad_directory _ _ (raw_args false 0) st). reflexivity.
Defined.

Lemma load_pack_index_checks_pack_files_witness :
  let st := start (repo cycles_text two_packs_text cards_text) in
  exists st2,
    load_pack_index (args false 0) (JList [core_cycle]) st
    = (Raises (SystemExit (ExitMessage (lit "repo/pack/wotn.json does not exist"))),
       st2)
    /\ validation_errors st2 = 0%Z.
Proof.
  intros st.
  set (items := [core_pack_members; second_pack_members]).
  set (st1 := snd (load_json_file (args false 0)
                     (path_join (base_path (args false 0)) (lit "packs.json"))
                     (snd (verbose_print (args false 0)
                             (line "Loading pack index file...") 1 st)))).
  set (st2 := snd (validate_packs (args false 0) (JList (map JObj items))
                     (JList [core_cycle]) st1)).
  exists st2. split; [|reflexivity].
  refine (@load_pack_index_checks_pack_files _ _ (args false 0) (JList [core_cycle])
            st st1 st2 items _ _ _).
  - vm_compute. reflexivity.
  - vm_compute. reflexivity.
  - repeat constructor; discriminate.
Defined.

Lemma non_list_index_is_rejected_witness :
  let st := start (repo cycles_text packs_text cards_text) in
  let st1 := snd (load_json_file (args false 0) (lit "repo/schema/cycle_schema.json") st) in
  let st2 := snd (load_json_file (args false 0) (lit "repo/schema/pack_schema.json") st) in
  validate_cycles (args false 0) (JObj []) st
  = (Returns false,
     mkState (formatting_errors st1) (validation_errors st1) (files st1)
       (trace st1 ++ [Stdout (line "Insides of cycle index file are not a list!")]))
  /\ validate_packs (args false 0) (JObj []) (JList [core_cycle]) st
     = (Returns false,
        mkState (formatting_errors st2) (validation_errors st2) (files st2)
          (trace st2 ++ [Stdout (line "Insides of pack index file are not a list!")])).
Proof.
  intros st st1 st2.
  refine (@non_list_index_is_rejected _ _ (args false 0) (JObj []) (JList [core_cycle])
            st cycle_schema pack_schema st1 st2 _ _ _).
  - reflexivity.
  - vm_compute. reflexivity.
  - vm_compute. reflexivity.
Defined.



Lemma main_unreadable_cycle_index_witness :
  let st := start bare_repo in
  main (raw_args false 1) st
  = (Raises OSError,
     mkState 0 0 (files st)
       (trace st ++ [Stdout (line "Loading cycle index file...")])).
Proof.
  intros st.
  refine (@main_unreadable_cycle_index _ _ (raw_args false 1) st _ _ _ _);
    reflexivity.
Defined.

Lemma index_loaders_return_list_or_none_witness :
  JList [core_cycle] = JNull \/ is_list (JList [core_cycle]) = true.
Proof.
  apply (@index_loaders_return_list_or_none _ _ (args false 0) JNull
           (start (repo cycles_text packs_text cards_text)) (JList [core_cycle])
           (snd (load_cycles (args false 0)
                   (start (repo cycles_text packs_text cards_text))))).
  left. vm_compute. reflexivity.
Defined.


Lemma format_json_key_order_witness :
  format_json (JObj [(lit "b", JNull); (lit "a", JBool true)])
  = format_json (JObj [(lit "a", JBool true); (lit "b", JNull)]).
Proof.
  apply format_json_key_order.
  - apply perm_swap.
  - repeat constructor; simpl; intuition discriminate.
Defined.

Lemma format_json_determines_document_witness :
  let v := JObj [(lit "b", JInt 2); (lit "a", JFloat FHalf)] in
  let v' := JObj [(lit "a", JFloat FHalf); (lit "b", JInt 2)] in
  format_json v = format_json v' <-> norm v = norm v'.
Proof.
  intros v v'.
  apply (@format_json_determines_document _ float4_laws v v').
  - vm_compute. repeat split; repeat constructor; simpl; intuition discriminate.
  - vm_compute. repeat split; repeat constructor; simpl; intuition discriminate.
Defined.


Lemma invalid_schema_stops_stage_witness :
  let raw := format_json broken_schema in
  let st := start (repo_with raw (format_json pack_schema) raw
                     cycles_text packs_text cards_text) in
  (exists fs evs,
     validate_cycles (args false 0) (JList [core_cycle]) st
     = (Returns false,
        mkState (formatting_errors st + 0) (validation_errors st + 1) fs
                (trace st ++ evs))
     /\ (forall p s, ~ In (Validate p s) evs)
     /\ In (StdoutExn (SchemaError (lit "required: not a list of strings"))) evs)
  /\ (exists fs evs,
        validate_cards (args false 0) (JList [core_pack]) st
        = (Returns tt,
           mkState (formatting_errors st + 0) (validation_errors st + 1) fs
                   (trace st ++ evs))
        /\ (forall p s, ~ In (Validate p s) evs)
        /\ In (StdoutExn (SchemaError (lit "required: not a list of strings"))) evs).
Proof.
  intros raw st.
  assert (Hc : utf8_decode (bytes_of raw) = Some raw) by (vm_compute; reflexivity).
  assert (Hp : loads raw = Some broken_schema) by (vm_compute; reflexivity).
  split.
  - refine (proj1 (@invalid_schema_stops_stage _ _ (args false 0) st true
                     (bytes_of raw) raw broken_schema
                     (lit "required: not a list of strings") (JList [core_cycle])
                     Hc Hp (or_introl eq_refl) eq_refl eq_refl) _ _).
    + vm_compute. reflexivity.
    + reflexivity.
  - refine (proj2 (@invalid_schema_stops_stage _ _ (args false 0) st true
                     (bytes_of raw) raw broken_schema
                     (lit "required: not a list of strings") (JList [core_pack])
                     Hc Hp (or_introl eq_refl) eq_refl eq_refl) _).
    vm_compute. reflexivity.
Defined.

End Scenarios.
